(** * Group-call session orchestrator: a shallow embedding of
    [Telegram/SourceFiles/calls/group/calls_group_call.cpp].

    The member functions of [GroupCall] are translated into state-passing
    functions over a record holding the members they read and write.
    What the class talks to (the request sender [_api], the media engine
    [_instance], the delegate, the roster object [Data::GroupCall]) is
    kept as explicit bookkeeping in the same record: the requests that
    are still outstanding, the join payloads that the engine still owes,
    and a trace of the calls made to the collaborators.  The trace and
    the list of outstanding requests grow at the head: the newest entry
    comes first.

    Three things are taken as given throughout.  The session object is
    alive: the weak pointers that guard the continuations are not null,
    and what the delegate does with a finished call is not part of the
    file.  [_id] is set: [inputCall()] asserts it, and every function
    that builds a request is reached after [join] has stored the id.  And
    all of it runs on the main thread, one handler at a time; the one
    place where another thread takes part, the completion callback of a
    part task, has its own model at the end of the definitions. *)

From stdpp Require Import base decidable option list gmap sets strings.
From Stdlib Require Import ZArith QArith Lia.

#[local] Open Scope Z_scope.

(** ** Enumerations *)

(** Modelled from the spec: the [State] enumeration is declared in
    calls_group_call.h, which is not part of the sources; the eight
    lifecycle states are the ones the spec names, and they are exactly
    the ones the .cpp file mentions. *)
Module State.
Inductive t :=
| Waiting | Joining | Connecting | Joined
| HangingUp | FailedHangingUp | Ended | Failed.

#[global] Instance eq_dec : EqDecision t.
Proof. solve_decision. Defined.
End State.

(** Modelled from the spec: [MuteState] is declared in a header that is
    not part of the sources. *)
Module MuteState.
Inductive t := Active | Muted | PushToTalk | ForceMuted | RaisedHand.

#[global] Instance eq_dec : EqDecision t.
Proof. solve_decision. Defined.
End MuteState.

Module InstanceMode.
Inductive t := None | Rtc | Stream.

#[global] Instance eq_dec : EqDecision t.
Proof. solve_decision. Defined.
End InstanceMode.

Module InstanceState.
Inductive t := Disconnected | TransitionToRtc | Connected.

#[global] Instance eq_dec : EqDecision t.
Proof. solve_decision. Defined.
End InstanceState.

Module FinishType.
Inductive t := None | Ended | Failed.

#[global] Instance eq_dec : EqDecision t.
Proof. solve_decision. Defined.
End FinishType.

Module SendUpdateType.
Inductive t := Mute | RaiseHand | VideoMuted.

#[global] Instance eq_dec : EqDecision t.
Proof. solve_decision. Defined.
End SendUpdateType.

(** [Delegate::GroupCallSound]. *)
Module GroupCallSound.
Inductive t := Started | Connecting | AllowedToSpeak | Ended.
End GroupCallSound.

(** [tgcalls::BroadcastPart::Status]. *)
Module Status.
Inductive t := Success | NotReady | ResyncNeeded.

#[global] Instance eq_dec : EqDecision t.
Proof. solve_decision. Defined.
End Status.

(** The four texts the join failure handler can put in its toast. *)
Inductive ToastText :=
| lng_group_call_no_anonymous
| lng_group_call_too_many
| lng_group_not_accessible
| ServerError.

#[global] Instance ToastText_eq_dec : EqDecision ToastText.
Proof. solve_decision. Defined.

(** The error types the handlers compare against. *)
Definition GROUPCALL_SSRC_DUPLICATE_MUCH : string :=
  "GROUPCALL_SSRC_DUPLICATE_MUCH"%string.
Definition GROUPCALL_ANONYMOUS_FORBIDDEN : string :=
  "GROUPCALL_ANONYMOUS_FORBIDDEN"%string.
Definition GROUPCALL_PARTICIPANTS_TOO_MUCH : string :=
  "GROUPCALL_PARTICIPANTS_TOO_MUCH"%string.
Definition GROUPCALL_FORBIDDEN : string := "GROUPCALL_FORBIDDEN"%string.
Definition GROUPCALL_JOIN_MISSING : string :=
  "GROUPCALL_JOIN_MISSING"%string.
Definition TIME_TOO_BIG : string := "TIME_TOO_BIG"%string.

(** ** Data *)

(** [uint32] values are integers in [0, 2^32); an [MTPint] is a signed
    32-bit integer, and comparing it with a [uint32] converts it first. *)
Definition uint32 (v : Z) : Z := v mod 2 ^ 32.

(** The flags and fields of [MTPDgroupCallParticipant] that the class
    reads. *)
Record MTPDgroupCallParticipant := {
  is_left : bool;
  is_self : bool;
  is_min : bool;
  is_muted : bool;
  is_can_self_unmute : bool;
  is_muted_by_you : bool;
  vpeer : Z;
  vsource : Z;
  vvolume : option Z;
  vraise_hand_rating : option Z
}.

(** [MTPDupdateGroupCallParticipants]: the call it is about and its
    entries. *)
Record MTPDupdateGroupCallParticipants := {
  vcall_id : Z;
  vparticipants : list MTPDgroupCallParticipant
}.

(** [MTPGroupCall], by constructor, with the call id. *)
Inductive MTPGroupCall :=
| MTPDgroupCall (vid : Z)
| MTPDgroupCallDiscarded (vid : Z).

(** The two updates [handleUpdate] accepts; any other is [Unexpected]. *)
Inductive MTPUpdate :=
| MTPDupdateGroupCall (vcall : MTPGroupCall)
| MTPDupdateGroupCallParticipants_ (data : MTPDupdateGroupCallParticipants).

(** [Data::GroupCallParticipant], the roster entry. *)
Record GroupCallParticipant := {
  peer : Z;
  ssrc : Z;
  speaking : bool;
  sounding : bool;
  mutedByMe : bool;
  lastActive : Z;
  volume : Z;
  raisedHandRating : Z
}.

(** The part of [Data::GroupCall] the class looks at: its id and its
    participants, in roster order. *)
Record DataGroupCall := {
  call_id : Z;
  participants : list GroupCallParticipant
}.

(** [tgcalls::BroadcastPart]; the response timestamp is a [double],
    held as the rational it stands for. *)
Record BroadcastPart := {
  timestampMilliseconds : Z;
  responseTimestamp : Q;
  status : Status.t;
  oggData : list Z
}.

(** [GroupCall::LoadPartTask]: [_done] tells whether the completion
    callback is still stored. *)
Record LoadPartTask := {
  _time : Z;
  _scale : Z;
  _done : bool
}.

(** The requests the class sends, each with what its handlers captured. *)
Inductive Request :=
| MTPphone_JoinGroupCall
    (ssrc : Z) (wasMuteState : MuteState.t) (f_muted : bool)
    (joinAs : Z) (joinHash : string)
| MTPphone_LeaveGroupCall (source : Z) (finalState : State.t)
| MTPphone_EditGroupCallParticipant
    (type : SendUpdateType.t) (muted raiseHand videoMuted : bool)
| MTPupload_GetFile (task : positive) (time scale : Z).

(** The entry [applyMeInCallLocally] hands to the roster; its date comes
    from the clock and is left out. *)
Record LocalSelfEntry := {
  f_can_self_unmute : bool;
  f_active_date : bool;
  f_left : bool;
  f_muted_flag : bool;
  f_raise_hand_rating : bool;
  e_lastActive : Z;
  e_source : Z;
  e_volume : Z;
  e_raisedHandRating : Z
}.

(** Calls made to the collaborators. *)
Inductive Effect :=
| PlaySound (s : GroupCallSound.t)
| GroupCallFinished
| GroupCallFailed
| SetInCall
| ShowMultilineToast (text : ToastText)
| ApplyLocalUpdate (entry : LocalSelfEntry)
| SetGroupCallDefaultJoinAs (as_ : Z)
| InstanceCreated
| InstanceDestroyed
| InstanceSetIsMuted (b : bool)
| InstanceSetVolume (ssrc : Z) (mutedByMe : bool) (volume : Z)
| InstanceSetConnectionMode (mode : InstanceMode.t)
| InstanceEmitJoinPayload
| ApiSend (id : Z) (r : Request)
| ApiCancel (id : Z)
| ApplyUpdates
| PartDelivered (task : positive) (part : BroadcastPart)
| OtherParticipantState (peer : Z) (volume : Z) (mutedByMe : bool)
| AllowedToSpeakNotification
| GroupCallRequestPermissionsOrFail (mute : MuteState.t)
| ApplyGlobalShortcutChanges.

Record GroupCall := mkGroupCall {
  _id : Z;
  _joinAs : Z;
  _joinHash : string;
  _state : State.t;
  _mySsrc : Z;
  _mySsrcs : gset Z;
  _muted : MuteState.t;
  _initialMuteStateSent : bool;
  _instance : bool;
  _instanceMode : InstanceMode.t;
  _instanceState : InstanceState.t;
  _instanceTransitioning : bool;
  _hadJoinedState : bool;
  _queuedSelfUpdates : list MTPDgroupCallParticipant;
  _broadcastParts : gmap positive Z;
  _updateMuteRequestId : Z;
  _checkJoinedTimer : bool;
  _connectingSoundTimer : bool;
  _videoStreamSsrcs : list Z;
  _videoMuted : gset Z;
  _videoOutgoingActive : bool;
  peerGroupCall : option DataGroupCall;
  apiNextRequestId : Z;
  apiPending : list (Z * Request);
  tasks : gmap positive LoadPartTask;
  pendingJoinPayloads : nat;
  trace : list Effect
}.

Definition set_joinAs (v : Z) (c : GroupCall) : GroupCall :=
  mkGroupCall (_id c) v (_joinHash c) (_state c) (_mySsrc c) (_mySsrcs c)
  (_muted c) (_initialMuteStateSent c) (_instance c) (_instanceMode c)
  (_instanceState c) (_instanceTransitioning c) (_hadJoinedState c)
  (_queuedSelfUpdates c) (_broadcastParts c) (_updateMuteRequestId c)
  (_checkJoinedTimer c) (_connectingSoundTimer c) (_videoStreamSsrcs c)
  (_videoMuted c) (_videoOutgoingActive c) (peerGroupCall c)
  (apiNextRequestId c) (apiPending c) (tasks c) (pendingJoinPayloads c)
  (trace c).

Definition set_joinHash (v : string) (c : GroupCall) : GroupCall :=
  mkGroupCall (_id c) (_joinAs c) v (_state c) (_mySsrc c) (_mySsrcs c)
  (_muted c) (_initialMuteStateSent c) (_instance c) (_instanceMode c)
  (_instanceState c) (_instanceTransitioning c) (_hadJoinedState c)
  (_queuedSelfUpdates c) (_broadcastParts c) (_updateMuteRequestId c)
  (_checkJoinedTimer c) (_connectingSoundTimer c) (_videoStreamSsrcs c)
  (_videoMuted c) (_videoOutgoingActive c) (peerGroupCall c)
  (apiNextRequestId c) (apiPending c) (tasks c) (pendingJoinPayloads c)
  (trace c).

Definition set_state (v : State.t) (c : GroupCall) : GroupCall :=
  mkGroupCall (_id c) (_joinAs c) (_joinHash c) v (_mySsrc c) (_mySsrcs c)
  (_muted c) (_initialMuteStateSent c) (_instance c) (_instanceMode c)
  (_instanceState c) (_instanceTransitioning c) (_hadJoinedState c)
  (_queuedSelfUpdates c) (_broadcastParts c) (_updateMuteRequestId c)
  (_checkJoinedTimer c) (_connectingSoundTimer c) (_videoStreamSsrcs c)
  (_videoMuted c) (_videoOutgoingActive c) (peerGroupCall c)
  (apiNextRequestId c) (apiPending c) (tasks c) (pendingJoinPayloads c)
  (trace c).

Definition set_mySsrc (v : Z) (c : GroupCall) : GroupCall :=
  mkGroupCall (_id c) (_joinAs c) (_joinHash c) (_state c) v (_mySsrcs c)
  (_muted c) (_initialMuteStateSent c) (_instance c) (_instanceMode c)
  (_instanceState c) (_instanceTransitioning c) (_hadJoinedState c)
  (_queuedSelfUpdates c) (_broadcastParts c) (_updateMuteRequestId c)
  (_checkJoinedTimer c) (_connectingSoundTimer c) (_videoStreamSsrcs c)
  (_videoMuted c) (_videoOutgoingActive c) (peerGroupCall c)
  (apiNextRequestId c) (apiPending c) (tasks c) (pendingJoinPayloads c)
  (trace c).

Definition set_mySsrcs (v : gset Z) (c : GroupCall) : GroupCall :=
  mkGroupCall (_id c) (_joinAs c) (_joinHash c) (_state c) (_mySsrc c) v
  (_muted c) (_initialMuteStateSent c) (_instance c) (_instanceMode c)
  (_instanceState c) (_instanceTransitioning c) (_hadJoinedState c)
  (_queuedSelfUpdates c) (_broadcastParts c) (_updateMuteRequestId c)
  (_checkJoinedTimer c) (_connectingSoundTimer c) (_videoStreamSsrcs c)
  (_videoMuted c) (_videoOutgoingActive c) (peerGroupCall c)
  (apiNextRequestId c) (apiPending c) (tasks c) (pendingJoinPayloads c)
  (trace c).

Definition set_muted (v : MuteState.t) (c : GroupCall) : GroupCall :=
  mkGroupCall (_id c) (_joinAs c) (_joinHash c) (_state c) (_mySsrc c)
  (_mySsrcs c) v (_initialMuteStateSent c) (_instance c) (_instanceMode c)
  (_instanceState c) (_instanceTransitioning c) (_hadJoinedState c)
  (_queuedSelfUpdates c) (_broadcastParts c) (_updateMuteRequestId c)
  (_checkJoinedTimer c) (_connectingSoundTimer c) (_videoStreamSsrcs c)
  (_videoMuted c) (_videoOutgoingActive c) (peerGroupCall c)
  (apiNextRequestId c) (apiPending c) (tasks c) (pendingJoinPayloads c)
  (trace c).

Definition set_initialMuteStateSent (v : bool) (c : GroupCall) : GroupCall :=
  mkGroupCall (_id c) (_joinAs c) (_joinHash c) (_state c) (_mySsrc c)
  (_mySsrcs c) (_muted c) v (_instance c) (_instanceMode c) (_instanceState
  c) (_instanceTransitioning c) (_hadJoinedState c) (_queuedSelfUpdates c)
  (_broadcastParts c) (_updateMuteRequestId c) (_checkJoinedTimer c)
  (_connectingSoundTimer c) (_videoStreamSsrcs c) (_videoMuted c)
  (_videoOutgoingActive c) (peerGroupCall c) (apiNextRequestId c)
  (apiPending c) (tasks c) (pendingJoinPayloads c) (trace c).

Definition set_instance (v : bool) (c : GroupCall) : GroupCall :=
  mkGroupCall (_id c) (_joinAs c) (_joinHash c) (_state c) (_mySsrc c)
  (_mySsrcs c) (_muted c) (_initialMuteStateSent c) v (_instanceMode c)
  (_instanceState c) (_instanceTransitioning c) (_hadJoinedState c)
  (_queuedSelfUpdates c) (_broadcastParts c) (_updateMuteRequestId c)
  (_checkJoinedTimer c) (_connectingSoundTimer c) (_videoStreamSsrcs c)
  (_videoMuted c) (_videoOutgoingActive c) (peerGroupCall c)
  (apiNextRequestId c) (apiPending c) (tasks c) (pendingJoinPayloads c)
  (trace c).

Definition set_instanceMode (v : InstanceMode.t) (c : GroupCall) : GroupCall :=
  mkGroupCall (_id c) (_joinAs c) (_joinHash c) (_state c) (_mySsrc c)
  (_mySsrcs c) (_muted c) (_initialMuteStateSent c) (_instance c) v
  (_instanceState c) (_instanceTransitioning c) (_hadJoinedState c)
  (_queuedSelfUpdates c) (_broadcastParts c) (_updateMuteRequestId c)
  (_checkJoinedTimer c) (_connectingSoundTimer c) (_videoStreamSsrcs c)
  (_videoMuted c) (_videoOutgoingActive c) (peerGroupCall c)
  (apiNextRequestId c) (apiPending c) (tasks c) (pendingJoinPayloads c)
  (trace c).

Definition set_instanceState (v : InstanceState.t) (c : GroupCall) : GroupCall :=
  mkGroupCall (_id c) (_joinAs c) (_joinHash c) (_state c) (_mySsrc c)
  (_mySsrcs c) (_muted c) (_initialMuteStateSent c) (_instance c)
  (_instanceMode c) v (_instanceTransitioning c) (_hadJoinedState c)
  (_queuedSelfUpdates c) (_broadcastParts c) (_updateMuteRequestId c)
  (_checkJoinedTimer c) (_connectingSoundTimer c) (_videoStreamSsrcs c)
  (_videoMuted c) (_videoOutgoingActive c) (peerGroupCall c)
  (apiNextRequestId c) (apiPending c) (tasks c) (pendingJoinPayloads c)
  (trace c).

Definition set_instanceTransitioning (v : bool) (c : GroupCall) : GroupCall :=
  mkGroupCall (_id c) (_joinAs c) (_joinHash c) (_state c) (_mySsrc c)
  (_mySsrcs c) (_muted c) (_initialMuteStateSent c) (_instance c)
  (_instanceMode c) (_instanceState c) v (_hadJoinedState c)
  (_queuedSelfUpdates c) (_broadcastParts c) (_updateMuteRequestId c)
  (_checkJoinedTimer c) (_connectingSoundTimer c) (_videoStreamSsrcs c)
  (_videoMuted c) (_videoOutgoingActive c) (peerGroupCall c)
  (apiNextRequestId c) (apiPending c) (tasks c) (pendingJoinPayloads c)
  (trace c).

Definition set_hadJoinedState (v : bool) (c : GroupCall) : GroupCall :=
  mkGroupCall (_id c) (_joinAs c) (_joinHash c) (_state c) (_mySsrc c)
  (_mySsrcs c) (_muted c) (_initialMuteStateSent c) (_instance c)
  (_instanceMode c) (_instanceState c) (_instanceTransitioning c) v
  (_queuedSelfUpdates c) (_broadcastParts c) (_updateMuteRequestId c)
  (_checkJoinedTimer c) (_connectingSoundTimer c) (_videoStreamSsrcs c)
  (_videoMuted c) (_videoOutgoingActive c) (peerGroupCall c)
  (apiNextRequestId c) (apiPending c) (tasks c) (pendingJoinPayloads c)
  (trace c).

Definition set_queuedSelfUpdates (v : list MTPDgroupCallParticipant) (c : GroupCall) : GroupCall :=
  mkGroupCall (_id c) (_joinAs c) (_joinHash c) (_state c) (_mySsrc c)
  (_mySsrcs c) (_muted c) (_initialMuteStateSent c) (_instance c)
  (_instanceMode c) (_instanceState c) (_instanceTransitioning c)
  (_hadJoinedState c) v (_broadcastParts c) (_updateMuteRequestId c)
  (_checkJoinedTimer c) (_connectingSoundTimer c) (_videoStreamSsrcs c)
  (_videoMuted c) (_videoOutgoingActive c) (peerGroupCall c)
  (apiNextRequestId c) (apiPending c) (tasks c) (pendingJoinPayloads c)
  (trace c).

Definition set_broadcastParts (v : gmap positive Z) (c : GroupCall) : GroupCall :=
  mkGroupCall (_id c) (_joinAs c) (_joinHash c) (_state c) (_mySsrc c)
  (_mySsrcs c) (_muted c) (_initialMuteStateSent c) (_instance c)
  (_instanceMode c) (_instanceState c) (_instanceTransitioning c)
  (_hadJoinedState c) (_queuedSelfUpdates c) v (_updateMuteRequestId c)
  (_checkJoinedTimer c) (_connectingSoundTimer c) (_videoStreamSsrcs c)
  (_videoMuted c) (_videoOutgoingActive c) (peerGroupCall c)
  (apiNextRequestId c) (apiPending c) (tasks c) (pendingJoinPayloads c)
  (trace c).

Definition set_updateMuteRequestId (v : Z) (c : GroupCall) : GroupCall :=
  mkGroupCall (_id c) (_joinAs c) (_joinHash c) (_state c) (_mySsrc c)
  (_mySsrcs c) (_muted c) (_initialMuteStateSent c) (_instance c)
  (_instanceMode c) (_instanceState c) (_instanceTransitioning c)
  (_hadJoinedState c) (_queuedSelfUpdates c) (_broadcastParts c) v
  (_checkJoinedTimer c) (_connectingSoundTimer c) (_videoStreamSsrcs c)
  (_videoMuted c) (_videoOutgoingActive c) (peerGroupCall c)
  (apiNextRequestId c) (apiPending c) (tasks c) (pendingJoinPayloads c)
  (trace c).

Definition set_checkJoinedTimer (v : bool) (c : GroupCall) : GroupCall :=
  mkGroupCall (_id c) (_joinAs c) (_joinHash c) (_state c) (_mySsrc c)
  (_mySsrcs c) (_muted c) (_initialMuteStateSent c) (_instance c)
  (_instanceMode c) (_instanceState c) (_instanceTransitioning c)
  (_hadJoinedState c) (_queuedSelfUpdates c) (_broadcastParts c)
  (_updateMuteRequestId c) v (_connectingSoundTimer c) (_videoStreamSsrcs c)
  (_videoMuted c) (_videoOutgoingActive c) (peerGroupCall c)
  (apiNextRequestId c) (apiPending c) (tasks c) (pendingJoinPayloads c)
  (trace c).

Definition set_connectingSoundTimer (v : bool) (c : GroupCall) : GroupCall :=
  mkGroupCall (_id c) (_joinAs c) (_joinHash c) (_state c) (_mySsrc c)
  (_mySsrcs c) (_muted c) (_initialMuteStateSent c) (_instance c)
  (_instanceMode c) (_instanceState c) (_instanceTransitioning c)
  (_hadJoinedState c) (_queuedSelfUpdates c) (_broadcastParts c)
  (_updateMuteRequestId c) (_checkJoinedTimer c) v (_videoStreamSsrcs c)
  (_videoMuted c) (_videoOutgoingActive c) (peerGroupCall c)
  (apiNextRequestId c) (apiPending c) (tasks c) (pendingJoinPayloads c)
  (trace c).

Definition set_peerGroupCall (v : option DataGroupCall) (c : GroupCall) : GroupCall :=
  mkGroupCall (_id c) (_joinAs c) (_joinHash c) (_state c) (_mySsrc c)
  (_mySsrcs c) (_muted c) (_initialMuteStateSent c) (_instance c)
  (_instanceMode c) (_instanceState c) (_instanceTransitioning c)
  (_hadJoinedState c) (_queuedSelfUpdates c) (_broadcastParts c)
  (_updateMuteRequestId c) (_checkJoinedTimer c) (_connectingSoundTimer c)
  (_videoStreamSsrcs c) (_videoMuted c) (_videoOutgoingActive c) v
  (apiNextRequestId c) (apiPending c) (tasks c) (pendingJoinPayloads c)
  (trace c).

Definition set_apiNextRequestId (v : Z) (c : GroupCall) : GroupCall :=
  mkGroupCall (_id c) (_joinAs c) (_joinHash c) (_state c) (_mySsrc c)
  (_mySsrcs c) (_muted c) (_initialMuteStateSent c) (_instance c)
  (_instanceMode c) (_instanceState c) (_instanceTransitioning c)
  (_hadJoinedState c) (_queuedSelfUpdates c) (_broadcastParts c)
  (_updateMuteRequestId c) (_checkJoinedTimer c) (_connectingSoundTimer c)
  (_videoStreamSsrcs c) (_videoMuted c) (_videoOutgoingActive c)
  (peerGroupCall c) v (apiPending c) (tasks c) (pendingJoinPayloads c)
  (trace c).

Definition set_apiPending (v : list (Z * Request)) (c : GroupCall) : GroupCall :=
  mkGroupCall (_id c) (_joinAs c) (_joinHash c) (_state c) (_mySsrc c)
  (_mySsrcs c) (_muted c) (_initialMuteStateSent c) (_instance c)
  (_instanceMode c) (_instanceState c) (_instanceTransitioning c)
  (_hadJoinedState c) (_queuedSelfUpdates c) (_broadcastParts c)
  (_updateMuteRequestId c) (_checkJoinedTimer c) (_connectingSoundTimer c)
  (_videoStreamSsrcs c) (_videoMuted c) (_videoOutgoingActive c)
  (peerGroupCall c) (apiNextRequestId c) v (tasks c) (pendingJoinPayloads c)
  (trace c).

Definition set_tasks (v : gmap positive LoadPartTask) (c : GroupCall) : GroupCall :=
  mkGroupCall (_id c) (_joinAs c) (_joinHash c) (_state c) (_mySsrc c)
  (_mySsrcs c) (_muted c) (_initialMuteStateSent c) (_instance c)
  (_instanceMode c) (_instanceState c) (_instanceTransitioning c)
  (_hadJoinedState c) (_queuedSelfUpdates c) (_broadcastParts c)
  (_updateMuteRequestId c) (_checkJoinedTimer c) (_connectingSoundTimer c)
  (_videoStreamSsrcs c) (_videoMuted c) (_videoOutgoingActive c)
  (peerGroupCall c) (apiNextRequestId c) (apiPending c) v
  (pendingJoinPayloads c) (trace c).

Definition set_pendingJoinPayloads (v : nat) (c : GroupCall) : GroupCall :=
  mkGroupCall (_id c) (_joinAs c) (_joinHash c) (_state c) (_mySsrc c)
  (_mySsrcs c) (_muted c) (_initialMuteStateSent c) (_instance c)
  (_instanceMode c) (_instanceState c) (_instanceTransitioning c)
  (_hadJoinedState c) (_queuedSelfUpdates c) (_broadcastParts c)
  (_updateMuteRequestId c) (_checkJoinedTimer c) (_connectingSoundTimer c)
  (_videoStreamSsrcs c) (_videoMuted c) (_videoOutgoingActive c)
  (peerGroupCall c) (apiNextRequestId c) (apiPending c) (tasks c) v (trace
  c).

Definition set_trace (v : list Effect) (c : GroupCall) : GroupCall :=
  mkGroupCall (_id c) (_joinAs c) (_joinHash c) (_state c) (_mySsrc c)
  (_mySsrcs c) (_muted c) (_initialMuteStateSent c) (_instance c)
  (_instanceMode c) (_instanceState c) (_instanceTransitioning c)
  (_hadJoinedState c) (_queuedSelfUpdates c) (_broadcastParts c)
  (_updateMuteRequestId c) (_checkJoinedTimer c) (_connectingSoundTimer c)
  (_videoStreamSsrcs c) (_videoMuted c) (_videoOutgoingActive c)
  (peerGroupCall c) (apiNextRequestId c) (apiPending c) (tasks c)
  (pendingJoinPayloads c) v.

(** ** Collaborators *)

Definition emit (e : Effect) (c : GroupCall) : GroupCall :=
  set_trace (e :: trace c) c.

(** [_api.request(...).send()]: the request gets the next id and stays
    outstanding until it is answered or cancelled. *)
Definition api_send (r : Request) (c : GroupCall) : Z * GroupCall :=
  let id := apiNextRequestId c in
  (id, emit (ApiSend id r)
         (set_apiPending ((id, r) :: apiPending c)
            (set_apiNextRequestId (id + 1) c))).

(** [_api.request(id).cancel()]. *)
Definition api_cancel (id : Z) (c : GroupCall) : GroupCall :=
  emit (ApiCancel id)
    (set_apiPending
       (filter (fun p => negb (bool_decide (p.1 = id))) (apiPending c)) c).

(** Modelled from the spec: [Group::kDefaultVolume] is declared in
    calls_group_common.h, which is not part of the sources; the spec
    gives the default volume as 10000. *)
Definition kDefaultVolume : Z := 10000.

Definition lookupReal (c : GroupCall) : option DataGroupCall :=
  match peerGroupCall c with
  | Some real => if decide (call_id real = _id c) then Some real else None
  | None => None
  end.

(** ** The state machine *)

Definition stopConnectingSound (c : GroupCall) : GroupCall :=
  set_connectingSoundTimer false c.

Definition destroyController (c : GroupCall) : GroupCall :=
  if _instance c then emit InstanceDestroyed (set_instance false c) else c.

Definition setState (state : State.t) (c : GroupCall) : GroupCall :=
  if decide (_state c = State.Failed) then c
  else if decide (_state c = State.FailedHangingUp
                  /\ state <> State.Failed) then c
  else if decide (_state c = state) then c
  else
    let c := set_state state c in
    let c :=
      if decide (state = State.Joined) then
        let c := stopConnectingSound c in
        match peerGroupCall c with
        | Some call =>
            if decide (call_id call = _id c) then emit SetInCall c else c
        | None => c
        end
      else c in
    let c :=
      if decide (state = State.Ended \/ state = State.Failed)
      then destroyController c else c in
    match state with
    | State.HangingUp | State.FailedHangingUp =>
        emit (PlaySound GroupCallSound.Ended) c
    | State.Ended => emit GroupCallFinished c
    | State.Failed => emit GroupCallFailed c
    | State.Connecting =>
        if _checkJoinedTimer c then c else set_checkJoinedTimer true c
    | _ => c
    end.

(** ** Mute state and self updates *)

Definition updateInstanceMuteState (c : GroupCall) : GroupCall :=
  emit (InstanceSetIsMuted
          (bool_decide (_muted c <> MuteState.Active
                        /\ _muted c <> MuteState.PushToTalk))) c.

Definition updateInstanceVolumes (c : GroupCall) : GroupCall :=
  match lookupReal c with
  | None => c
  | Some real =>
      foldl (fun c p =>
               if (mutedByMe p || bool_decide (volume p <> kDefaultVolume))
                  && bool_decide (ssrc p <> 0)
               then emit (InstanceSetVolume (ssrc p) (mutedByMe p) (volume p)) c
               else c)
            c (participants real)
  end.

Definition sendSelfUpdate (type : SendUpdateType.t) (c : GroupCall)
  : GroupCall :=
  let c := api_cancel (_updateMuteRequestId c) c in
  let '(id, c) :=
    api_send (MTPphone_EditGroupCallParticipant type
                (bool_decide (_muted c <> MuteState.Active))
                (bool_decide (_muted c = MuteState.RaisedHand))
                (negb (_videoOutgoingActive c))) c in
  set_updateMuteRequestId id c.

Definition maybeSendMutedUpdate (previous : MuteState.t) (c : GroupCall)
  : GroupCall :=
  let now := _muted c in
  if decide ((previous = MuteState.Active /\ now = MuteState.Muted)
             \/ (now = MuteState.Active
                 /\ (previous = MuteState.Muted
                     \/ previous = MuteState.PushToTalk)))
  then sendSelfUpdate SendUpdateType.Mute c
  else if decide ((now = MuteState.ForceMuted
                   /\ previous = MuteState.RaisedHand)
                  \/ (now = MuteState.RaisedHand
                      /\ previous = MuteState.ForceMuted))
  then sendSelfUpdate SendUpdateType.RaiseHand c
  else c.

Definition FindLocalRaisedHandRating (l : list GroupCallParticipant) : Z :=
  match l with
  | [] => 1
  | p :: l' =>
      (foldl (fun m q => if m <? raisedHandRating q
                         then raisedHandRating q else m)
             (raisedHandRating p) l' + 1) mod 2 ^ 64
  end.

Definition applyMeInCallLocally (c : GroupCall) : GroupCall :=
  match lookupReal c with
  | None => c
  | Some call =>
      let i := List.find (fun p => bool_decide (peer p = _joinAs c))
                 (participants call) in
      let lastActive_ := from_option lastActive 0 i in
      let volume_ := from_option volume kDefaultVolume i in
      let canSelfUnmute :=
        bool_decide (_muted c <> MuteState.ForceMuted
                     /\ _muted c <> MuteState.RaisedHand) in
      let rating :=
        if decide (_muted c <> MuteState.RaisedHand) then 0
        else match i with
             | Some p => raisedHandRating p
             | None => FindLocalRaisedHandRating (participants call)
             end in
      emit (ApplyLocalUpdate
              {| f_can_self_unmute := canSelfUnmute;
                 f_active_date := bool_decide (lastActive_ <> 0);
                 f_left := bool_decide (_mySsrc c = 0);
                 f_muted_flag := bool_decide (_muted c <> MuteState.Active);
                 f_raise_hand_rating := bool_decide (0 < rating);
                 e_lastActive := lastActive_;
                 e_source := _mySsrc c;
                 e_volume := volume_;
                 e_raisedHandRating := rating |}) c
  end.

(** ** Join and rejoin *)

Definition ensureControllerCreated (c : GroupCall) : GroupCall :=
  if _instance c then c
  else
    let c := emit InstanceCreated (set_instance true c) in
    let c := updateInstanceMuteState c in
    updateInstanceVolumes c.

Definition setInstanceMode (mode : InstanceMode.t) (c : GroupCall)
  : GroupCall :=
  emit (InstanceSetConnectionMode mode) (set_instanceMode mode c).

Definition setJoinAs (as_ : Z) (c : GroupCall) : GroupCall :=
  emit (SetGroupCallDefaultJoinAs as_) (set_joinAs as_ c).

(** [_instance->emitJoinPayload(...)]: the engine owes one more payload. *)
Definition emitJoinPayload (c : GroupCall) : GroupCall :=
  emit InstanceEmitJoinPayload
    (set_pendingJoinPayloads (S (pendingJoinPayloads c)) c).

Definition isLive (s : State.t) : bool :=
  bool_decide (s = State.Joining \/ s = State.Joined
               \/ s = State.Connecting).

(** [rejoin(not_null<PeerData*> as)]. *)
Definition rejoin (as_ : Z) (c : GroupCall) : GroupCall :=
  if decide (_state c <> State.Joining
             /\ _state c <> State.Joined
             /\ _state c <> State.Connecting) then c
  else
    let c := set_mySsrc 0 c in
    let c := set_initialMuteStateSent false c in
    let c := setState State.Joining c in
    let c := ensureControllerCreated c in
    let c := setInstanceMode InstanceMode.None c in
    let c := applyMeInCallLocally c in
    let c := setJoinAs as_ c in
    emitJoinPayload c.

(** [rejoin()], the overload without an argument. *)
Definition rejoin0 (c : GroupCall) : GroupCall := rejoin (_joinAs c) c.

(** The continuation given to [emitJoinPayload], once it runs on the main
    thread with the payload's source id: the json is built and the join
    request is sent.  Nothing is checked and nothing is cancelled first. *)
Definition joinPayloadReceived (payload_ssrc : Z) (c : GroupCall)
  : GroupCall :=
  let wasMuteState := _muted c in
  (api_send (MTPphone_JoinGroupCall payload_ssrc wasMuteState
               (bool_decide (wasMuteState <> MuteState.Active))
               (_joinAs c) (_joinHash c)) c).2.

(** ** Leaving *)

(** The body of [finish] below its precondition. *)
Definition finish_body (type : FinishType.t) (c : GroupCall) : GroupCall :=
  let finalState :=
    if decide (type = FinishType.Ended) then State.Ended else State.Failed in
  let hangupState :=
    if decide (type = FinishType.Ended)
    then State.HangingUp else State.FailedHangingUp in
  let state := _state c in
  if decide (state = State.HangingUp \/ state = State.FailedHangingUp
             \/ state = State.Ended \/ state = State.Failed) then c
  else if decide (_mySsrc c = 0) then setState finalState c
  else
    let c := setState hangupState c in
    (api_send (MTPphone_LeaveGroupCall (_mySsrc c) finalState) c).2.

(** [finish]: [Expects(type != FinishType::None)] aborts the program. *)
Definition finish (type : FinishType.t) (c : GroupCall)
  : option GroupCall :=
  if decide (type = FinishType.None) then None
  else Some (finish_body type c).

Definition hangup (c : GroupCall) : GroupCall :=
  finish_body FinishType.Ended c.

(** [_muted = mute].  An [rpl::variable] notifies its subscribers only
    when the value changes; the subscriber is the one the constructor
    installs on [_muted.value() | rpl::combine_previous()]. *)
Definition assignMuted (mute : MuteState.t) (c : GroupCall) : GroupCall :=
  if decide (_muted c = mute) then c
  else
    let previous := _muted c in
    let c := set_muted mute c in
    let c := if _instance c then updateInstanceMuteState c else c in
    if bool_decide (_mySsrc c <> 0)
       && (negb (_initialMuteStateSent c)
           || bool_decide (mute = MuteState.Active))
    then maybeSendMutedUpdate previous (set_initialMuteStateSent true c)
    else c.

(** The [set] closure of [setMuted]. *)
Definition setMuted_set (mute : MuteState.t) (c : GroupCall) : GroupCall :=
  let isMuted (m : MuteState.t) :=
    bool_decide (m = MuteState.Muted \/ m = MuteState.PushToTalk) in
  let isRaiseHand (m : MuteState.t) :=
    bool_decide (m = MuteState.RaisedHand) in
  let wasMuted := isMuted (_muted c) in
  let wasRaiseHand := isRaiseHand (_muted c) in
  let c := assignMuted mute c in
  let nowMuted := isMuted (_muted c) in
  let nowRaiseHand := isRaiseHand (_muted c) in
  if negb (eqb wasMuted nowMuted) || negb (eqb wasRaiseHand nowRaiseHand)
  then applyMeInCallLocally c else c.

(** [setMuted]: for [Active] and [PushToTalk] the closure is handed to the
    delegate, which runs it if and when the permissions are granted. *)
Definition setMuted (mute : MuteState.t) (c : GroupCall) : GroupCall :=
  if decide (mute = MuteState.Active \/ mute = MuteState.PushToTalk)
  then emit (GroupCallRequestPermissionsOrFail mute) c
  else setMuted_set mute c.

Definition notifyAboutAllowedToSpeak (c : GroupCall) : GroupCall :=
  if negb (_hadJoinedState c) then c
  else emit AllowedToSpeakNotification
         (emit (PlaySound GroupCallSound.AllowedToSpeak) c).

Definition checkFirstTimeJoined (c : GroupCall) : GroupCall :=
  if _hadJoinedState c || bool_decide (_state c <> State.Joined) then c
  else
    let c := set_hadJoinedState true c in
    let c := emit ApplyGlobalShortcutChanges c in
    emit (PlaySound GroupCallSound.Started) c.

(** ** Roster updates *)

Definition applySelfUpdate (data : MTPDgroupCallParticipant)
  (c : GroupCall) : GroupCall :=
  if is_left data then
    if decide (uint32 (vsource data) = _mySsrc c) then
      let c := setState State.Joining c in
      rejoin0 c
    else c
  else if decide (uint32 (vsource data) <> _mySsrc c) then
    if decide (uint32 (vsource data) ∉ _mySsrcs c) then
      let c := set_mySsrc 0 c in
      hangup c
    else c
  else if is_muted data && negb (is_can_self_unmute data) then
    setMuted (if decide (default 0 (vraise_hand_rating data) <> 0)
              then MuteState.RaisedHand else MuteState.ForceMuted) c
  else if decide (_instanceMode c = InstanceMode.Stream) then
    let c := setState State.Joining c in
    rejoin0 c
  else if decide (_muted c = MuteState.ForceMuted
                  \/ _muted c = MuteState.RaisedHand) then
    let c := setMuted MuteState.Muted c in
    if negb (_instanceTransitioning c)
    then notifyAboutAllowedToSpeak c else c
  else if is_muted data && bool_decide (_muted c <> MuteState.Muted) then
    setMuted MuteState.Muted c
  else c.

(** [LookupParticipant(_peer, _id, participantPeer)]. *)
Definition LookupParticipant (c : GroupCall) (participantPeer : Z)
  : option GroupCallParticipant :=
  match peerGroupCall c with
  | Some call =>
      if decide (_id c = 0 \/ call_id call <> _id c) then None
      else List.find (fun p => bool_decide (peer p = participantPeer))
             (participants call)
  | None => None
  end.

Definition applyOtherParticipantUpdate (data : MTPDgroupCallParticipant)
  (c : GroupCall) : GroupCall :=
  if is_min data then c
  else match LookupParticipant c (vpeer data) with
       | None => c
       | Some _ =>
           emit (OtherParticipantState (vpeer data)
                   (default 0 (vvolume data)) (is_muted_by_you data)) c
       end.

Definition isJoined (s : State.t) : bool :=
  bool_decide (s = State.Joined \/ s = State.Connecting).

(** [handleUpdate(const MTPDupdateGroupCallParticipants &)]; [joined] is
    read once, before the loop. *)
Definition handleUpdateParticipants (data : MTPDupdateGroupCallParticipants)
  (c : GroupCall) : GroupCall :=
  if decide (_id c <> vcall_id data) then c
  else
    let joined := isJoined (_state c) in
    foldl (fun c participant =>
             let isSelf :=
               is_self participant
               || (is_min participant
                   && bool_decide (vpeer participant = _joinAs c)) in
             if negb isSelf then applyOtherParticipantUpdate participant c
             else if joined then applySelfUpdate participant c
             else set_queuedSelfUpdates
                    (_queuedSelfUpdates c ++ [participant]) c)
          c (vparticipants data).

Definition handlePossibleDiscarded (vid : Z) (c : GroupCall) : GroupCall :=
  if decide (vid = _id c) then hangup (set_mySsrc 0 c) else c.

(** [handleUpdate(const MTPUpdate &)]. *)
Definition handleUpdate (update : MTPUpdate) (c : GroupCall) : GroupCall :=
  match update with
  | MTPDupdateGroupCall (MTPDgroupCall _) => c
  | MTPDupdateGroupCall (MTPDgroupCallDiscarded vid) =>
      handlePossibleDiscarded vid c
  | MTPDupdateGroupCallParticipants_ data => handleUpdateParticipants data c
  end.

(** The loop of [applyQueuedSelfUpdates]; each turn removes the front of
    the queue, so the queue's length bounds the number of turns. *)
Fixpoint applyQueuedSelfUpdates_loop (turns : nat) (c : GroupCall)
  : GroupCall :=
  match turns with
  | O => c
  | S turns' =>
      match _queuedSelfUpdates c with
      | [] => c
      | update :: rest =>
          if isJoined (_state c) then
            applyQueuedSelfUpdates_loop turns'
              (applySelfUpdate update (set_queuedSelfUpdates rest c))
          else c
      end
  end.

Definition applyQueuedSelfUpdates (c : GroupCall) : GroupCall :=
  applyQueuedSelfUpdates_loop (length (_queuedSelfUpdates c)) c.

(** [_peer->session().api().applyUpdates(...)]: the session hands the
    group-call updates of the response that are about this peer back to
    [handleUpdate], in order. *)
Definition applyUpdates (routed : list MTPUpdate) (c : GroupCall)
  : GroupCall :=
  foldl (fun c u => handleUpdate u c) (emit ApplyUpdates c) routed.

(** ** The handlers of the join request *)

(** The first three statements of the [done] handler. *)
Definition joinDone_capture (ssrc : Z) (c : GroupCall) : GroupCall :=
  let c := set_mySsrc ssrc c in
  let c := set_mySsrcs ({[ssrc]} ∪ _mySsrcs c) c in
  setState (if decide (_instanceState c = InstanceState.Disconnected)
            then State.Connecting else State.Joined) c.

(** The [done] handler of [MTPphone_JoinGroupCall]. *)
Definition joinDone (ssrc : Z) (wasMuteState : MuteState.t)
  (updates : list MTPUpdate) (c : GroupCall) : GroupCall :=
  let c := joinDone_capture ssrc c in
  let c := applyMeInCallLocally c in
  let c := maybeSendMutedUpdate wasMuteState c in
  let c := applyUpdates updates c in
  let c := applyQueuedSelfUpdates c in
  let c := checkFirstTimeJoined c in
  sendSelfUpdate SendUpdateType.VideoMuted c.

Definition joinFailText (type : string) : ToastText :=
  if decide (type = GROUPCALL_ANONYMOUS_FORBIDDEN)
  then lng_group_call_no_anonymous
  else if decide (type = GROUPCALL_PARTICIPANTS_TOO_MUCH)
  then lng_group_call_too_many
  else if decide (type = GROUPCALL_FORBIDDEN)
  then lng_group_not_accessible
  else ServerError.

(** The [fail] handler of [MTPphone_JoinGroupCall]. *)
Definition joinFail (type : string) (c : GroupCall) : GroupCall :=
  if decide (type = GROUPCALL_SSRC_DUPLICATE_MUCH) then rejoin0 c
  else
    let c := hangup c in
    emit (ShowMultilineToast (joinFailText type)) c.

(** The handlers of [MTPphone_LeaveGroupCall]; the [done] handler defers
    [setState] to the main loop, after the updates are applied. *)
Definition leaveDone (finalState : State.t) (updates : list MTPUpdate)
  (c : GroupCall) : GroupCall :=
  setState finalState (applyUpdates updates c).

Definition leaveFail (finalState : State.t) (c : GroupCall) : GroupCall :=
  setState finalState c.

(** The handlers of the request [sendSelfUpdate] sends. *)
Definition editSelfDone (updates : list MTPUpdate) (c : GroupCall)
  : GroupCall :=
  applyUpdates updates (set_updateMuteRequestId 0 c).

Definition editSelfFail (type : string) (c : GroupCall) : GroupCall :=
  let c := set_updateMuteRequestId 0 c in
  if decide (type = GROUPCALL_FORBIDDEN) then rejoin0 c else c.

(** ** Connectivity reported by the engine *)

Definition playConnectingSound (c : GroupCall) : GroupCall :=
  if _connectingSoundTimer c then c
  else set_connectingSoundTimer true
         (emit (PlaySound GroupCallSound.Connecting) c).

(** [_instanceState = instanceState], with the constructor's subscriber. *)
Definition assignInstanceState (instanceState : InstanceState.t)
  (c : GroupCall) : GroupCall :=
  if decide (_instanceState c = instanceState) then c
  else
    let c := set_instanceState instanceState c in
    if negb (_hadJoinedState c) then c
    else if decide (instanceState = InstanceState.Disconnected)
    then playConnectingSound c
    else stopConnectingSound c.

Definition setInstanceConnected (isConnected inTransit : bool)
  (c : GroupCall) : GroupCall :=
  let instanceState :=
    if negb isConnected then InstanceState.Disconnected
    else if inTransit then InstanceState.TransitionToRtc
    else InstanceState.Connected in
  let connected := isConnected in
  if bool_decide (_instanceState c = instanceState)
     && eqb (_instanceTransitioning c) inTransit then c
  else
    let nowCanSpeak :=
      connected && _instanceTransitioning c && negb inTransit
      && bool_decide (_muted c = MuteState.Muted) in
    let c := set_instanceTransitioning inTransit c in
    let c := assignInstanceState instanceState c in
    let c :=
      if bool_decide (_state c = State.Connecting) && connected
      then setState State.Joined c
      else if bool_decide (_state c = State.Joined) && negb connected
      then setState State.Connecting c
      else c in
    let c := if nowCanSpeak then notifyAboutAllowedToSpeak c else c in
    if negb (_hadJoinedState c) && bool_decide (_state c = State.Joined)
    then checkFirstTimeJoined c else c.

(** ** Broadcast parts *)

(** [MTPupload_File], by constructor. *)
Inductive MTPupload_File :=
| MTPDupload_file (vbytes : list Z)
| MTPDupload_fileCdnRedirect.

(** The conversion of a [uint64] to [double]: the nearest value with 53
    significant bits, the even one of two that are equally near. *)
Definition double_of_uint64 (n : Z) : Z :=
  if n <? 2 ^ 53 then n
  else
    let ulp := 2 ^ (Z.log2 n - 52) in
    let q := n / ulp in
    let r := n mod ulp in
    if (ulp <? 2 * r) || ((2 * r =? ulp) && Z.odd q)
    then (q + 1) * ulp else q * ulp.

(** [TimestampFromMsgId]: [msgId] becomes a [double] and is divided by
    [double(1ULL << 32)]; the division by a power of two is exact. *)
Definition TimestampFromMsgId (msgId : Z) : Q :=
  double_of_uint64 msgId # (2 ^ 32).

(** [LoadPartTask::done] as the main thread runs it: the callback is
    taken out of the task and called. *)
Definition LoadPartTask_done (raw : positive) (part : BroadcastPart)
  (c : GroupCall) : GroupCall :=
  match tasks c !! raw with
  | Some t =>
      if _done t then
        emit (PartDelivered raw part)
          (set_tasks
             (<[raw := {| _time := _time t; _scale := _scale t;
                          _done := false |}]> (tasks c)) c)
      else c
  | None => c
  end.

(** The [finish] closure of [broadcastPartStart]. *)
Definition broadcastPartFinish (raw : positive) (part : BroadcastPart)
  (c : GroupCall) : GroupCall :=
  let c := LoadPartTask_done raw part c in
  set_broadcastParts (delete raw (_broadcastParts c)) c.

(** [broadcastPartStart]; [raw] is the address of the task, which the
    shared pointer keeps alive. *)
Definition broadcastPartStart (raw : positive) (c : GroupCall)
  : GroupCall :=
  match tasks c !! raw with
  | None => c
  | Some t =>
      let '(requestId, c) :=
        api_send (MTPupload_GetFile raw (_time t) (_scale t)) c in
      match _broadcastParts c !! raw with
      | Some _ => c
      | None =>
          set_broadcastParts (<[raw := requestId]> (_broadcastParts c)) c
      end
  end.

Definition broadcastPartCancel (task : positive) (c : GroupCall)
  : GroupCall :=
  match _broadcastParts c !! task with
  | Some requestId =>
      let c := api_cancel requestId c in
      set_broadcastParts (delete task (_broadcastParts c)) c
  | None => c
  end.

(** The [done] handler of [MTPupload_GetFile]. *)
Definition getFileDone (raw : positive) (time : Z)
  (result : MTPupload_File) (outerMsgId : Z) (c : GroupCall) : GroupCall :=
  match result with
  | MTPDupload_file vbytes =>
      broadcastPartFinish raw
        {| timestampMilliseconds := time;
           responseTimestamp := TimestampFromMsgId outerMsgId;
           status := Status.Success;
           oggData := vbytes |} c
  | MTPDupload_fileCdnRedirect =>
      broadcastPartFinish raw
        {| timestampMilliseconds := time;
           responseTimestamp := TimestampFromMsgId outerMsgId;
           status := Status.ResyncNeeded;
           oggData := [] |} c
  end.

(** Cancelling the request of every entry of [_broadcastParts]. *)
Definition cancelBroadcastParts (c : GroupCall) : GroupCall :=
  foldl (fun c entry => api_cancel entry.2 c) c
    (map_to_list (_broadcastParts c)).

Section GetFileFail.

(** [MTP::IsFloodError] is declared outside the sources. *)
Variable IsFloodError : string -> bool.

Definition getFileFailStatus (type : string) : Status.t :=
  if IsFloodError type || bool_decide (type = TIME_TOO_BIG)
  then Status.NotReady else Status.ResyncNeeded.

(** The [fail] handler of [MTPupload_GetFile]. *)
Definition getFileFail (raw : positive) (time : Z) (type : string)
  (outerMsgId : Z) (c : GroupCall) : GroupCall :=
  if decide (type = GROUPCALL_JOIN_MISSING
             \/ type = GROUPCALL_FORBIDDEN) then
    let c := cancelBroadcastParts c in
    let c := setState State.Joining c in
    rejoin0 c
  else
    broadcastPartFinish raw
      {| timestampMilliseconds := time;
         responseTimestamp := TimestampFromMsgId outerMsgId;
         status := getFileFailStatus type;
         oggData := [] |} c.

End GetFileFail.

(** ** Stream selection *)

(** [ranges::find(participants, ssrc, &GroupCallParticipant::ssrc)]. *)
Definition participantBySsrc (real : DataGroupCall) (ssrc_ : Z)
  : option GroupCallParticipant :=
  List.find (fun p => bool_decide (ssrc p = ssrc_)) (participants real).

(** One turn of the loop of [chooseLargeVideoSsrc], on the three
    variables [anySsrc], [lastSpokeVoiceSsrc], [lastSpokeAnythingSsrc]. *)
Definition chooseLargeVideoSsrc_turn (c : GroupCall) (real : DataGroupCall)
  (vars : Z * Z * Z) (ssrc_ : Z) : Z * Z * Z :=
  let '(anySsrc, lastSpokeVoiceSsrc, lastSpokeAnythingSsrc) := vars in
  if decide (ssrc_ ∈ _videoMuted c) then vars
  else
    match participantBySsrc real ssrc_ with
    | Some i =>
        (if bool_decide (anySsrc = 0) then ssrc_ else anySsrc,
         if bool_decide (lastSpokeVoiceSsrc = 0) && speaking i
         then ssrc_ else lastSpokeVoiceSsrc,
         if bool_decide (lastSpokeAnythingSsrc = 0) && sounding i
         then ssrc_ else lastSpokeAnythingSsrc)
    | None => vars
    end.

Definition chooseLargeVideoSsrc (c : GroupCall) : Z :=
  match lookupReal c with
  | None => 0
  | Some real =>
      let '(anySsrc, lastSpokeVoiceSsrc, lastSpokeAnythingSsrc) :=
        foldl (chooseLargeVideoSsrc_turn c real) (0, 0, 0)
          (_videoStreamSsrcs c) in
      if bool_decide (lastSpokeVoiceSsrc <> 0) then lastSpokeVoiceSsrc
      else if bool_decide (lastSpokeAnythingSsrc <> 0)
      then lastSpokeAnythingSsrc
      else anySsrc
  end.

(** [setMutedAndUpdate]. *)
Definition setMutedAndUpdate (mute : MuteState.t) (c : GroupCall)
  : GroupCall :=
  let was := _muted c in
  let send :=
    _initialMuteStateSent c && bool_decide (mute <> MuteState.Active) in
  let c := setMuted mute c in
  if send then maybeSendMutedUpdate was c else c.

(** ** Events

    What reaches the session from outside, one event at a time on the
    main thread: calls from the interface, payloads from the engine,
    answers to outstanding requests, and updates from the server. *)

Definition take_request (id : Z) (c : GroupCall)
  : option (Request * GroupCall) :=
  match List.find (fun p => bool_decide (p.1 = id)) (apiPending c) with
  | Some p =>
      Some (p.2,
            set_apiPending
              (filter (fun p => negb (bool_decide (p.1 = id)))
                 (apiPending c)) c)
  | None => None
  end.

Inductive Event :=
| EvRejoin
| EvJoinPayload (payload_ssrc : Z)
| EvHangup
| EvUpdate (update : MTPUpdate)
| EvInstanceConnected (isConnected inTransit : bool)
| EvBroadcastPartStart (raw : positive)
| EvBroadcastPartCancel (raw : positive)
| EvDone (id : Z) (updates : list MTPUpdate) (file : MTPupload_File)
    (outerMsgId : Z)
| EvFail (id : Z) (type : string) (outerMsgId : Z).

Section Events.

Variable IsFloodError : string -> bool.

Definition step (e : Event) (c : GroupCall) : GroupCall :=
  match e with
  | EvRejoin => rejoin0 c
  | EvJoinPayload payload_ssrc =>
      match pendingJoinPayloads c with
      | S n => joinPayloadReceived payload_ssrc (set_pendingJoinPayloads n c)
      | O => c
      end
  | EvHangup => hangup c
  | EvUpdate update => handleUpdate update c
  | EvInstanceConnected isConnected inTransit =>
      setInstanceConnected isConnected inTransit c
  | EvBroadcastPartStart raw => broadcastPartStart raw c
  | EvBroadcastPartCancel raw => broadcastPartCancel raw c
  | EvDone id updates file outerMsgId =>
      match take_request id c with
      | Some (MTPphone_JoinGroupCall ssrc_ wasMuteState _ _ _, c) =>
          joinDone ssrc_ wasMuteState updates c
      | Some (MTPphone_LeaveGroupCall _ finalState, c) =>
          leaveDone finalState updates c
      | Some (MTPphone_EditGroupCallParticipant _ _ _ _, c) =>
          editSelfDone updates c
      | Some (MTPupload_GetFile raw time _, c) =>
          getFileDone raw time file outerMsgId c
      | None => c
      end
  | EvFail id type outerMsgId =>
      match take_request id c with
      | Some (MTPphone_JoinGroupCall _ _ _ _ _, c) => joinFail type c
      | Some (MTPphone_LeaveGroupCall _ finalState, c) =>
          leaveFail finalState c
      | Some (MTPphone_EditGroupCallParticipant _ _ _ _, c) =>
          editSelfFail type c
      | Some (MTPupload_GetFile raw time _, c) =>
          getFileFail IsFloodError raw time type outerMsgId c
      | None => c
      end
  end.

Definition run (events : list Event) (c : GroupCall) : GroupCall :=
  foldl (fun c e => step e c) c events.

End Events.

(** ** Observations on a session *)

Definition isJoinRequest (p : Z * Request) : bool :=
  match p.2 with
  | MTPphone_JoinGroupCall _ _ _ _ _ => true
  | _ => false
  end.

(** The join requests that are outstanding. *)
Definition outstandingJoins (c : GroupCall) : list (Z * Request) :=
  filter isJoinRequest (apiPending c).

(** The texts of the toasts in a trace. *)
Definition toastsOf (t : list Effect) : list ToastText :=
  omap (fun e => match e with
                 | ShowMultilineToast text => Some text
                 | _ => None
                 end) t.

(** The parts handed to completion callbacks in a trace. *)
Definition deliveredOf (t : list Effect)
  : list (positive * BroadcastPart) :=
  omap (fun e => match e with
                 | PartDelivered task part => Some (task, part)
                 | _ => None
                 end) t.

(** The requests sent in a trace. *)
Definition sentOf (t : list Effect) : list Request :=
  omap (fun e => match e with
                 | ApiSend _ r => Some r
                 | _ => None
                 end) t.

Definition toasts (c : GroupCall) : list ToastText := toastsOf (trace c).

Definition delivered (c : GroupCall) : list (positive * BroadcastPart) :=
  deliveredOf (trace c).

Definition sent (c : GroupCall) : list Request := sentOf (trace c).

(** ** Sample sessions *)

(** A session in the middle of its first join: call 77, joining as peer
    5, nothing sent yet. *)
Definition call_joining : GroupCall :=
  {| _id := 77; _joinAs := 5; _joinHash := EmptyString;
     _state := State.Joining; _mySsrc := 0; _mySsrcs := ∅;
     _muted := MuteState.Muted; _initialMuteStateSent := false;
     _instance := false; _instanceMode := InstanceMode.None;
     _instanceState := InstanceState.Disconnected;
     _instanceTransitioning := false; _hadJoinedState := false;
     _queuedSelfUpdates := []; _broadcastParts := ∅;
     _updateMuteRequestId := 0; _checkJoinedTimer := false;
     _connectingSoundTimer := false; _videoStreamSsrcs := [];
     _videoMuted := ∅; _videoOutgoingActive := false;
     peerGroupCall := Some {| call_id := 77; participants := [] |};
     apiNextRequestId := 1; apiPending := []; tasks := ∅;
     pendingJoinPayloads := 0; trace := [] |}.

(** The same session joined with source 555. *)
Definition call_joined : GroupCall :=
  set_mySsrcs {[555]} (set_mySsrc 555 (set_state State.Joined
    (set_instance true call_joining))).

(** ** [LoadPartTask::done] against [LoadPartTask::cancel]

    The main thread runs [done], a thread of the engine runs [cancel], on
    the same task.  Each method is cut into its statements; a schedule
    says which thread runs its next statement.  The mutex is held by at
    most one thread: a thread at its [QMutexLocker] cannot move while the
    other one holds it. *)
Module Race.

Inductive Thread := InDone | InCancel.

#[global] Instance Thread_eq_dec : EqDecision Thread.
Proof. solve_decision. Defined.

(** Where a thread is in its method. *)
Inductive Pc :=
| Entry     (* at [QMutexLocker lock(&_mutex)] *)
| Test      (* at the test of [_done] *)
| Take      (* [done]: at [base::take(_done)] *)
| Call      (* [done]: at the call of the callback taken *)
| Clear     (* [cancel]: at [_done = nullptr] *)
| Unlock    (* [cancel]: at [lock.unlock()] *)
| Post      (* [cancel]: at [if (_call) crl::on_main(...)] *)
| Leave     (* at the end of the locker's scope *)
| Returned.

#[global] Instance Pc_eq_dec : EqDecision Pc.
Proof. solve_decision. Defined.

Record Task := mkTask {
  stored : bool;            (* [_done] holds the callback *)
  holder : option Thread;   (* who holds [_mutex] *)
  call_alive : bool;        (* [_call] is not null *)
  pcDone : Pc;
  pcCancel : Pc;
  called : nat;             (* calls of the callback *)
  posted : nat;             (* [broadcastPartCancel] posted to the call *)
  dropped : nat             (* cancellations with no call to tell *)
}.

Definition initial (alive : bool) : Task :=
  mkTask true None alive Entry Entry 0 0 0.

(** The next statement of [done]; [None] when the thread cannot move. *)
Definition step_done (s : Task) : option Task :=
  match pcDone s with
  | Entry =>
      match holder s with
      | None =>
          Some (mkTask (stored s) (Some InDone) (call_alive s) Test
                  (pcCancel s) (called s) (posted s) (dropped s))
      | Some _ => None
      end
  | Test =>
      Some (mkTask (stored s) (holder s) (call_alive s)
              (if stored s then Take else Leave)
              (pcCancel s) (called s) (posted s) (dropped s))
  | Take =>
      Some (mkTask false (holder s) (call_alive s) Call
              (pcCancel s) (called s) (posted s) (dropped s))
  | Call =>
      Some (mkTask (stored s) (holder s) (call_alive s) Leave
              (pcCancel s) (S (called s)) (posted s) (dropped s))
  | Leave =>
      Some (mkTask (stored s) None (call_alive s) Returned
              (pcCancel s) (called s) (posted s) (dropped s))
  | _ => None
  end.

(** The next statement of [cancel]. *)
Definition step_cancel (s : Task) : option Task :=
  match pcCancel s with
  | Entry =>
      match holder s with
      | None =>
          Some (mkTask (stored s) (Some InCancel) (call_alive s) (pcDone s)
                  Test (called s) (posted s) (dropped s))
      | Some _ => None
      end
  | Test =>
      Some (mkTask (stored s) (holder s) (call_alive s) (pcDone s)
              (if stored s then Clear else Leave)
              (called s) (posted s) (dropped s))
  | Clear =>
      Some (mkTask false (holder s) (call_alive s) (pcDone s) Unlock
              (called s) (posted s) (dropped s))
  | Unlock =>
      Some (mkTask (stored s) None (call_alive s) (pcDone s) Post
              (called s) (posted s) (dropped s))
  | Post =>
      Some (if call_alive s
            then mkTask (stored s) (holder s) (call_alive s) (pcDone s)
                   Returned (called s) (S (posted s)) (dropped s)
            else mkTask (stored s) (holder s) (call_alive s) (pcDone s)
                   Returned (called s) (posted s) (S (dropped s)))
  | Leave =>
      Some (mkTask (stored s) None (call_alive s) (pcDone s) Returned
              (called s) (posted s) (dropped s))
  | _ => None
  end.

Definition step (who : Thread) (s : Task) : option Task :=
  match who with
  | InDone => step_done s
  | InCancel => step_cancel s
  end.

(** A schedule, run from a task; a thread that cannot move when it is
    its turn leaves the task as it is. *)
Definition run (schedule : list Thread) (s : Task) : Task :=
  foldl (fun s who => default s (step who s)) s schedule.

Definition finished (s : Task) : Prop :=
  pcDone s = Returned /\ pcCancel s = Returned.

(** A thread is inside the locker's scope. *)
Definition locked (pc : Pc) : bool :=
  match pc with
  | Test | Take | Call | Clear | Unlock | Leave => true
  | _ => false
  end.

(** The places of a thread's own method. *)
Definition place_of (who : Thread) (pc : Pc) : bool :=
  match who, pc with
  | InDone, (Clear | Unlock | Post) => false
  | InCancel, (Take | Call) => false
  | _, _ => true
  end.

(** What every schedule keeps: the mutex is held by the thread inside the
    locker's scope, and by one only; a thread that saw the callback finds
    it still there, and a thread past its test left none behind; and the
    callback is in exactly one place: stored, taken and about to be
    called, called, cleared and about to be reported, or reported. *)
Definition invariant (s : Task) : Prop :=
  place_of InDone (pcDone s) = true
  /\ place_of InCancel (pcCancel s) = true
  /\ holder s
  = (if locked (pcDone s) then Some InDone
     else if locked (pcCancel s) then Some InCancel else None)
  /\ (locked (pcDone s) && locked (pcCancel s) = false)
  /\ (pcDone s = Take -> stored s = true)
  /\ (pcCancel s = Clear -> stored s = true)
  /\ (pcDone s = Call \/ pcDone s = Leave \/ pcDone s = Returned ->
      stored s = false)
  /\ (pcCancel s = Unlock \/ pcCancel s = Post \/ pcCancel s = Leave
      \/ pcCancel s = Returned -> stored s = false)
  /\ (called s + posted s + dropped s
      + (if stored s then 1 else 0)
      + (if decide (pcDone s = Call) then 1 else 0)
      + (if decide (pcCancel s = Unlock \/ pcCancel s = Post)
         then 1 else 0) = 1)%nat
  /\ (call_alive s = true -> dropped s = 0%nat)
  /\ (call_alive s = false -> posted s = 0%nat).

End Race.

(** ** Vocabulary of the properties *)

(** Effects that are neither a request, nor a toast, nor a delivery. *)
Definition silent (e : Effect) : bool :=
  match e with
  | ShowMultilineToast _ | PartDelivered _ _ | ApiSend _ _ => false
  | _ => true
  end.

(** [adds c' c]: [c'] is [c] with silent effects put before its trace. *)
Definition adds (c' c : GroupCall) : Prop :=
  exists es, forallb silent es = true /\ c' = set_trace (es ++ trace c) c.

(** What the mute and roster helpers keep. *)
Definition keeps (c' c : GroupCall) : Prop :=
  _state c' = _state c /\ _mySsrc c' = _mySsrc c
  /\ _mySsrcs c' = _mySsrcs c
  /\ _queuedSelfUpdates c' = _queuedSelfUpdates c
  /\ pendingJoinPayloads c' = pendingJoinPayloads c
  /\ tasks c' = tasks c /\ _broadcastParts c' = _broadcastParts c
  /\ toasts c' = toasts c /\ delivered c' = delivered c.

Definition isHungUp (s : State.t) : bool :=
  bool_decide (s = State.HangingUp \/ s = State.FailedHangingUp
               \/ s = State.Ended \/ s = State.Failed).

(** The pairs (previous, new) of mute states that the spec lets reach the
    server. *)
Definition mayReachServer (previous now : MuteState.t) : bool :=
  match previous, now with
  | MuteState.Active, MuteState.Muted
  | MuteState.Muted, MuteState.Active
  | MuteState.Active, MuteState.PushToTalk
  | MuteState.PushToTalk, MuteState.Active
  | MuteState.ForceMuted, MuteState.RaisedHand
  | MuteState.RaisedHand, MuteState.ForceMuted => true
  | _, _ => false
  end.

(** The pairs for which a request is sent, with its kind. *)
Definition reachesServer (previous now : MuteState.t)
  : option SendUpdateType.t :=
  match previous, now with
  | MuteState.Active, MuteState.Muted
  | MuteState.Muted, MuteState.Active
  | MuteState.PushToTalk, MuteState.Active => Some SendUpdateType.Mute
  | MuteState.ForceMuted, MuteState.RaisedHand
  | MuteState.RaisedHand, MuteState.ForceMuted =>
      Some SendUpdateType.RaiseHand
  | _, _ => None
  end.






(** ** More sample sessions *)

Definition call_ended : GroupCall := set_state State.Ended call_joining.

Definition call_failed : GroupCall := set_state State.Failed call_joining.

(** The joining session after [rejoin()] and the engine's payload with
    source 555: the join request is outstanding. *)
Definition call_joining_555 : GroupCall :=
  step (fun _ => false) (EvJoinPayload 555)
    (step (fun _ => false) EvRejoin call_joining).

Definition self_left_555 : MTPDgroupCallParticipant :=
  {| is_left := true; is_self := true; is_min := false; is_muted := false;
     is_can_self_unmute := true; is_muted_by_you := false; vpeer := 5;
     vsource := 555; vvolume := None; vraise_hand_rating := None |}.

Definition update_other_call : MTPDupdateGroupCallParticipants :=
  {| vcall_id := 78; vparticipants := [self_left_555] |}.

Definition real_with_video : DataGroupCall :=
  {| call_id := 77;
     participants :=
       [ {| peer := 1; ssrc := 10; speaking := true; sounding := true;
            mutedByMe := false; lastActive := 0; volume := 10000;
            raisedHandRating := 0 |};
         {| peer := 2; ssrc := 20; speaking := false; sounding := false;
            mutedByMe := false; lastActive := 0; volume := 10000;
            raisedHandRating := 0 |};
         {| peer := 3; ssrc := 30; speaking := false; sounding := true;
            mutedByMe := false; lastActive := 0; volume := 10000;
            raisedHandRating := 0 |} ] |}.

(** Three sources stream video; source 10 is video-muted. *)
Definition call_with_video : GroupCall :=
  mkGroupCall 77 5 EmptyString State.Joined 555 {[555]} MuteState.Muted
    true true InstanceMode.Rtc InstanceState.Connected false true [] ∅ 0
    false false [10; 20; 30] {[10]} false (Some real_with_video)
    1 [] ∅ 0%nat [].

(** The joined session streaming, with one part request outstanding. *)
Definition call_streaming : GroupCall :=
  broadcastPartStart 1
    (set_tasks {[ 1%positive := {| _time := 1000; _scale := 0;
                                   _done := true |} ]}
       (set_instanceMode InstanceMode.Stream call_joined)).

(** ** States the file never asks for

    [finish] is only ever called with [FinishType::Ended] (by [hangup]),
    so no function requests [Failed] or [FailedHangingUp], and every
    leave request that is outstanding ends in [Ended]. *)

Definition notFailed (s : State.t) : Prop :=
  s <> State.Failed /\ s <> State.FailedHangingUp.

Definition leaveEnds (p : Z * Request) : Prop :=
  match p.2 with
  | MTPphone_LeaveGroupCall _ finalState => finalState = State.Ended
  | _ => True
  end.

Definition sound (c : GroupCall) : Prop :=
  notFailed (_state c) /\ forall p, p ∈ apiPending c -> leaveEnds p.

(** [evolves c' c]: from [c] to [c'] the state stayed or became one that
    is not a failed one, and every request that is new is not a leave
    request ending in [Failed]. *)
Definition evolves (c' c : GroupCall) : Prop :=
  (_state c' = _state c \/ notFailed (_state c'))
  /\ forall p, p ∈ apiPending c' -> p ∈ apiPending c \/ leaveEnds p.

(** The joined session with a self edit outstanding and the one source
    id of the roster streaming as source 0. *)
Definition call_editing : GroupCall :=
  sendSelfUpdate SendUpdateType.VideoMuted call_joined.

Definition real_with_source_0 : DataGroupCall :=
  {| call_id := 77;
     participants :=
       [ {| peer := 1; ssrc := 0; speaking := true; sounding := true;
            mutedByMe := false; lastActive := 0; volume := 10000;
            raisedHandRating := 0 |};
         {| peer := 2; ssrc := 20; speaking := false; sounding := false;
            mutedByMe := false; lastActive := 0; volume := 10000;
            raisedHandRating := 0 |} ] |}.

(** * Further members of [GroupCall] *)

(** [rejoinWithHash]. *)
Definition rejoinWithHash (hash : string) (c : GroupCall) : GroupCall :=
  if bool_decide (hash <> EmptyString)
     && bool_decide (_muted c = MuteState.ForceMuted
                     \/ _muted c = MuteState.RaisedHand)
  then rejoin0 (set_joinHash hash c)
  else c.

(** ** Vocabulary of the further properties *)

(** The test [handleUpdate] makes on an entry of a participants update:
    it is about the local identity. *)
Definition isSelfEntry (joinAs : Z) (participant : MTPDgroupCallParticipant)
  : bool :=
  is_self participant
  || (is_min participant && bool_decide (vpeer participant = joinAs)).

(** The engine state [setInstanceConnected] derives from a report. *)
Definition instanceStateOf (isConnected inTransit : bool)
  : InstanceState.t :=
  if negb isConnected then InstanceState.Disconnected
  else if inTransit then InstanceState.TransitionToRtc
  else InstanceState.Connected.

(** What the steps of [setInstanceConnected] after the assignment keep. *)
Definition keeps_engine (c' c : GroupCall) : Prop :=
  _state c' = _state c /\ _instanceState c' = _instanceState c
  /\ _instanceTransitioning c' = _instanceTransitioning c
  /\ apiPending c' = apiPending c
  /\ pendingJoinPayloads c' = pendingJoinPayloads c
  /\ _mySsrc c' = _mySsrc c.

Definition isEditRequest (p : Z * Request) : bool :=
  match p.2 with
  | MTPphone_EditGroupCallParticipant _ _ _ _ => true
  | _ => false
  end.

(** The self edits that are outstanding. *)
Definition outstandingEdits (c : GroupCall) : list (Z * Request) :=
  filter isEditRequest (apiPending c).

(** A session whose leave request is outstanding. *)
Definition call_hanging_up : GroupCall := hangup call_joined.

(** A joining session with one self entry waiting in the queue. *)
Definition call_joining_queued : GroupCall :=
  set_queuedSelfUpdates [self_left_555] call_joining_555.

Definition update_self_and_other : MTPDupdateGroupCallParticipants :=
  {| vcall_id := 77;
     vparticipants :=
       [ self_left_555;
         {| is_left := false; is_self := false; is_min := false;
            is_muted := true; is_can_self_unmute := true;
            is_muted_by_you := false; vpeer := 9; vsource := 900;
            vvolume := None; vraise_hand_rating := None |} ] |}.


(** The book-keeping of [_updateMuteRequestId]: request ids handed out
    are below the next one and distinct, and every self edit that is
    outstanding is the one [_updateMuteRequestId] names. *)
Definition editsTracked (c : GroupCall) : Prop :=
  (forall p, p ∈ apiPending c -> p.1 < apiNextRequestId c)
  /\ NoDup (apiPending c).*1
  /\ (forall p, p ∈ apiPending c -> isEditRequest p = true ->
      p.1 = _updateMuteRequestId c).

(** [tracks c' c]: the step from [c] to [c'] keeps that book-keeping. *)
Definition tracks (c' c : GroupCall) : Prop :=
  editsTracked c -> editsTracked c'.

(** [idle c' c]: the step from [c] to [c'] did not change the state,
    added no outstanding request, left the payloads owed as they were
    and sent nothing. *)
Definition idle (c' c : GroupCall) : Prop :=
  _state c' = _state c
  /\ (forall p, p ∈ apiPending c' -> p ∈ apiPending c)
  /\ pendingJoinPayloads c' = pendingJoinPayloads c /\ sent c' = sent c.

(** A request whose answer does not bring an ended session back: a leave
    request that ends in [Ended], or a self edit. *)
Definition settles (p : Z * Request) : Prop :=
  match p.2 with
  | MTPphone_LeaveGroupCall _ finalState => finalState = State.Ended
  | MTPphone_EditGroupCallParticipant _ _ _ _ => True
  | _ => False
  end.

(** An ended session that is owed no join payload and has no join request
    and no part request outstanding. *)
Definition atRest (c : GroupCall) : Prop :=
  _state c = State.Ended /\ pendingJoinPayloads c = 0%nat
  /\ forall p, p ∈ apiPending c -> settles p.

(** The session with a self edit outstanding whose call was discarded:
    it is ended and the edit is still outstanding. *)
Definition call_ended_editing : GroupCall :=
  handleUpdate (MTPDupdateGroupCall (MTPDgroupCallDiscarded 77))
    call_editing.

Definition isPartStart (e : Event) : bool :=
  match e with
  | EvBroadcastPartStart _ => true
  | _ => false
  end.

(** ** Push to talk *)

(** [pushToTalkCancel], on [_pushToTalkCancelTimer] (the delay it is armed
    with, when it is armed) and the session. *)
Definition pushToTalkCancel (s : option Z * GroupCall)
  : option Z * GroupCall :=
  let c := s.2 in
  (None,
   if decide (_muted c = MuteState.PushToTalk)
   then setMuted MuteState.Muted c else c).

(** [pushToTalk]. *)
Definition pushToTalk (pressed : bool) (delay : Z)
  (s : option Z * GroupCall) : option Z * GroupCall :=
  let c := s.2 in
  if decide (_muted c = MuteState.ForceMuted
             \/ _muted c = MuteState.RaisedHand
             \/ _muted c = MuteState.Active) then s
  else if pressed then (None, setMuted MuteState.PushToTalk c)
  else if decide (delay <> 0) then (Some delay, c)
  else pushToTalkCancel s.

(** ** Invitations *)

Definition kMaxInvitePerSlice : nat := 10.

(** [std::variant<int, not_null<UserData*>>]. *)
Inductive InviteResult :=
| InvitedCount (count : Z)
| InvitedUser (user : Z).

(** The variables of [inviteUsers]: [count], [slice], [result], with the
    requests sent and the users registered as invited, newest first.
    [count] is an [int]; it never exceeds the number of users. *)
Record InviteLoop := mkInviteLoop {
  inv_count : Z;
  inv_slice : list Z;
  inv_result : InviteResult;
  inv_requests : list (list Z);
  inv_registered : list Z
}.

(** The closure [sendSlice]. *)
Definition sendSlice (s : InviteLoop) : InviteLoop :=
  mkInviteLoop (inv_count s + Z.of_nat (length (inv_slice s))) []
    (inv_result s) (inv_slice s :: inv_requests s) (inv_registered s).

(** One turn of the loop over [users]. *)
Definition inviteUsers_turn (s : InviteLoop) (user : Z) : InviteLoop :=
  let result :=
    if bool_decide (inv_count s = 0) && bool_decide (inv_slice s = [])
    then InvitedUser user else inv_result s in
  let s := mkInviteLoop (inv_count s) (inv_slice s ++ [user]) result
             (inv_requests s) (user :: inv_registered s) in
  if bool_decide (length (inv_slice s) = kMaxInvitePerSlice)
  then sendSlice s else s.

(** [inviteUsers]: the result, the slices of the requests sent, oldest
    first, and the users registered as invited, oldest first.  The range
    [toInvite] the function builds first is not used by it. *)
Definition inviteUsers (users : list Z) (c : GroupCall)
  : InviteResult * list (list Z) * list Z :=
  match lookupReal c with
  | None => (InvitedCount 0, [], [])
  | Some _ =>
      let s := foldl inviteUsers_turn
                 (mkInviteLoop 0 [] (InvitedCount 0) [] []) users in
      let result :=
        if bool_decide (inv_count s <> 0)
           || bool_decide (length (inv_slice s) <> 1%nat)
        then InvitedCount (inv_count s + Z.of_nat (length (inv_slice s)))
        else inv_result s in
      let s := if bool_decide (inv_slice s <> []) then sendSlice s else s in
      (result, rev (inv_requests s), rev (inv_registered s))
  end.

(** What the loop of [inviteUsers] keeps, after the users [us]. *)
Definition inviteUsers_invariant (us : list Z) (s : InviteLoop) : Prop :=
  concat (rev (inv_requests s)) ++ inv_slice s = us
  /\ rev (inv_registered s) = us
  /\ Forall (fun slice => length slice = kMaxInvitePerSlice)
       (inv_requests s)
  /\ (length (inv_slice s) < kMaxInvitePerSlice)%nat
  /\ inv_count s
     = Z.of_nat (kMaxInvitePerSlice * length (inv_requests s))
  /\ inv_result s = match us with
                    | [] => InvitedCount 0
                    | u :: _ => InvitedUser u
                    end.

(** ** The constructor of a part task *)

(** The scale of a period; [Unexpected] aborts on any other period. *)
Definition LoadPartTask_scale (period : Z) : option Z :=
  if decide (period = 1000) then Some 0
  else if decide (period = 500) then Some 1
  else if decide (period = 250) then Some 2
  else if decide (period = 125) then Some 3
  else None.

(** [LoadPartTask::LoadPartTask]; [now] is [base::unixtime::now()]. *)
Definition LoadPartTask_new (now time period : Z) : option LoadPartTask :=
  match LoadPartTask_scale period with
  | Some scale =>
      Some {| _time := if decide (time <> 0) then time else now * 1000;
              _scale := scale; _done := true |}
  | None => None
  end.

(** The joined session with a roster, its hand raised. *)
Definition call_hand_raised : GroupCall :=
  set_muted MuteState.RaisedHand call_with_video.

(** ** Audio levels and the last-spoke times *)

Definition kCheckLastSpokeInterval : Z := 1000.

Definition kUpdateSendActionEach : Z := 500.

(** [Data::LastSpokeTimes]. *)
Record LastSpokeTimes := mkLastSpokeTimes {
  anything : Z;
  voice : Z
}.

(** An entry of [tgcalls::GroupLevelsUpdate::updates]; the level is a
    finite number. *)
Record GroupLevelUpdate := mkGroupLevelUpdate {
  ssrcOrZero : Z;
  value_level : Q;
  value_voice : bool
}.

Inductive LevelEffect :=
| LevelUpdateFired (ssrc_ : Z) (value : Q) (voice_ me : bool)
| SendProgressSpeaking
| ApplyLastSpoke (ssrc_ : Z) (when : LastSpokeTimes) (now : Z).

(** The members the two functions work on: [_lastSpoke], a flat map (its
    pairs in the order of their keys), [_lastSpokeCheckTimer] (the
    interval it runs with, when it is active),
    [_lastSendProgressUpdate], and the calls made, newest first. *)
Record Levels := mkLevels {
  _lastSpoke : list (Z * LastSpokeTimes);
  _lastSpokeCheckTimer : option Z;
  _lastSendProgressUpdate : Z;
  levelsTrace : list LevelEffect
}.

(** The loop of [checkLastSpoke] over the list taken from [_lastSpoke]:
    [hasRecent], the list with the stale entries erased, and the calls of
    [applyLastSpoke], oldest first. *)
Fixpoint checkLastSpoke_loop (now : Z)
  (entries : list (Z * LastSpokeTimes))
  : bool * list (Z * LastSpokeTimes) * list LevelEffect :=
  match entries with
  | [] => (false, [], [])
  | (ssrc_, when) :: rest =>
      let '(hasRecent, kept, calls) := checkLastSpoke_loop now rest in
      if bool_decide (now <= anything when + kCheckLastSpokeInterval)
      then (true, (ssrc_, when) :: kept,
            ApplyLastSpoke ssrc_ when now :: calls)
      else (hasRecent, kept, ApplyLastSpoke ssrc_ when now :: calls)
  end.

(** [checkLastSpoke]; [real] says whether [lookupReal()] finds the call,
    [now] is [crl::now()]. *)
Definition checkLastSpoke (real : bool) (now : Z) (s : Levels) : Levels :=
  if negb real then s
  else
    let '(hasRecent, kept, calls) :=
      checkLastSpoke_loop now (_lastSpoke s) in
    mkLevels kept
      (if negb hasRecent then None
       else if bool_decide (_lastSpokeCheckTimer s = None)
       then Some (kCheckLastSpokeInterval / 3)
       else _lastSpokeCheckTimer s)
      (_lastSendProgressUpdate s)
      (rev calls ++ levelsTrace s).

(** [_lastSpoke.find(ssrc)] followed by the [emplace] or by the update of
    the entry found, in one walk along the keys; the flag is what the
    turn contributes to [checkNow]. *)
Fixpoint lastSpoke_touch (ssrc_ now : Z) (voiced : bool)
  (l : list (Z * LastSpokeTimes)) : list (Z * LastSpokeTimes) * bool :=
  match l with
  | [] =>
      ([(ssrc_, mkLastSpokeTimes now (if voiced then now else 0))], true)
  | (k, when) :: rest =>
      if decide (ssrc_ < k)
      then ((ssrc_, mkLastSpokeTimes now (if voiced then now else 0)) :: l,
            true)
      else if decide (ssrc_ = k)
      then ((k, mkLastSpokeTimes now
                  (if voiced then now else voice when)) :: rest,
            bool_decide (anything when + kCheckLastSpokeInterval / 3 <= now)
            || (voiced
                && bool_decide
                     (voice when + kCheckLastSpokeInterval / 3 <= now)))
      else let '(rest', b) := lastSpoke_touch ssrc_ now voiced rest in
           ((k, when) :: rest', b)
  end.

Section AudioLevels.

(** Declared outside this file. *)
Variable kSpeakLevelThreshold : Q.

(** The source an entry is about: zero stands for the local one. *)
Definition levelSsrc (mySsrc : Z) (u : GroupLevelUpdate) : Z :=
  if decide (ssrcOrZero u <> 0) then ssrcOrZero u else mySsrc.

(** One turn of the loop of [audioLevelsUpdated], on [check], [checkNow]
    and the members. *)
Definition audioLevelsUpdated_turn (mySsrc now : Z)
  (vars : bool * bool * Levels) (u : GroupLevelUpdate)
  : bool * bool * Levels :=
  let '(check, checkNow, s) := vars in
  let ssrc_ := levelSsrc mySsrc u in
  let me := bool_decide (ssrc_ = mySsrc) in
  let s := mkLevels (_lastSpoke s) (_lastSpokeCheckTimer s)
             (_lastSendProgressUpdate s)
             (LevelUpdateFired ssrc_ (value_level u) (value_voice u) me
                :: levelsTrace s) in
  if Qle_bool (value_level u) kSpeakLevelThreshold then (check, checkNow, s)
  else
    let s :=
      if me && value_voice u
         && (bool_decide (_lastSendProgressUpdate s = 0)
             || bool_decide
                  (_lastSendProgressUpdate s + kUpdateSendActionEach < now))
      then mkLevels (_lastSpoke s) (_lastSpokeCheckTimer s) now
             (SendProgressSpeaking :: levelsTrace s)
      else s in
    let '(l, b) := lastSpoke_touch ssrc_ now (value_voice u) (_lastSpoke s) in
    (true, checkNow || b,
     mkLevels l (_lastSpokeCheckTimer s) (_lastSendProgressUpdate s)
       (levelsTrace s)).

(** [audioLevelsUpdated]; [Expects(!data.updates.empty())] aborts on an
    empty update. *)
Definition audioLevelsUpdated (mySsrc : Z) (real : bool) (now : Z)
  (updates : list GroupLevelUpdate) (s : Levels) : option Levels :=
  match updates with
  | [] => None
  | _ =>
      let '(check, checkNow, s) :=
        foldl (audioLevelsUpdated_turn mySsrc now) (false, false, s)
          updates in
      Some (if checkNow then checkLastSpoke real now s
            else if check && bool_decide (_lastSpokeCheckTimer s = None)
            then mkLevels (_lastSpoke s)
                   (Some (kCheckLastSpokeInterval / 2))
                   (_lastSendProgressUpdate s) (levelsTrace s)
            else s)
  end.

End AudioLevels.

(** The keys of a flat map go up. *)
Fixpoint flat_map_sorted (l : list (Z * LastSpokeTimes)) : Prop :=
  match l with
  | [] => True
  | e :: rest => Forall (fun e' => e.1 < e'.1) rest /\ flat_map_sorted rest
  end.

(** No time recorded is ahead of the clock, and the voice time is not
    ahead of the other. *)
Definition stamped (now : Z) (l : list (Z * LastSpokeTimes)) : Prop :=
  Forall (fun e => 0 <= voice e.2 <= anything e.2 /\ anything e.2 <= now) l.

(** The check timer runs exactly while there is an entry to check. *)
Definition timerMatches (s : Levels) : Prop :=
  _lastSpokeCheckTimer s = None <-> _lastSpoke s = [].

(** The entry of a source is of this moment. *)
Definition heardNow (now ssrc_ : Z) (voiced : bool)
  (l : list (Z * LastSpokeTimes)) : Prop :=
  exists when, (ssrc_, when) ∈ l /\ anything when = now
               /\ (voiced = true -> voice when = now).

Definition levels_sample : Levels :=
  mkLevels [(20, mkLastSpokeTimes 1000 900); (555, mkLastSpokeTimes 3000 0)]
    (Some 500) 0 [].

(** What the loop of [audioLevelsUpdated] keeps, after the entries [us]
    of an update that came at [now] to the members [s0]. *)
Definition audioLevels_invariant (threshold : Q) (mySsrc now : Z)
  (s0 : Levels) (us : list GroupLevelUpdate) (vars : bool * bool * Levels)
  : Prop :=
  flat_map_sorted (_lastSpoke vars.2)
  /\ stamped now (_lastSpoke vars.2)
  /\ _lastSpokeCheckTimer vars.2 = _lastSpokeCheckTimer s0
  /\ (vars.1.1 = false ->
      vars.1.2 = false /\ _lastSpoke vars.2 = _lastSpoke s0
      /\ _lastSendProgressUpdate vars.2 = _lastSendProgressUpdate s0)
  /\ (vars.1.1 = true -> _lastSpoke vars.2 <> [])
  /\ (Forall (fun u => Qle_bool (value_level u) threshold = true) us ->
      vars.1.1 = false)
  /\ forall u, u ∈ us -> Qle_bool (value_level u) threshold = false ->
       heardNow now (levelSsrc mySsrc u) (value_voice u)
         (_lastSpoke vars.2).

(** ** Video streams *)

Definition set_videoStreamSsrcs (v : list Z) (c : GroupCall) : GroupCall :=
  mkGroupCall (_id c) (_joinAs c) (_joinHash c) (_state c) (_mySsrc c)
  (_mySsrcs c) (_muted c) (_initialMuteStateSent c) (_instance c)
  (_instanceMode c) (_instanceState c) (_instanceTransitioning c)
  (_hadJoinedState c) (_queuedSelfUpdates c) (_broadcastParts c)
  (_updateMuteRequestId c) (_checkJoinedTimer c) (_connectingSoundTimer c)
  v (_videoMuted c) (_videoOutgoingActive c) (peerGroupCall c)
  (apiNextRequestId c) (apiPending c) (tasks c) (pendingJoinPayloads c)
  (trace c).

(** [_videoStreamLarge] and [_videoStreamPinned]. *)
Record VideoView := mkVideoView {
  _videoStreamLarge : Z;
  _videoStreamPinned : Z
}.

(** What [setVideoStreams] fires: [_streamsVideoUpdated], and the change
    of the variable [_videoStreamLarge]. *)
Inductive VideoEvent :=
| StreamsVideoUpdated (ssrc_ : Z) (streams : bool)
| VideoStreamLargeChanged (ssrc_ : Z).

(** [emplace] on a [base::flat_set]: the elements stay in order and a
    present element is not added. *)
Fixpoint flat_set_emplace (x : Z) (l : list Z) : list Z :=
  match l with
  | [] => [x]
  | y :: rest =>
      if decide (x < y) then x :: l
      else if decide (x = y) then l
      else y :: flat_set_emplace x rest
  end.

(** One turn of the first loop of [setVideoStreams], on [removed],
    [_videoStreamSsrcs] and what was fired, newest first. *)
Definition setVideoStreams_turn (videoMuted : gset Z)
  (vars : list Z * list Z * list VideoEvent) (ssrc_ : Z)
  : list Z * list Z * list VideoEvent :=
  let '(removed, streams, fired) := vars in
  if decide (ssrc_ ∈ removed)
  then (List.filter (fun x => negb (bool_decide (x = ssrc_))) removed,
        streams, fired)
  else (removed, flat_set_emplace ssrc_ streams,
        if decide (ssrc_ ∈ videoMuted) then fired
        else StreamsVideoUpdated ssrc_ true :: fired).

(** [setVideoStreams]; what was fired comes oldest first. *)
Definition setVideoStreams (ssrcs : list Z) (s : VideoView * GroupCall)
  : VideoView * GroupCall * list VideoEvent :=
  let '(v, c) := s in
  let large := _videoStreamLarge v in
  let gone := bool_decide (large <> 0) && bool_decide (large ∉ ssrcs) in
  let newLarge := if gone then 0 else large in
  let pinned := if gone then 0 else _videoStreamPinned v in
  let '(removed, streams, fired) :=
    foldl (setVideoStreams_turn (_videoMuted c))
      (_videoStreamSsrcs c, _videoStreamSsrcs c, []) ssrcs in
  let c := set_videoStreamSsrcs streams c in
  let chosen :=
    if bool_decide (newLarge = 0) then chooseLargeVideoSsrc c else large in
  let fired :=
    if bool_decide (chosen <> large)
    then VideoStreamLargeChanged chosen :: fired else fired in
  let fired :=
    foldl (fun fired ssrc_ =>
             if decide (ssrc_ ∈ _videoMuted c) then fired
             else StreamsVideoUpdated ssrc_ false :: fired)
      fired removed in
  (mkVideoView chosen pinned, c, rev fired).

(** The elements of a flat set go up. *)
Fixpoint flat_set_sorted (l : list Z) : Prop :=
  match l with
  | [] => True
  | x :: rest => Forall (fun y => x < y) rest /\ flat_set_sorted rest
  end.

(** What the first loop of [setVideoStreams] keeps, after the sources
    [us], from the streams [old]. *)
Definition setVideoStreams_invariant (videoMuted : gset Z)
  (old us : list Z) (vars : list Z * list Z * list VideoEvent) : Prop :=
  (forall x, (x ∈ vars.1.1) <-> (x ∈ old /\ (x ∉ us)))
  /\ (forall x, (x ∈ vars.1.2) <-> (x ∈ old \/ x ∈ us))
  /\ (flat_set_sorted old -> flat_set_sorted vars.1.2)
  /\ (forall e, e ∈ vars.2 ->
        exists x, e = StreamsVideoUpdated x true
                  /\ x ∈ us /\ (x ∉ old) /\ (x ∉ videoMuted))
  /\ (forall x, x ∈ us -> x ∉ old -> x ∉ videoMuted ->
        StreamsVideoUpdated x true ∈ vars.2).

(** ** Vocabulary: the race comes to an end *)

(** The statements a thread at this place has still to run, at most. *)
Definition race_remaining (pc : Race.Pc) : nat :=
  match pc with
  | Race.Entry => 6
  | Race.Test => 5
  | Race.Take | Race.Clear => 4
  | Race.Call | Race.Unlock => 3
  | Race.Post => 2
  | Race.Leave => 1
  | Race.Returned => 0
  end.

Definition race_weight (s : Race.Task) : nat :=
  race_remaining (Race.pcDone s) + race_remaining (Race.pcCancel s).

(** The turns of a schedule in which the thread moved. *)
Fixpoint race_moves (schedule : list Race.Thread) (s : Race.Task) : nat :=
  match schedule with
  | [] => 0
  | who :: rest =>
      match Race.step who s with
      | Some s' => S (race_moves rest s')
      | None => race_moves rest s
      end
  end.

(** ** Vocabulary: the source ids of the session *)

(** The source id in use, if any, is one of those recorded. *)
Definition sourceKnown (c : GroupCall) : Prop :=
  _mySsrc c = 0 \/ _mySsrc c ∈ _mySsrcs c.

(** [remembers c' c]: the step from [c] to [c'] forgot no source id and
    kept the source id in use among those recorded. *)
Definition remembers (c' c : GroupCall) : Prop :=
  _mySsrcs c ⊆ _mySsrcs c' /\ (sourceKnown c -> sourceKnown c').

(** ** The check of the join *)

(** [checkJoined]: the sources of the [MTPphone_CheckGroupCall] request
    it sends, when it sends one; [screencastSsrc] is [_screencastSsrc]. *)
Definition checkJoined (screencastSsrc : Z) (c : GroupCall)
  : option (list Z) :=
  if decide (_state c <> State.Connecting \/ _id c = 0 \/ _mySsrc c = 0)
  then None
  else Some (_mySsrc c :: if decide (screencastSsrc <> 0)
                          then [screencastSsrc] else []).

(** The handlers of that request. *)
Definition checkJoinedDone (result : list Z) (c : GroupCall) : GroupCall :=
  if decide (_mySsrc c ∉ result) then rejoin0 c
  else if decide (_state c = State.Connecting)
  then set_checkJoinedTimer true c
  else c.

Definition checkJoinedFail (c : GroupCall) : GroupCall := rejoin0 c.

(** The session [c'] is [c] on its way to join again. *)
Definition rejoined (c' c : GroupCall) : Prop :=
  _state c' = State.Joining /\ _mySsrc c' = 0
  /\ pendingJoinPayloads c' = S (pendingJoinPayloads c)
  /\ apiPending c' = apiPending c /\ sent c' = sent c.

(** The joined session while the engine is not connected. *)
Definition call_connecting : GroupCall :=
  set_state State.Connecting call_joined.
(** * Properties *)

(** ** Terminal states *)

Lemma setState_state (state : State.t) (c : GroupCall) :
  _state (setState state c)
  = if decide (_state c = State.Failed
               \/ (_state c = State.FailedHangingUp
                   /\ state <> State.Failed))
    then _state c else state.
Proof.
  unfold setState.
  repeat case_decide; try tauto; try congruence;
    destruct state; simpl;
    unfold destroyController, stopConnectingSound, emit;
    repeat (case_match; simpl); try reflexivity; tauto.
Qed.

Lemma finish_body_hung_up (type : FinishType.t) (c : GroupCall) :
  _state c = State.HangingUp \/ _state c = State.FailedHangingUp
  \/ _state c = State.Ended \/ _state c = State.Failed ->
  finish_body type c = c.
Proof.
  intros H. unfold finish_body. case_decide; [reflexivity | tauto].
Qed.

(** C1, as the claim has it, fails: [setState] has no guard for [Ended].
    A session that has ended and is then told [setState(Joining)] (as the
    join handlers and the roster handlers do without looking at the
    state) is in [Joining] afterwards. *)
Lemma setState_leaves_Ended :
  _state call_ended = State.Ended
  /\ _state (setState State.Joining call_ended) = State.Joining.
Proof. split; reflexivity. Qed.

(** C1, amended.  Once the state is [Failed] no [setState] call changes
    the session; once it is [FailedHangingUp] the only request that is
    accepted is [Failed], every other one leaves the session unchanged.
    In [Ended] it is [finish] that is refused (as it is in [Failed] and
    in both hanging-up states), while [setState] still accepts a request
    there. *)
Theorem terminal_states (c : GroupCall) (state : State.t)
  (type : FinishType.t) :
  _state c = State.Failed \/ _state c = State.FailedHangingUp
  \/ _state c = State.Ended ->
  finish_body type c = c
  /\ (_state c = State.Failed -> setState state c = c)
  /\ (_state c = State.FailedHangingUp ->
      (state <> State.Failed -> setState state c = c)
      /\ _state (setState State.Failed c) = State.Failed)
  /\ (_state c = State.Ended -> _state (setState state c) = state).
Proof.
  intros H. split; [apply finish_body_hung_up; tauto |].
  split; [| split].
  - intros HF. unfold setState. case_decide; [reflexivity | tauto].
  - intros HF. split.
    + intros Hs. unfold setState.
      case_decide; [reflexivity |]. case_decide; [reflexivity | tauto].
    + rewrite setState_state. case_decide; [| reflexivity].
      destruct H0 as [H0 | [_ H0]]; congruence.
  - intros HE. rewrite setState_state. case_decide; [| reflexivity].
    destruct H0 as [H0 | [H0 _]]; congruence.
Qed.

Lemma terminal_states_witness :
  finish_body FinishType.Ended call_failed = call_failed
  /\ (_state call_failed = State.Failed ->
      setState State.Joining call_failed = call_failed)
  /\ (_state call_failed = State.FailedHangingUp ->
      (State.Joining <> State.Failed ->
       setState State.Joining call_failed = call_failed)
      /\ _state (setState State.Failed call_failed) = State.Failed)
  /\ (_state call_failed = State.Ended ->
      _state (setState State.Joining call_failed) = State.Joining).
Proof.
  apply (terminal_states call_failed State.Joining FinishType.Ended).
  left. reflexivity.
Defined.

(** ** Calls that leave no mark on requests, toasts or deliveries *)

Lemma toastsOf_silent (es t : list Effect) :
  forallb silent es = true -> toastsOf (es ++ t) = toastsOf t.
Proof.
  induction es as [| e es IH]; [reflexivity |]. simpl.
  intros [He Hes]%andb_prop. destruct e; try discriminate; by apply IH.
Qed.

Lemma sentOf_silent (es t : list Effect) :
  forallb silent es = true -> sentOf (es ++ t) = sentOf t.
Proof.
  induction es as [| e es IH]; [reflexivity |]. simpl.
  intros [He Hes]%andb_prop. destruct e; try discriminate; by apply IH.
Qed.

Lemma deliveredOf_silent (es t : list Effect) :
  forallb silent es = true -> deliveredOf (es ++ t) = deliveredOf t.
Proof.
  induction es as [| e es IH]; [reflexivity |]. simpl.
  intros [He Hes]%andb_prop. destruct e; try discriminate; by apply IH.
Qed.

Lemma adds_refl (c : GroupCall) : adds c c.
Proof. exists []. split; [reflexivity | by destruct c]. Qed.

Lemma adds_emit (e : Effect) (c : GroupCall) :
  silent e = true -> adds (emit e c) c.
Proof. intros H. exists [e]. split; [simpl; by rewrite H | reflexivity]. Qed.

Lemma adds_trans (c1 c2 c3 : GroupCall) :
  adds c2 c1 -> adds c3 c2 -> adds c3 c1.
Proof.
  intros (es1 & H1 & ->) (es2 & H2 & ->). exists (es2 ++ es1). split.
  - by rewrite forallb_app, H1, H2.
  - unfold set_trace; simpl. by rewrite app_assoc.
Qed.

Lemma updateInstanceVolumes_adds (c : GroupCall) :
  adds (updateInstanceVolumes c) c.
Proof.
  unfold updateInstanceVolumes. destruct (lookupReal c) as [real |].
  - generalize (participants real). intros l. revert c.
    induction l as [| p l IH]; intros c; simpl; [apply adds_refl |].
    case_match; [| apply IH].
    eapply adds_trans; [| apply IH]. by apply adds_emit.
  - apply adds_refl.
Qed.

Lemma applyMeInCallLocally_adds (c : GroupCall) :
  adds (applyMeInCallLocally c) c.
Proof.
  unfold applyMeInCallLocally.
  destruct (lookupReal c); [by apply adds_emit | apply adds_refl].
Qed.

Lemma ensureControllerCreated_spec (c : GroupCall) :
  adds (ensureControllerCreated c) (set_instance true c).
Proof.
  unfold ensureControllerCreated. destruct (_instance c) eqn:Hi.
  - replace (set_instance true c) with c; [apply adds_refl |].
    destruct c; simpl in *. by subst.
  - eapply adds_trans; [| apply updateInstanceVolumes_adds].
    unfold updateInstanceMuteState.
    eapply adds_trans; by apply adds_emit.
Qed.

(** What [adds] keeps. *)
Lemma adds_frame (c' c : GroupCall) :
  adds c' c ->
  _state c' = _state c /\ _mySsrc c' = _mySsrc c
  /\ _mySsrcs c' = _mySsrcs c /\ _muted c' = _muted c
  /\ _queuedSelfUpdates c' = _queuedSelfUpdates c
  /\ pendingJoinPayloads c' = pendingJoinPayloads c
  /\ apiPending c' = apiPending c
  /\ apiNextRequestId c' = apiNextRequestId c
  /\ tasks c' = tasks c /\ _broadcastParts c' = _broadcastParts c
  /\ toasts c' = toasts c /\ delivered c' = delivered c
  /\ sent c' = sent c.
Proof.
  intros (es & Hes & ->). unfold toasts, delivered, sent. simpl.
  rewrite toastsOf_silent, deliveredOf_silent, sentOf_silent by assumption.
  repeat split.
Qed.

(** ** The state machine, view by view *)

Lemma setState_frame (state : State.t) (c : GroupCall) :
  _mySsrc (setState state c) = _mySsrc c
  /\ _mySsrcs (setState state c) = _mySsrcs c
  /\ _muted (setState state c) = _muted c
  /\ _queuedSelfUpdates (setState state c) = _queuedSelfUpdates c
  /\ pendingJoinPayloads (setState state c) = pendingJoinPayloads c
  /\ apiPending (setState state c) = apiPending c
  /\ apiNextRequestId (setState state c) = apiNextRequestId c
  /\ tasks (setState state c) = tasks c
  /\ _broadcastParts (setState state c) = _broadcastParts c
  /\ toasts (setState state c) = toasts c
  /\ delivered (setState state c) = delivered c
  /\ sent (setState state c) = sent c.
Proof.
  unfold setState, destroyController, stopConnectingSound, emit, toasts,
    delivered, sent.
  repeat case_decide; try tauto;
    destruct state; repeat case_match; simpl; tauto.
Qed.

(** ** Rejoin *)

Lemma isLive_spec (s : State.t) :
  isLive s = true
  <-> s = State.Joining \/ s = State.Joined \/ s = State.Connecting.
Proof. unfold isLive. apply bool_decide_eq_true. Qed.

Lemma isLive_not_failed (s : State.t) :
  isLive s = true -> s <> State.Failed /\ s <> State.FailedHangingUp.
Proof.
  intros [H | [H | H]]%isLive_spec; subst; split; discriminate.
Qed.

Lemma rejoin_ignored (as_ : Z) (c : GroupCall) :
  isLive (_state c) = false -> rejoin as_ c = c.
Proof.
  intros H. unfold rejoin. case_decide; [reflexivity |].
  apply bool_decide_eq_false in H. exfalso. apply H.
  destruct (_state c); tauto.
Qed.

Lemma rejoin_honored (as_ : Z) (c : GroupCall) :
  isLive (_state c) = true ->
  _state (rejoin as_ c) = State.Joining
  /\ _mySsrc (rejoin as_ c) = 0
  /\ _mySsrcs (rejoin as_ c) = _mySsrcs c
  /\ _muted (rejoin as_ c) = _muted c
  /\ _queuedSelfUpdates (rejoin as_ c) = _queuedSelfUpdates c
  /\ pendingJoinPayloads (rejoin as_ c) = S (pendingJoinPayloads c)
  /\ apiPending (rejoin as_ c) = apiPending c
  /\ apiNextRequestId (rejoin as_ c) = apiNextRequestId c
  /\ tasks (rejoin as_ c) = tasks c
  /\ _broadcastParts (rejoin as_ c) = _broadcastParts c
  /\ toasts (rejoin as_ c) = toasts c
  /\ delivered (rejoin as_ c) = delivered c
  /\ sent (rejoin as_ c) = sent c.
Proof.
  intros H. pose proof (isLive_not_failed _ H) as [HF HFH].
  apply isLive_spec in H. unfold rejoin.
  case_decide; [tauto |].
  set (c0 := set_initialMuteStateSent false (set_mySsrc 0 c)).
  pose proof (setState_frame State.Joining c0) as Hfr.
  pose proof (setState_state State.Joining c0) as Hst.
  rewrite decide_False in Hst by (simpl; intuition congruence).
  revert Hfr Hst. generalize (setState State.Joining c0). intros c1 Hfr Hst.
  pose proof (adds_frame _ _ (ensureControllerCreated_spec c1)) as He.
  revert He. generalize (ensureControllerCreated c1). intros c2 He.
  unfold setInstanceMode.
  pose proof (adds_frame _ _ (applyMeInCallLocally_adds
    (emit (InstanceSetConnectionMode InstanceMode.None)
       (set_instanceMode InstanceMode.None c2)))) as Ha.
  revert Ha. generalize (applyMeInCallLocally
    (emit (InstanceSetConnectionMode InstanceMode.None)
       (set_instanceMode InstanceMode.None c2))). intros c3 Ha.
  unfold toasts, delivered, sent in *. simpl in *.
  destruct Hfr as (? & ? & ? & ? & ? & ? & ? & ? & ? & ? & ? & ?).
  destruct He as (? & ? & ? & ? & ? & ? & ? & ? & ? & ? & ? & ? & ?).
  destruct Ha as (? & ? & ? & ? & ? & ? & ? & ? & ? & ? & ? & ? & ?).
  repeat split; congruence.
Qed.

(** C2, as the claim has it, fails in its second half.  A session that is
    joining is told to rejoin twice; the second call finds the state
    already [Joining].  Each call asks the engine for a payload, the
    engine delivers both, and each payload sends a join request: two join
    requests are outstanding at once. *)
Lemma rejoin_twice_two_join_requests :
  _state (run (fun _ => false) [EvRejoin] call_joining) = State.Joining
  /\ outstandingJoins
       (run (fun _ => false)
          [EvRejoin; EvRejoin; EvJoinPayload 11; EvJoinPayload 12]
          call_joining)
     = [(2, MTPphone_JoinGroupCall 12 MuteState.Muted true 5 EmptyString);
        (1, MTPphone_JoinGroupCall 11 MuteState.Muted true 5 EmptyString)].
Proof. split; vm_compute; reflexivity. Qed.

(** C2, amended.  [rejoin] is honored only while the state is [Joining],
    [Joined] or [Connecting]; in every other state it returns the session
    as it is.  An honored [rejoin], also one issued while already
    [Joining], clears the local source id, makes the state [Joining],
    sends nothing itself and asks the engine for one more join payload;
    each payload the engine delivers adds one join request to the
    outstanding ones and cancels none. *)
Theorem rejoin_guard (as_ payload_ssrc : Z) (c : GroupCall) :
  (if isLive (_state c)
   then _state (rejoin as_ c) = State.Joining
        /\ _mySsrc (rejoin as_ c) = 0
        /\ pendingJoinPayloads (rejoin as_ c) = S (pendingJoinPayloads c)
        /\ apiPending (rejoin as_ c) = apiPending c
   else rejoin as_ c = c)
  /\ outstandingJoins (joinPayloadReceived payload_ssrc c)
     = (apiNextRequestId c,
        MTPphone_JoinGroupCall payload_ssrc (_muted c)
          (bool_decide (_muted c <> MuteState.Active))
          (_joinAs c) (_joinHash c)) :: outstandingJoins c.
Proof.
  split; [| reflexivity].
  destruct (isLive (_state c)) eqn:H; [| by apply rejoin_ignored].
  pose proof (rejoin_honored as_ c H). tauto.
Qed.

(** ** Failure of the join request *)

Lemma hangup_spec (c : GroupCall) :
  isHungUp (_state (hangup c)) = true
  /\ toasts (hangup c) = toasts c
  /\ delivered (hangup c) = delivered c
  /\ pendingJoinPayloads (hangup c) = pendingJoinPayloads c
  /\ outstandingJoins (hangup c) = outstandingJoins c
  /\ _mySsrcs (hangup c) = _mySsrcs c
  /\ _mySsrc (hangup c) = _mySsrc c
  /\ _muted (hangup c) = _muted c
  /\ tasks (hangup c) = tasks c
  /\ _broadcastParts (hangup c) = _broadcastParts c
  /\ _queuedSelfUpdates (hangup c) = _queuedSelfUpdates c
  /\ (_mySsrc c = 0 -> isHungUp (_state c) = false ->
      _state (hangup c) = State.Ended /\ apiPending (hangup c) = apiPending c).
Proof.
  unfold hangup, finish_body.
  rewrite (decide_True (P := FinishType.Ended = FinishType.Ended))
    by reflexivity.
  case_decide as Hh.
  { assert (isHungUp (_state c) = true)
      by (apply bool_decide_eq_true; exact Hh).
    repeat split; try assumption. intros; congruence. }
  assert (Hnh : isHungUp (_state c) = false)
    by (apply bool_decide_eq_false; exact Hh).
  case_decide as Hz.
  - pose proof (setState_frame State.Ended c) as Hfr.
    pose proof (setState_state State.Ended c) as Hst.
    rewrite decide_False in Hst by tauto.
    unfold outstandingJoins.
    destruct Hfr as (? & ? & ? & ? & ? & ? & ? & ? & ? & ? & ? & ?).
    repeat split; try congruence.
    rewrite Hst. reflexivity.
  - pose proof (setState_frame State.HangingUp c) as Hfr.
    pose proof (setState_state State.HangingUp c) as Hst.
    rewrite decide_False in Hst by tauto.
    unfold outstandingJoins, toasts, delivered, api_send, emit in *.
    simpl. rewrite filter_cons. simpl.
    revert Hfr Hst. generalize (setState State.HangingUp c).
    intros c1 Hfr Hst.
    destruct Hfr as (? & ? & ? & ? & ? & ? & ? & ? & ? & ? & ? & ?).
    repeat split; try congruence.
    rewrite Hst. reflexivity.
Qed.

(** The four texts, by error type. *)
Lemma joinFailText_cases (type : string) :
  (type = GROUPCALL_ANONYMOUS_FORBIDDEN ->
   joinFailText type = lng_group_call_no_anonymous)
  /\ (type = GROUPCALL_PARTICIPANTS_TOO_MUCH ->
      joinFailText type = lng_group_call_too_many)
  /\ (type = GROUPCALL_FORBIDDEN ->
      joinFailText type = lng_group_not_accessible)
  /\ (type <> GROUPCALL_ANONYMOUS_FORBIDDEN ->
      type <> GROUPCALL_PARTICIPANTS_TOO_MUCH ->
      type <> GROUPCALL_FORBIDDEN ->
      joinFailText type = ServerError).
Proof.
  unfold joinFailText. repeat split; intros; subst;
    repeat case_decide; try reflexivity; try discriminate; tauto.
Qed.

(** C3, as the claim has it, fails for the duplicate-source reason once
    the session is no longer live.  The join request is outstanding, the
    user hangs up (with no source id yet the session is [Ended] at once
    and the request stays outstanding), and then the request fails with
    [GROUPCALL_SSRC_DUPLICATE_MUCH]: the handler calls [rejoin()], which
    returns at its guard.  No join payload is asked for, nothing is sent,
    the state stays [Ended]: no rejoin attempt is issued. *)
Lemma joinFail_duplicate_after_hangup :
  let c := run (fun _ => false) [EvRejoin; EvJoinPayload 555; EvHangup]
             call_joining in
  let c' := step (fun _ => false)
              (EvFail 1 GROUPCALL_SSRC_DUPLICATE_MUCH 0) c in
  _state c = State.Ended
  /\ outstandingJoins c
     = [(1, MTPphone_JoinGroupCall 555 MuteState.Muted true 5 EmptyString)]
  /\ _state c' = State.Ended
  /\ pendingJoinPayloads c' = pendingJoinPayloads c
  /\ sent c' = sent c
  /\ trace c' = trace c.
Proof. vm_compute. repeat split. Qed.

(** C3, amended.  The failure handler of the join request does one of
    two things, by the error type alone.  For
    [GROUPCALL_SSRC_DUPLICATE_MUCH] it calls [rejoin()] and shows no
    toast: while the session is live ([Joining], [Joined] or
    [Connecting]) that is one rejoin attempt, the state becomes
    [Joining] and exactly one new join payload is requested; once the
    session is no longer live nothing is attempted and the session is
    left as it is.  For every other type the session is hung up (its
    state is a hanging-up or terminal one), no join payload is requested,
    and exactly one toast is shown, by the type: the anonymous-forbidden
    text for [GROUPCALL_ANONYMOUS_FORBIDDEN], the too-many text for
    [GROUPCALL_PARTICIPANTS_TOO_MUCH], the not-accessible text for
    [GROUPCALL_FORBIDDEN], the generic server-error text for any
    other. *)
Theorem joinFail_outcome (type : string) (c : GroupCall) :
  (type = GROUPCALL_SSRC_DUPLICATE_MUCH ->
   toasts (joinFail type c) = toasts c
   /\ sent (joinFail type c) = sent c
   /\ (isLive (_state c) = true ->
       _state (joinFail type c) = State.Joining
       /\ pendingJoinPayloads (joinFail type c)
          = S (pendingJoinPayloads c))
   /\ (isLive (_state c) = false -> joinFail type c = c))
  /\ (type <> GROUPCALL_SSRC_DUPLICATE_MUCH ->
      isHungUp (_state (joinFail type c)) = true
      /\ pendingJoinPayloads (joinFail type c) = pendingJoinPayloads c
      /\ outstandingJoins (joinFail type c) = outstandingJoins c
      /\ exists text,
           toasts (joinFail type c) = text :: toasts c
           /\ (type = GROUPCALL_ANONYMOUS_FORBIDDEN ->
               text = lng_group_call_no_anonymous)
           /\ (type = GROUPCALL_PARTICIPANTS_TOO_MUCH ->
               text = lng_group_call_too_many)
           /\ (type = GROUPCALL_FORBIDDEN ->
               text = lng_group_not_accessible)
           /\ (type <> GROUPCALL_ANONYMOUS_FORBIDDEN ->
               type <> GROUPCALL_PARTICIPANTS_TOO_MUCH ->
               type <> GROUPCALL_FORBIDDEN ->
               text = ServerError)).
Proof.
  unfold joinFail. split.
  - intros Ht. rewrite decide_True by assumption. unfold rejoin0.
    destruct (isLive (_state c)) eqn:H.
    + pose proof (rejoin_honored (_joinAs c) c H)
        as (H1 & _ & _ & _ & _ & H2 & _ & _ & _ & _ & H3 & _ & H4).
      split_and!; [exact H3 | exact H4 | by intros _ | discriminate].
    + rewrite rejoin_ignored by assumption.
      split_and!; [reflexivity | reflexivity | discriminate | by intros _].
  - intros Ht. rewrite decide_False by assumption.
    destruct (hangup_spec c) as (Hs & Hto & _ & Hp & Ho & _).
    split_and!; [exact Hs | exact Hp | exact Ho |].
    exists (joinFailText type). split.
    + unfold toasts in *. simpl. by rewrite Hto.
    + apply joinFailText_cases.
Qed.

(** ** What the mute and roster helpers keep *)

Lemma keeps_refl (c : GroupCall) : keeps c c.
Proof. repeat split. Qed.

Lemma keeps_trans (c1 c2 c3 : GroupCall) :
  keeps c2 c1 -> keeps c3 c2 -> keeps c3 c1.
Proof. unfold keeps. intuition congruence. Qed.

Lemma adds_keeps (c' c : GroupCall) : adds c' c -> keeps c' c.
Proof. intros H%adds_frame. unfold keeps. tauto. Qed.

Lemma sendSelfUpdate_keeps (type : SendUpdateType.t) (c : GroupCall) :
  keeps (sendSelfUpdate type c) c.
Proof. repeat split. Qed.

Lemma maybeSendMutedUpdate_keeps (previous : MuteState.t) (c : GroupCall) :
  keeps (maybeSendMutedUpdate previous c) c.
Proof.
  unfold maybeSendMutedUpdate.
  repeat case_decide; first [apply sendSelfUpdate_keeps | apply keeps_refl].
Qed.

Lemma assignMuted_keeps (mute : MuteState.t) (c : GroupCall) :
  keeps (assignMuted mute c) c.
Proof.
  unfold assignMuted. case_decide; [apply keeps_refl |].
  assert (H1 : keeps (if _instance (set_muted mute c)
                      then updateInstanceMuteState (set_muted mute c)
                      else set_muted mute c) c).
  { case_match; repeat split. }
  revert H1. generalize (if _instance (set_muted mute c)
                         then updateInstanceMuteState (set_muted mute c)
                         else set_muted mute c).
  intros c1 H1. case_match; [| exact H1].
  eapply keeps_trans; [| apply maybeSendMutedUpdate_keeps].
  eapply keeps_trans; [exact H1 | repeat split].
Qed.

Lemma setMuted_keeps (mute : MuteState.t) (c : GroupCall) :
  keeps (setMuted mute c) c.
Proof.
  unfold setMuted, setMuted_set. case_decide; [repeat split |].
  case_match; [| apply assignMuted_keeps].
  eapply keeps_trans; [apply assignMuted_keeps |].
  apply adds_keeps, applyMeInCallLocally_adds.
Qed.

Lemma notifyAboutAllowedToSpeak_keeps (c : GroupCall) :
  keeps (notifyAboutAllowedToSpeak c) c.
Proof. unfold notifyAboutAllowedToSpeak. case_match; repeat split. Qed.

Lemma checkFirstTimeJoined_keeps (c : GroupCall) :
  keeps (checkFirstTimeJoined c) c.
Proof. unfold checkFirstTimeJoined. case_match; repeat split. Qed.

Lemma applyOtherParticipantUpdate_keeps (data : MTPDgroupCallParticipant)
  (c : GroupCall) :
  keeps (applyOtherParticipantUpdate data c) c.
Proof.
  unfold applyOtherParticipantUpdate. repeat case_match; repeat split.
Qed.

(** ** Success of the join request *)

(** The local source ids ever owned are touched by the [done] handler of
    the join request alone. *)
Lemma rejoin_mySsrcs (as_ : Z) (c : GroupCall) :
  _mySsrcs (rejoin as_ c) = _mySsrcs c.
Proof.
  destruct (isLive (_state c)) eqn:H.
  - pose proof (rejoin_honored as_ c H). tauto.
  - by rewrite rejoin_ignored.
Qed.

Lemma applySelfUpdate_mySsrcs (data : MTPDgroupCallParticipant)
  (c : GroupCall) :
  _mySsrcs (applySelfUpdate data c) = _mySsrcs c.
Proof.
  pose proof (setState_frame State.Joining c) as (_ & Hs & _).
  pose proof (hangup_spec (set_mySsrc 0 c)) as (_ & _ & _ & _ & _ & Hh & _).
  pose proof (fun m => setMuted_keeps m c) as Hm.
  unfold applySelfUpdate, rejoin0.
  repeat (first [case_decide | case_match]);
    rewrite ?rejoin_mySsrcs; try assumption; try reflexivity;
    try (apply Hm).
  all: eapply eq_trans; [apply notifyAboutAllowedToSpeak_keeps | apply Hm].
Qed.

Lemma handleUpdate_mySsrcs (update : MTPUpdate) (c : GroupCall) :
  _mySsrcs (handleUpdate update c) = _mySsrcs c.
Proof.
  destruct update as [[vid | vid] | data]; simpl; [reflexivity | |].
  - unfold handlePossibleDiscarded. case_decide; [| reflexivity].
    pose proof (hangup_spec (set_mySsrc 0 c)) as (_ & _ & _ & _ & _ & Hh & _).
    exact Hh.
  - unfold handleUpdateParticipants. case_decide; [reflexivity |].
    generalize (isJoined (_state c)). intros joined.
    generalize (vparticipants data). intros l.
    induction l as [| p l IH] using rev_ind; [reflexivity |].
    rewrite foldl_app. simpl. rewrite <- IH.
    repeat case_match;
      first [ reflexivity
            | apply applyOtherParticipantUpdate_keeps
            | apply applySelfUpdate_mySsrcs ].
Qed.

Lemma applyUpdates_mySsrcs (updates : list MTPUpdate) (c : GroupCall) :
  _mySsrcs (applyUpdates updates c) = _mySsrcs c.
Proof.
  unfold applyUpdates.
  change (_mySsrcs c) with (_mySsrcs (emit ApplyUpdates c)).
  generalize (emit ApplyUpdates c). clear c.
  induction updates as [| u l IH]; intros c; simpl; [reflexivity |].
  rewrite IH. apply handleUpdate_mySsrcs.
Qed.

Lemma applyQueuedSelfUpdates_mySsrcs (c : GroupCall) :
  _mySsrcs (applyQueuedSelfUpdates c) = _mySsrcs c.
Proof.
  unfold applyQueuedSelfUpdates.
  generalize (length (_queuedSelfUpdates c)). intros n. revert c.
  induction n as [| n IH]; intros c; simpl; [reflexivity |].
  repeat case_match; try reflexivity.
  rewrite IH, applySelfUpdate_mySsrcs. reflexivity.
Qed.

(** C4.  In every state that [setState] lets go of (all but [Failed] and
    [FailedHangingUp], which no function of the file ever asks for), the
    [done] handler of the join request makes the returned source id the
    local one, adds it to the ids ever owned, and makes the state
    [Connecting] if the engine reports [Disconnected] and [Joined]
    otherwise.  The id stays among the ids ever owned whatever the rest
    of the handler does; and when the response brings no update for this
    call and no self update is queued, the handler ends with that source
    id and in that state. *)
Theorem joinDone_outcome (ssrc : Z) (wasMuteState : MuteState.t)
  (updates : list MTPUpdate) (c : GroupCall) :
  _state c <> State.Failed -> _state c <> State.FailedHangingUp ->
  let expected :=
    if decide (_instanceState c = InstanceState.Disconnected)
    then State.Connecting else State.Joined in
  (_mySsrc (joinDone_capture ssrc c) = ssrc
   /\ _mySsrcs (joinDone_capture ssrc c) = {[ssrc]} ∪ _mySsrcs c
   /\ _state (joinDone_capture ssrc c) = expected)
  /\ ssrc ∈ _mySsrcs (joinDone ssrc wasMuteState updates c)
  /\ (_queuedSelfUpdates c = [] ->
      _mySsrc (joinDone ssrc wasMuteState [] c) = ssrc
      /\ _state (joinDone ssrc wasMuteState [] c) = expected).
Proof.
  intros HF HFH expected.
  assert (Hc : _mySsrc (joinDone_capture ssrc c) = ssrc
               /\ _mySsrcs (joinDone_capture ssrc c) = {[ssrc]} ∪ _mySsrcs c
               /\ _state (joinDone_capture ssrc c) = expected
               /\ _queuedSelfUpdates (joinDone_capture ssrc c)
                  = _queuedSelfUpdates c).
  { assert (E : joinDone_capture ssrc c
                 = setState expected
                     (set_mySsrcs ({[ssrc]} ∪ _mySsrcs c)
                        (set_mySsrc ssrc c))) by reflexivity.
    rewrite E.
    pose proof (setState_frame expected
                  (set_mySsrcs ({[ssrc]} ∪ _mySsrcs c)
                     (set_mySsrc ssrc c))) as (H1 & H2 & _ & H3 & _).
    rewrite H1, H2, H3, setState_state. simpl.
    repeat split. case_decide; [tauto | reflexivity]. }
  destruct Hc as (Hc1 & Hc2 & Hc3 & Hc4).
  split; [tauto |].
  unfold joinDone.
  revert Hc1 Hc2 Hc3 Hc4. generalize (joinDone_capture ssrc c).
  intros c1 Hc1 Hc2 Hc3 Hc4.
  pose proof (adds_keeps _ _ (applyMeInCallLocally_adds c1)) as K1.
  revert K1. generalize (applyMeInCallLocally c1). intros c2 K1.
  pose proof (maybeSendMutedUpdate_keeps wasMuteState c2) as K2.
  revert K2. generalize (maybeSendMutedUpdate wasMuteState c2).
  intros c3 K2.
  pose proof (keeps_trans _ _ _ K1 K2) as K3. clear K1 K2.
  split.
  - replace (_mySsrcs (sendSelfUpdate _ _))
      with (_mySsrcs c3).
    + destruct K3 as (_ & _ & K3m & _). rewrite K3m, Hc2.
      apply elem_of_union_l, elem_of_singleton. reflexivity.
    + symmetry.
      eapply eq_trans; [apply sendSelfUpdate_keeps |].
      eapply eq_trans; [apply checkFirstTimeJoined_keeps |].
      rewrite applyQueuedSelfUpdates_mySsrcs. apply applyUpdates_mySsrcs.
  - intros Hq. unfold applyUpdates. simpl.
    assert (K4 : keeps (emit ApplyUpdates c3) c1).
    { eapply keeps_trans; [exact K3 | repeat split]. }
    revert K4. generalize (emit ApplyUpdates c3). intros c4 K4.
    unfold applyQueuedSelfUpdates.
    destruct K4 as (Ks & Km & _ & Kq & _).
    rewrite Kq, Hc4, Hq. simpl.
    pose proof (checkFirstTimeJoined_keeps c4) as (Ks' & Km' & _).
    pose proof (sendSelfUpdate_keeps SendUpdateType.VideoMuted
                  (checkFirstTimeJoined c4)) as (Ks'' & Km'' & _).
    split; congruence.
Qed.

Lemma joinDone_outcome_witness :
  (_mySsrc (joinDone_capture 555 call_joining_555) = 555
   /\ _mySsrcs (joinDone_capture 555 call_joining_555)
      = {[555]} ∪ _mySsrcs call_joining_555
   /\ _state (joinDone_capture 555 call_joining_555) = State.Connecting)
  /\ 555 ∈ _mySsrcs (joinDone 555 MuteState.Muted [] call_joining_555)
  /\ (_queuedSelfUpdates call_joining_555 = [] ->
      _mySsrc (joinDone 555 MuteState.Muted [] call_joining_555) = 555
      /\ _state (joinDone 555 MuteState.Muted [] call_joining_555)
         = State.Connecting).
Proof.
  apply (joinDone_outcome 555 MuteState.Muted [] call_joining_555);
    discriminate.
Defined.

(** ** Self entries of a roster update *)

(** C5.  While the session is [Joined] or [Connecting], a self entry
    marked left whose source id is the local one makes the state
    [Joining] and asks the engine for a join payload; a left entry with
    another source id changes nothing; an entry not marked left whose
    source id differs from the local one changes nothing when that id is
    one the session owned before, and otherwise ends the call: the local
    source id is cleared and the state is [Ended], with no leave request
    sent.  An [MTPint] source is compared as a [uint32]. *)
Theorem applySelfUpdate_self_delta (data : MTPDgroupCallParticipant)
  (c : GroupCall) :
  isJoined (_state c) = true ->
  (is_left data = true -> uint32 (vsource data) = _mySsrc c ->
   _state (applySelfUpdate data c) = State.Joining
   /\ _mySsrc (applySelfUpdate data c) = 0
   /\ pendingJoinPayloads (applySelfUpdate data c)
      = S (pendingJoinPayloads c))
  /\ (is_left data = true -> uint32 (vsource data) <> _mySsrc c ->
      applySelfUpdate data c = c)
  /\ (is_left data = false -> uint32 (vsource data) <> _mySsrc c ->
      uint32 (vsource data) ∈ _mySsrcs c ->
      applySelfUpdate data c = c)
  /\ (is_left data = false -> uint32 (vsource data) <> _mySsrc c ->
      uint32 (vsource data) ∉ _mySsrcs c ->
      _state (applySelfUpdate data c) = State.Ended
      /\ _mySsrc (applySelfUpdate data c) = 0
      /\ apiPending (applySelfUpdate data c) = apiPending c
      /\ pendingJoinPayloads (applySelfUpdate data c)
         = pendingJoinPayloads c).
Proof.
  intros HJ. apply bool_decide_eq_true in HJ.
  unfold applySelfUpdate. split_and!.
  - intros -> Hs. rewrite decide_True by assumption.
    pose proof (setState_state State.Joining c) as Hst.
    rewrite decide_False in Hst by (intuition congruence).
    pose proof (setState_frame State.Joining c) as Hfr.
    unfold rejoin0.
    pose proof (rejoin_honored (_joinAs (setState State.Joining c))
                  (setState State.Joining c)) as Hr.
    rewrite Hst in Hr. specialize (Hr eq_refl).
    destruct Hfr as (? & ? & ? & ? & ? & _).
    destruct Hr as (? & ? & ? & ? & ? & ? & _).
    split_and!; congruence.
  - intros -> Hs. by rewrite decide_False.
  - intros -> Hs Hin. rewrite decide_True by assumption.
    by rewrite decide_False by tauto.
  - intros -> Hs Hin. rewrite !decide_True by assumption.
    pose proof (hangup_spec (set_mySsrc 0 c))
      as (_ & _ & _ & Hp & _ & _ & Hm & _ & _ & _ & _ & He).
    assert (Hn : isHungUp (_state (set_mySsrc 0 c)) = false).
    { apply bool_decide_eq_false. simpl. intuition congruence. }
    destruct (He eq_refl Hn) as [He1 He2].
    rewrite He1, He2, Hp, Hm. split_and!; reflexivity.
Qed.

Lemma applySelfUpdate_self_delta_witness :
  _state (applySelfUpdate self_left_555 call_joined) = State.Joining
  /\ _mySsrc (applySelfUpdate self_left_555 call_joined) = 0
  /\ pendingJoinPayloads (applySelfUpdate self_left_555 call_joined)
     = S (pendingJoinPayloads call_joined).
Proof.
  apply (applySelfUpdate_self_delta self_left_555 call_joined);
    reflexivity.
Defined.

(** ** Roster updates about another call *)

(** C10.  A participants update whose call id is not the session's leaves
    the session as it is: no entry is applied, none is queued, the state
    stays. *)
Theorem handleUpdate_other_call (data : MTPDupdateGroupCallParticipants)
  (c : GroupCall) :
  vcall_id data <> _id c ->
  handleUpdateParticipants data c = c
  /\ handleUpdate (MTPDupdateGroupCallParticipants_ data) c = c.
Proof.
  intros H. simpl. unfold handleUpdateParticipants.
  rewrite decide_True by congruence. split; reflexivity.
Qed.

Lemma handleUpdate_other_call_witness :
  handleUpdateParticipants update_other_call call_joined = call_joined
  /\ handleUpdate (MTPDupdateGroupCallParticipants_ update_other_call)
       call_joined = call_joined.
Proof.
  apply (handleUpdate_other_call update_other_call call_joined).
  discriminate.
Defined.

(** The same update about the session's own call is applied. *)
Example handleUpdate_same_call :
  _state (handleUpdateParticipants
            {| vcall_id := 77; vparticipants := [self_left_555] |}
            call_joined) = State.Joining.
Proof. vm_compute. reflexivity. Qed.

(** ** Mute changes that reach the server *)

Lemma maybeSendMutedUpdate_exact (previous : MuteState.t) (c : GroupCall) :
  maybeSendMutedUpdate previous c
  = match reachesServer previous (_muted c) with
    | Some type => sendSelfUpdate type c
    | None => c
    end.
Proof.
  unfold maybeSendMutedUpdate.
  destruct previous, (_muted c) eqn:E; simpl;
    repeat case_decide; try reflexivity;
    exfalso; intuition congruence.
Qed.

Lemma reachesServer_mayReachServer (previous now : MuteState.t) :
  is_Some (reachesServer previous now) -> mayReachServer previous now = true.
Proof. destruct previous, now; simpl; intros [x H]; congruence. Qed.

(** C8.  Only for the pairs Active/Muted, Active/PushToTalk and
    ForceMuted/RaisedHand (in either order) can [maybeSendMutedUpdate]
    send the edit request; for every other pair of previous and new mute
    state it returns the session as it is: nothing is sent, nothing is
    cancelled. *)
Theorem maybeSendMutedUpdate_only (previous : MuteState.t)
  (c : GroupCall) :
  mayReachServer previous (_muted c) = false ->
  maybeSendMutedUpdate previous c = c.
Proof.
  intros H. rewrite maybeSendMutedUpdate_exact.
  destruct (reachesServer previous (_muted c)) eqn:E; [| reflexivity].
  rewrite reachesServer_mayReachServer in H by eauto. discriminate.
Qed.

Lemma maybeSendMutedUpdate_only_witness :
  maybeSendMutedUpdate MuteState.ForceMuted call_joined = call_joined.
Proof.
  apply (maybeSendMutedUpdate_only MuteState.ForceMuted call_joined).
  reflexivity.
Defined.

(** Within the pairs the claim lets through, Active to PushToTalk is the
    one for which nothing is sent. *)
Lemma mayReachServer_not_sent (previous now : MuteState.t) :
  mayReachServer previous now = true ->
  reachesServer previous now = None ->
  previous = MuteState.Active /\ now = MuteState.PushToTalk.
Proof. destruct previous, now; simpl; intros; try discriminate; tauto. Qed.

(** A change applied through [setMuted]'s closure outside those pairs is
    local: the mute state is the new one and the outstanding requests are
    the same. *)
Lemma setMuted_set_local (mute : MuteState.t) (c : GroupCall) :
  mayReachServer (_muted c) mute = false ->
  _muted (setMuted_set mute c) = mute
  /\ apiPending (setMuted_set mute c) = apiPending c
  /\ sent (setMuted_set mute c) = sent c.
Proof.
  intros H.
  assert (Ha : _muted (assignMuted mute c) = mute
               /\ apiPending (assignMuted mute c) = apiPending c
               /\ sent (assignMuted mute c) = sent c).
  { unfold assignMuted. case_decide as Hm; [tauto |].
    assert (Hsome : reachesServer (_muted c) mute = None).
    { destruct (reachesServer (_muted c) mute) eqn:E; [| reflexivity].
      rewrite reachesServer_mayReachServer in H by eauto. discriminate. }
    destruct (_instance (set_muted mute c)); case_match;
      rewrite ?maybeSendMutedUpdate_exact; simpl; rewrite ?Hsome;
      repeat split. }
  unfold setMuted_set. case_match; [| exact Ha].
  pose proof (adds_frame _ _ (applyMeInCallLocally_adds (assignMuted mute c)))
    as (_ & _ & _ & Hm & _ & _ & Hp & _ & _ & _ & _ & _ & Hs).
  destruct Ha as (? & ? & ?). repeat split; congruence.
Qed.

(** ** Choice of the large video *)

Section ChooseLarge.

Variable c : GroupCall.
Variable real : DataGroupCall.



End ChooseLarge.




(** In the sample the speaking source is video-muted, so the sounding
    one is chosen. *)
Example chooseLargeVideoSsrc_sample :
  chooseLargeVideoSsrc call_with_video = 30.
Proof. vm_compute. reflexivity. Qed.

(** ** Broadcast parts *)

Lemma rejoin_frame (as_ : Z) (c : GroupCall) :
  apiPending (rejoin as_ c) = apiPending c
  /\ tasks (rejoin as_ c) = tasks c
  /\ _broadcastParts (rejoin as_ c) = _broadcastParts c
  /\ toasts (rejoin as_ c) = toasts c
  /\ delivered (rejoin as_ c) = delivered c.
Proof.
  destruct (isLive (_state c)) eqn:H.
  - pose proof (rejoin_honored as_ c H). tauto.
  - rewrite rejoin_ignored by assumption. tauto.
Qed.

Lemma cancel_requests_spec (l : list (positive * Z)) (c : GroupCall) :
  let c' := foldl (fun c entry => api_cancel entry.2 c) c l in
  (forall p, p ∈ apiPending c' <-> p ∈ apiPending c /\ p.1 ∉ l.*2)
  /\ keeps c' c.
Proof.
  revert c. induction l as [| e l IH]; intros c; simpl.
  - split; [| apply keeps_refl]. intros p. split; [| tauto].
    intros H. split; [exact H | apply not_elem_of_nil].
  - destruct (IH (api_cancel e.2 c)) as [IH1 IH2]. split.
    + intros p. rewrite IH1. unfold api_cancel, emit. simpl.
      rewrite list_elem_of_filter, not_elem_of_cons.
      rewrite negb_True, bool_decide_spec. tauto.
    + eapply keeps_trans; [| exact IH2]. repeat split.
Qed.

Lemma cancelBroadcastParts_spec (c : GroupCall) :
  (forall task id, _broadcastParts c !! task = Some id ->
                   id ∉ (apiPending (cancelBroadcastParts c)).*1)
  /\ keeps (cancelBroadcastParts c) c.
Proof.
  unfold cancelBroadcastParts.
  destruct (cancel_requests_spec (map_to_list (_broadcastParts c)) c)
    as [H1 H2].
  split; [| exact H2].
  intros task id Hl Hin. apply list_elem_of_fmap in Hin as (p & Heq & Hp).
  apply H1 in Hp as [_ Hp]. apply Hp.
  apply list_elem_of_fmap. exists (task, id). split; [symmetry; exact Heq |].
  by apply elem_of_map_to_list.
Qed.

Lemma broadcastPartFinish_delivers (raw : positive) (t : LoadPartTask)
  (part : BroadcastPart) (c : GroupCall) :
  tasks c !! raw = Some t ->
  let c' := broadcastPartFinish raw part c in
  delivered c' = (if _done t then [(raw, part)] else []) ++ delivered c
  /\ _broadcastParts c' !! raw = None
  /\ (tasks c' !! raw)
     = Some {| _time := _time t; _scale := _scale t; _done := false |}
  /\ _state c' = _state c
  /\ pendingJoinPayloads c' = pendingJoinPayloads c
  /\ apiPending c' = apiPending c.
Proof.
  intros Ht. unfold broadcastPartFinish, LoadPartTask_done. rewrite Ht.
  simpl. destruct (_done t) eqn:Hd; simpl.
  - rewrite lookup_delete_eq, lookup_insert_eq. by repeat split.
  - rewrite lookup_delete_eq, Ht. destruct t; simpl in *; subst.
    by repeat split.
Qed.

(** The [double] of a message id: the id itself below 2^53, and beyond
    that the nearest multiple of the spacing of the doubles at its size,
    so off by at most one part in 2^53. *)
Lemma double_of_uint64_spec (n : Z) :
  0 <= n ->
  (n < 2 ^ 53 -> double_of_uint64 n = n)
  /\ Z.abs (double_of_uint64 n - n) * 2 ^ 53 <= n
  /\ (2 ^ 53 <= n -> (2 ^ (Z.log2 n - 52) | double_of_uint64 n)).
Proof.
  intros Hn. unfold double_of_uint64.
  destruct (Z.ltb_spec n (2 ^ 53)) as [Hs | Hb].
  - split_and!; [reflexivity | | lia]. rewrite Z.sub_diag. simpl. lia.
  - assert (Hpos : 0 < n) by lia.
    pose proof (Z.log2_spec n Hpos) as [Hlo Hhi].
    assert (Hk : 53 <= Z.log2 n) by (apply Z.log2_le_pow2; lia).
    set (k := Z.log2 n) in *.
    assert (Hpow : 2 ^ k = 2 ^ 52 * 2 ^ (k - 52)).
    { rewrite <- Z.pow_add_r by lia. f_equal. lia. }
    set (ulp := 2 ^ (k - 52)) in *.
    assert (Hu : 0 < ulp) by (apply Z.pow_pos_nonneg; lia).
    pose proof (Z.div_mod n ulp ltac:(lia)) as Hdm.
    pose proof (Z.mod_pos_bound n ulp Hu) as Hr.
    set (q := n / ulp) in *. set (r := n mod ulp) in *.
    assert (H52 : (2 ^ 52 : Z) = 4503599627370496) by reflexivity.
    assert (H53 : (2 ^ 53 : Z) = 9007199254740992) by reflexivity.
    rewrite H52 in Hpow. rewrite H53 in *.
    destruct ((ulp <? 2 * r) || ((2 * r =? ulp) && Z.odd q)) eqn:E.
    + assert (Hge : ulp <= 2 * r).
      { apply orb_prop in E as [E | E].
        - apply Z.ltb_lt in E. lia.
        - apply andb_prop in E as [E _]. apply Z.eqb_eq in E. lia. }
      split_and!; [lia | | intros _; apply Z.divide_factor_r].
      replace ((q + 1) * ulp - n) with (ulp - r) by lia.
      rewrite Z.abs_eq by lia. nia.
    + apply orb_false_elim in E as [E _]. apply Z.ltb_ge in E.
      split_and!; [lia | | intros _; apply Z.divide_factor_r].
      replace (q * ulp - n) with (- r) by lia.
      rewrite Z.abs_neq by lia. nia.
Qed.

(** C7, as the claim has it, fails for one kind of successful response.
    The streaming session's part request is answered with
    [upload.fileCdnRedirect]: the task is completed, but with
    [ResyncNeeded] and no bytes. *)
Lemma getFileDone_cdnRedirect_resync :
  (fun e => (status e.2, oggData e.2))
    <$> delivered (run (fun _ => false)
                     [EvDone 1 [] MTPDupload_fileCdnRedirect (2 ^ 33)]
                     call_streaming)
  = [(Status.ResyncNeeded, [])].
Proof. vm_compute. reflexivity. Qed.

(** C7, amended.  The failure of a part request has one of three
    outcomes, by the error type.  [GROUPCALL_JOIN_MISSING] and
    [GROUPCALL_FORBIDDEN]: the request of every entry of
    [_broadcastParts] is cancelled, no part is delivered and no task is
    touched, and outside the two failed states the state becomes
    [Joining] and a join payload is requested.  A flood error or
    [TIME_TOO_BIG]: the task is completed with [NotReady]; any other
    type: with [ResyncNeeded].  An answer completes the task by its
    kind: [upload.file] with [Success] and the bytes of the answer,
    [upload.fileCdnRedirect] with [ResyncNeeded] and no bytes.  Every
    part delivered carries the time of the task and, as its response
    timestamp, the outer message id divided by 2^32 in [double]: [m] /
    2^32, where [m] is the id itself below 2^53 and otherwise a multiple
    of the spacing of the doubles at the size of the id, off from the id
    by at most one part in 2^53.  Completing means: the callback, still
    stored in the task, is called with that part, and the task leaves
    [_broadcastParts]. *)
Theorem getFile_outcomes (IsFloodError : string -> bool) (raw : positive)
  (t : LoadPartTask) (time outerMsgId : Z) (type : string)
  (vbytes : list Z) (c : GroupCall) :
  tasks c !! raw = Some t -> _done t = true -> 0 <= outerMsgId ->
  let failed := getFileFail IsFloodError raw time type outerMsgId c in
  let answered :=
    getFileDone raw time (MTPDupload_file vbytes) outerMsgId c in
  let redirected :=
    getFileDone raw time MTPDupload_fileCdnRedirect outerMsgId c in
  exists m : Z,
    (outerMsgId < 2 ^ 53 -> m = outerMsgId)
    /\ Z.abs (m - outerMsgId) * 2 ^ 53 <= outerMsgId
    /\ (2 ^ 53 <= outerMsgId -> (2 ^ (Z.log2 outerMsgId - 52) | m))
    /\ let part st bytes :=
         {| timestampMilliseconds := time;
            responseTimestamp := m # 2 ^ 32;
            status := st; oggData := bytes |} in
       (type = GROUPCALL_JOIN_MISSING \/ type = GROUPCALL_FORBIDDEN ->
        (forall task id, _broadcastParts c !! task = Some id ->
                         id ∉ (apiPending failed).*1)
        /\ delivered failed = delivered c
        /\ tasks failed = tasks c
        /\ (_state c <> State.Failed ->
            _state c <> State.FailedHangingUp ->
            _state failed = State.Joining
            /\ pendingJoinPayloads failed = S (pendingJoinPayloads c)))
       /\ (type <> GROUPCALL_JOIN_MISSING -> type <> GROUPCALL_FORBIDDEN ->
           delivered failed
           = (raw, part (if IsFloodError type
                            || bool_decide (type = TIME_TOO_BIG)
                         then Status.NotReady else Status.ResyncNeeded) [])
               :: delivered c
           /\ _broadcastParts failed !! raw = None
           /\ _state failed = _state c
           /\ pendingJoinPayloads failed = pendingJoinPayloads c)
       /\ (delivered answered
           = (raw, part Status.Success vbytes) :: delivered c
           /\ _broadcastParts answered !! raw = None
           /\ _state answered = _state c)
       /\ (delivered redirected
           = (raw, part Status.ResyncNeeded []) :: delivered c
           /\ _broadcastParts redirected !! raw = None
           /\ _state redirected = _state c).
Proof.
  intros Ht Hd Hm failed answered redirected.
  exists (double_of_uint64 outerMsgId).
  destruct (double_of_uint64_spec outerMsgId Hm) as (M1 & M2 & M3).
  split; [exact M1 |]. split; [exact M2 |]. split; [exact M3 |].
  intros part.
  assert (Hfin : forall st bytes,
    let c' := broadcastPartFinish raw (part st bytes) c in
    delivered c' = (raw, part st bytes) :: delivered c
    /\ _broadcastParts c' !! raw = None
    /\ _state c' = _state c
    /\ pendingJoinPayloads c' = pendingJoinPayloads c).
  { intros st bytes.
    pose proof (broadcastPartFinish_delivers raw t (part st bytes) c Ht)
      as H.
    cbv zeta in H. rewrite Hd in H. cbv zeta. tauto. }
  split; [| split; [| split]].
  - intros Htype. subst failed. unfold getFileFail.
    rewrite decide_True by assumption.
    pose proof (cancelBroadcastParts_spec c) as [Hc Hk].
    revert Hc Hk. generalize (cancelBroadcastParts c). intros c1 Hc Hk.
    pose proof (setState_frame State.Joining c1) as Hfr.
    pose proof (setState_state State.Joining c1) as Hst.
    revert Hfr Hst. generalize (setState State.Joining c1).
    intros c2 Hfr Hst.
    unfold rejoin0.
    pose proof (rejoin_frame (_joinAs c2) c2) as (Ra & Rt & _ & _ & Rd).
    destruct Hfr as (_ & _ & _ & _ & Fp & Fa & _ & Ft & _ & _ & Fd & _).
    destruct Hk as (Ks & _ & _ & _ & Kp & Kt & _ & _ & Kd).
    split_and!.
    + intros task id Hl. rewrite Ra, Fa. by apply (Hc task id).
    + congruence.
    + congruence.
    + intros HF HFH. rewrite decide_False in Hst by (rewrite Ks; tauto).
      assert (Hlive : isLive (_state c2) = true) by (by rewrite Hst).
      pose proof (rejoin_honored (_joinAs c2) c2 Hlive)
        as (Hs & _ & _ & _ & _ & Hp & _).
      split; congruence.
  - intros H1 H2. subst failed. unfold getFileFail.
    rewrite decide_False by tauto.
    exact (Hfin (getFileFailStatus IsFloodError type) []).
  - destruct (Hfin Status.Success vbytes) as (H1 & H2 & H3 & _).
    by split_and!.
  - destruct (Hfin Status.ResyncNeeded []) as (H1 & H2 & H3 & _).
    by split_and!.
Qed.

Lemma getFile_outcomes_witness :
  let c := call_streaming in
  let outerMsgId := 2 ^ 53 + 1 in
  let failed :=
    getFileFail (fun _ => false) 1 1000 GROUPCALL_FORBIDDEN outerMsgId c in
  let answered :=
    getFileDone 1 1000 (MTPDupload_file [79; 103; 103]) outerMsgId c in
  let redirected :=
    getFileDone 1 1000 MTPDupload_fileCdnRedirect outerMsgId c in
  exists m : Z,
    (outerMsgId < 2 ^ 53 -> m = outerMsgId)
    /\ Z.abs (m - outerMsgId) * 2 ^ 53 <= outerMsgId
    /\ (2 ^ 53 <= outerMsgId -> (2 ^ (Z.log2 outerMsgId - 52) | m))
    /\ let part st bytes :=
         {| timestampMilliseconds := 1000;
            responseTimestamp := m # 2 ^ 32;
            status := st; oggData := bytes |} in
       (GROUPCALL_FORBIDDEN = GROUPCALL_JOIN_MISSING
        \/ GROUPCALL_FORBIDDEN = GROUPCALL_FORBIDDEN ->
        (forall task id, _broadcastParts c !! task = Some id ->
                         id ∉ (apiPending failed).*1)
        /\ delivered failed = delivered c
        /\ tasks failed = tasks c
        /\ (_state c <> State.Failed ->
            _state c <> State.FailedHangingUp ->
            _state failed = State.Joining
            /\ pendingJoinPayloads failed = S (pendingJoinPayloads c)))
       /\ (GROUPCALL_FORBIDDEN <> GROUPCALL_JOIN_MISSING ->
           GROUPCALL_FORBIDDEN <> GROUPCALL_FORBIDDEN ->
           delivered failed
           = (1%positive,
              part (if false || bool_decide
                                  (GROUPCALL_FORBIDDEN = TIME_TOO_BIG)
                    then Status.NotReady else Status.ResyncNeeded) [])
               :: delivered c
           /\ _broadcastParts failed !! 1%positive = None
           /\ _state failed = _state c
           /\ pendingJoinPayloads failed = pendingJoinPayloads c)
       /\ (delivered answered
           = (1%positive, part Status.Success [79; 103; 103])
               :: delivered c
           /\ _broadcastParts answered !! 1%positive = None
           /\ _state answered = _state c)
       /\ (delivered redirected
           = (1%positive, part Status.ResyncNeeded []) :: delivered c
           /\ _broadcastParts redirected !! 1%positive = None
           /\ _state redirected = _state c).
Proof.
  apply (getFile_outcomes (fun _ => false) 1
           {| _time := 1000; _scale := 0; _done := true |}
           1000 (2 ^ 53 + 1) GROUPCALL_FORBIDDEN [79; 103; 103]
           call_streaming).
  - reflexivity.
  - reflexivity.
  - lia.
Defined.

(** An id beyond 2^53 is rounded: 2^53 + 1 lies between two doubles and
    goes to the even one. *)
Example TimestampFromMsgId_rounds :
  TimestampFromMsgId (2 ^ 53 + 1) = 2 ^ 53 # 2 ^ 32
  /\ TimestampFromMsgId (2 ^ 53 + 3) = (2 ^ 53 + 4) # 2 ^ 32
  /\ TimestampFromMsgId (2 ^ 33) = 2 ^ 33 # 2 ^ 32.
Proof. vm_compute. repeat split. Qed.

(** A part request that fails with [GROUPCALL_FORBIDDEN] while the
    session streams: its request is gone, the state is [Joining]. *)
Example getFileFail_forbidden_sample :
  let c := run (fun _ => false)
             [EvFail 1 GROUPCALL_FORBIDDEN 0] call_streaming in
  apiPending c = [] /\ _state c = State.Joining
  /\ pendingJoinPayloads c = 1%nat /\ delivered c = [].
Proof. vm_compute. repeat split. Qed.

(** A task whose callback was taken before (it was cancelled) is
    completed without any delivery. *)
Lemma broadcastPartFinish_after_cancel (raw : positive) (t : LoadPartTask)
  (part : BroadcastPart) (c : GroupCall) :
  tasks c !! raw = Some t -> _done t = false ->
  delivered (broadcastPartFinish raw part c) = delivered c.
Proof.
  intros Ht Hd.
  pose proof (broadcastPartFinish_delivers raw t part c Ht) as H.
  simpl in H. rewrite Hd in H. tauto.
Qed.

(** An [upload.fileCdnRedirect] answer is treated as an error: the task
    is completed with [ResyncNeeded] and no bytes. *)
Lemma getFileDone_cdnRedirect (raw : positive) (time outerMsgId : Z)
  (c : GroupCall) :
  getFileDone raw time MTPDupload_fileCdnRedirect outerMsgId c
  = broadcastPartFinish raw
      {| timestampMilliseconds := time;
         responseTimestamp := TimestampFromMsgId outerMsgId;
         status := Status.ResyncNeeded; oggData := [] |} c.
Proof. reflexivity. Qed.

(** ** The race between completion and cancellation *)

Lemma race_initial (alive : bool) : Race.invariant (Race.initial alive).
Proof.
  unfold Race.invariant. simpl.
  split_and!; try done; intros H; intuition discriminate.
Qed.

Lemma race_step (who : Race.Thread) (s s' : Race.Task) :
  Race.invariant s -> Race.step who s = Some s' -> Race.invariant s'.
Proof.
  unfold Race.invariant.
  destruct s as [st h alive pd pc n m k]. simpl.
  intros (Hp1 & Hp2 & Hh & Hx & Ht & Hc & Hd & He & Hn & Ha & Hb) Hs.
  unfold Race.step, Race.step_done, Race.step_cancel in Hs.
  destruct who, pd, pc; simpl in *; try discriminate;
    destruct st; simpl in *;
    try (specialize (Ht eq_refl)); try (specialize (Hc eq_refl));
    try discriminate;
    try (exfalso; (apply Hd || apply He); tauto; fail);
    destruct h as [[] |]; simpl in *; try discriminate;
    destruct alive; simpl in *; simplify_eq; simpl;
    repeat case_decide;
    split_and!; intros; try done; try lia;
    try (exfalso; intuition congruence).
Qed.

Lemma race_run (schedule : list Race.Thread) (s : Race.Task) :
  Race.invariant s -> Race.invariant (Race.run schedule s).
Proof.
  revert s. induction schedule as [| who l IH]; intros s H; [exact H |].
  simpl. apply IH. destruct (Race.step who s) as [s' |] eqn:E; simpl.
  - by apply (race_step who s).
  - exact H.
Qed.

Lemma race_call_alive (schedule : list Race.Thread) (s : Race.Task) :
  Race.call_alive (Race.run schedule s) = Race.call_alive s.
Proof.
  revert s. induction schedule as [| who l IH]; intros s; [reflexivity |].
  simpl. rewrite IH. destruct who; simpl.
  - unfold Race.step_done. repeat case_match; reflexivity.
  - unfold Race.step_cancel. repeat case_match; reflexivity.
Qed.

(** C6.  Whatever the order in which the statements of [done] and of
    [cancel] are run on a task, the callback is called at most once; the
    mutex is never held by both; and when both have returned, exactly one
    of the two happened: the callback was called, or the cancellation
    went through (it was posted to the call, when the call is still
    there).  So the one that comes second to the mutex does nothing. *)
Theorem done_cancel_race (alive : bool) (schedule : list Race.Thread) :
  let s := Race.run schedule (Race.initial alive) in
  (Race.called s <= 1)%nat
  /\ Race.locked (Race.pcDone s) && Race.locked (Race.pcCancel s) = false
  /\ (Race.finished s ->
      (Race.called s + Race.posted s + Race.dropped s = 1)%nat
      /\ Race.stored s = false
      /\ (alive = true -> (Race.called s + Race.posted s = 1)%nat)).
Proof.
  intros s.
  pose proof (race_run schedule _ (race_initial alive))
    as (Hp1 & Hp2 & Hh & Hx & Ht & Hc & Hd & He & Hn & Ha & Hb).
  fold s in Hh, Hx, Ht, Hc, Hd, He, Hn, Ha, Hb.
  assert (Hs : Race.call_alive s = alive) by apply race_call_alive.
  split_and!.
  - lia.
  - exact Hx.
  - intros [Hpd Hpc]. rewrite Hpd, Hpc in Hn.
    rewrite decide_False in Hn by discriminate.
    rewrite decide_False in Hn by (intros [? | ?]; discriminate).
    rewrite Hd in Hn by tauto.
    split_and!; [lia | apply Hd; tauto |].
    intros ->. rewrite Ha in Hn by assumption. lia.
Qed.

(** ** The failed states are never entered *)

Lemma evolves_refl (c : GroupCall) : evolves c c.
Proof. split; [by left | by left]. Qed.

Lemma evolves_trans (c1 c2 c3 : GroupCall) :
  evolves c2 c1 -> evolves c3 c2 -> evolves c3 c1.
Proof.
  intros [S1 P1] [S2 P2]. split.
  - destruct S2 as [S2 | S2]; [| by right]. rewrite S2. exact S1.
  - intros p Hp. destruct (P2 p Hp) as [Hp' | Hp']; [| by right].
    by apply P1.
Qed.

Lemma evolves_sound (c' c : GroupCall) :
  sound c -> evolves c' c -> sound c'.
Proof.
  intros [Hs Hp] [S P]. split.
  - destruct S as [S | S]; [by rewrite S | exact S].
  - intros p Hin. destruct (P p Hin) as [Hin' | Hl]; [by apply Hp | exact Hl].
Qed.

(** The same state and the same outstanding requests. *)
Lemma evolves_same (c' c : GroupCall) :
  _state c' = _state c -> apiPending c' = apiPending c -> evolves c' c.
Proof. intros Hs Hp. split; [by left |]. rewrite Hp. by left. Qed.

Lemma adds_evolves (c' c : GroupCall) : adds c' c -> evolves c' c.
Proof. intros H%adds_frame. apply evolves_same; tauto. Qed.

Lemma setState_evolves (state : State.t) (c : GroupCall) :
  notFailed state -> evolves (setState state c) c.
Proof.
  intros Hn. split.
  - rewrite setState_state. case_decide; [by left | by right].
  - pose proof (setState_frame state c) as (_ & _ & _ & _ & _ & Hp & _).
    rewrite Hp. by left.
Qed.

Lemma api_send_evolves (r : Request) (c : GroupCall) :
  leaveEnds (apiNextRequestId c, r) -> evolves (api_send r c).2 c.
Proof.
  intros Hl. split; [by left |]. simpl. intros p Hp.
  apply elem_of_cons in Hp as [-> | Hp]; [by right | by left].
Qed.

Lemma api_cancel_evolves (id : Z) (c : GroupCall) :
  evolves (api_cancel id c) c.
Proof.
  split; [by left |]. simpl. intros p Hp.
  apply list_elem_of_filter in Hp as [_ Hp]. by left.
Qed.

Lemma sendSelfUpdate_evolves (type : SendUpdateType.t) (c : GroupCall) :
  evolves (sendSelfUpdate type c) c.
Proof.
  split; [by left |]. simpl. intros p Hp.
  apply elem_of_cons in Hp as [-> | Hp]; [by right |].
  apply list_elem_of_filter in Hp as [_ Hp]. by left.
Qed.

Lemma maybeSendMutedUpdate_evolves (previous : MuteState.t)
  (c : GroupCall) :
  evolves (maybeSendMutedUpdate previous c) c.
Proof.
  unfold maybeSendMutedUpdate.
  repeat case_decide;
    first [apply sendSelfUpdate_evolves | apply evolves_refl].
Qed.

Lemma assignMuted_evolves (mute : MuteState.t) (c : GroupCall) :
  evolves (assignMuted mute c) c.
Proof.
  unfold assignMuted. case_decide; [apply evolves_refl |].
  assert (H1 : evolves (if _instance (set_muted mute c)
                        then updateInstanceMuteState (set_muted mute c)
                        else set_muted mute c) c).
  { case_match; apply evolves_same; reflexivity. }
  revert H1. generalize (if _instance (set_muted mute c)
                         then updateInstanceMuteState (set_muted mute c)
                         else set_muted mute c).
  intros c1 H1. case_match; [| exact H1].
  eapply evolves_trans; [| apply maybeSendMutedUpdate_evolves].
  eapply evolves_trans; [exact H1 | apply evolves_same; reflexivity].
Qed.

Lemma setMuted_evolves (mute : MuteState.t) (c : GroupCall) :
  evolves (setMuted mute c) c.
Proof.
  unfold setMuted, setMuted_set.
  case_decide; [apply evolves_same; reflexivity |].
  case_match; [| apply assignMuted_evolves].
  eapply evolves_trans; [apply assignMuted_evolves |].
  apply adds_evolves, applyMeInCallLocally_adds.
Qed.

Lemma rejoin_evolves (as_ : Z) (c : GroupCall) : evolves (rejoin as_ c) c.
Proof.
  destruct (isLive (_state c)) eqn:H.
  - pose proof (rejoin_honored as_ c H) as (Hs & _ & _ & _ & _ & _ & Hp & _).
    split; [right; rewrite Hs; split; discriminate |].
    rewrite Hp. by left.
  - rewrite rejoin_ignored by assumption. apply evolves_refl.
Qed.

Lemma rejoin0_evolves (c : GroupCall) : evolves (rejoin0 c) c.
Proof. unfold rejoin0. apply rejoin_evolves. Qed.

Lemma hangup_evolves (c : GroupCall) : evolves (hangup c) c.
Proof.
  unfold hangup, finish_body.
  rewrite !(decide_True (P := FinishType.Ended = FinishType.Ended))
    by reflexivity.
  case_decide; [apply evolves_refl |].
  case_decide; [apply setState_evolves; split; discriminate |].
  eapply evolves_trans; [apply (setState_evolves State.HangingUp);
                         split; discriminate |].
  apply api_send_evolves. reflexivity.
Qed.

Lemma applySelfUpdate_evolves (data : MTPDgroupCallParticipant)
  (c : GroupCall) :
  evolves (applySelfUpdate data c) c.
Proof.
  assert (HJ : evolves (rejoin0 (setState State.Joining c)) c).
  { eapply evolves_trans;
      [apply (setState_evolves State.Joining); split; discriminate |].
    apply rejoin0_evolves. }
  assert (HH : evolves (hangup (set_mySsrc 0 c)) c).
  { eapply evolves_trans; [| apply hangup_evolves].
    apply evolves_same; reflexivity. }
  pose proof (fun m => setMuted_evolves m c) as HM.
  unfold applySelfUpdate.
  repeat (first [case_decide | case_match]);
    first [ exact HJ | exact HH | apply HM | apply evolves_refl | idtac ].
  all: eapply evolves_trans; [apply HM |];
    unfold notifyAboutAllowedToSpeak; case_match;
    apply evolves_same; reflexivity.
Qed.


Lemma applyOtherParticipantUpdate_evolves
  (data : MTPDgroupCallParticipant) (c : GroupCall) :
  evolves (applyOtherParticipantUpdate data c) c.
Proof.
  unfold applyOtherParticipantUpdate.
  repeat case_match; apply evolves_same; reflexivity.
Qed.

Lemma handleUpdate_evolves (update : MTPUpdate) (c : GroupCall) :
  evolves (handleUpdate update c) c.
Proof.
  destruct update as [[vid | vid] | data]; simpl; [apply evolves_refl | |].
  - unfold handlePossibleDiscarded. case_decide; [| apply evolves_refl].
    eapply evolves_trans; [| apply hangup_evolves].
    apply evolves_same; reflexivity.
  - unfold handleUpdateParticipants. case_decide; [apply evolves_refl |].
    generalize (isJoined (_state c)). intros joined.
    generalize (vparticipants data). intros l.
    induction l as [| p l IH] using rev_ind; [apply evolves_refl |].
    rewrite foldl_app. simpl.
    eapply evolves_trans; [exact IH |].
    repeat case_match;
      first [ apply applySelfUpdate_evolves
            | apply applyOtherParticipantUpdate_evolves
            | apply evolves_same; reflexivity ].
Qed.

Lemma applyUpdates_evolves (updates : list MTPUpdate) (c : GroupCall) :
  evolves (applyUpdates updates c) c.
Proof.
  unfold applyUpdates.
  eapply evolves_trans;
    [apply (evolves_same (emit ApplyUpdates c) c); reflexivity |].
  generalize (emit ApplyUpdates c). clear c.
  induction updates as [| u l IH]; intros c; simpl; [apply evolves_refl |].
  eapply evolves_trans; [apply handleUpdate_evolves | apply IH].
Qed.

Lemma applyQueuedSelfUpdates_evolves (c : GroupCall) :
  evolves (applyQueuedSelfUpdates c) c.
Proof.
  unfold applyQueuedSelfUpdates.
  generalize (length (_queuedSelfUpdates c)). intros n. revert c.
  induction n as [| n IH]; intros c; simpl; [apply evolves_refl |].
  repeat case_match; try apply evolves_refl.
  eapply evolves_trans; [| apply IH].
  eapply evolves_trans; [| apply applySelfUpdate_evolves].
  apply evolves_same; reflexivity.
Qed.

Lemma joinDone_evolves (ssrc : Z) (wasMuteState : MuteState.t)
  (updates : list MTPUpdate) (c : GroupCall) :
  evolves (joinDone ssrc wasMuteState updates c) c.
Proof.
  unfold joinDone, joinDone_capture.
  eapply evolves_trans; [| apply sendSelfUpdate_evolves].
  eapply evolves_trans;
    [| unfold checkFirstTimeJoined; case_match;
       apply evolves_same; reflexivity].
  eapply evolves_trans; [| apply applyQueuedSelfUpdates_evolves].
  eapply evolves_trans; [| apply applyUpdates_evolves].
  eapply evolves_trans; [| apply maybeSendMutedUpdate_evolves].
  eapply evolves_trans; [| apply adds_evolves, applyMeInCallLocally_adds].
  eapply evolves_trans; [| apply setState_evolves;
                           case_decide; split; discriminate].
  apply evolves_same; reflexivity.
Qed.

Lemma joinFail_evolves (type : string) (c : GroupCall) :
  evolves (joinFail type c) c.
Proof.
  unfold joinFail. case_decide; [apply rejoin0_evolves |].
  eapply evolves_trans; [apply hangup_evolves |].
  apply evolves_same; reflexivity.
Qed.

Lemma evolves_if (b : bool) (c1 c2 c : GroupCall) :
  evolves c1 c -> evolves c2 c -> evolves (if b then c1 else c2) c.
Proof. by destruct b. Qed.

Lemma checkFirstTimeJoined_evolves (c : GroupCall) :
  evolves (checkFirstTimeJoined c) c.
Proof.
  unfold checkFirstTimeJoined. case_match; apply evolves_same; reflexivity.
Qed.

Lemma notifyAboutAllowedToSpeak_evolves (c : GroupCall) :
  evolves (notifyAboutAllowedToSpeak c) c.
Proof.
  unfold notifyAboutAllowedToSpeak.
  case_match; apply evolves_same; reflexivity.
Qed.

Lemma assignInstanceState_evolves (instanceState : InstanceState.t)
  (c : GroupCall) :
  evolves (assignInstanceState instanceState c) c.
Proof.
  unfold assignInstanceState, playConnectingSound, stopConnectingSound.
  repeat (first [case_decide | case_match]); apply evolves_same; reflexivity.
Qed.

Lemma setInstanceConnected_evolves (isConnected inTransit : bool)
  (c : GroupCall) :
  evolves (setInstanceConnected isConnected inTransit c) c.
Proof.
  unfold setInstanceConnected. cbv zeta.
  repeat first
    [ apply evolves_refl
    | apply evolves_if
    | eapply evolves_trans; [| apply checkFirstTimeJoined_evolves]
    | eapply evolves_trans; [| apply notifyAboutAllowedToSpeak_evolves]
    | eapply evolves_trans;
        [| apply (setState_evolves State.Joined); split; discriminate]
    | eapply evolves_trans;
        [| apply (setState_evolves State.Connecting); split; discriminate]
    | eapply evolves_trans; [| apply assignInstanceState_evolves]
    | apply evolves_same; reflexivity ].
Qed.

Lemma broadcastPartFinish_evolves (raw : positive) (part : BroadcastPart)
  (c : GroupCall) :
  evolves (broadcastPartFinish raw part c) c.
Proof.
  unfold broadcastPartFinish, LoadPartTask_done.
  repeat case_match; apply evolves_same; reflexivity.
Qed.

Lemma cancelBroadcastParts_evolves (c : GroupCall) :
  evolves (cancelBroadcastParts c) c.
Proof.
  unfold cancelBroadcastParts.
  generalize (map_to_list (_broadcastParts c)). intros l. revert c.
  induction l as [| e l IH]; intros c; simpl; [apply evolves_refl |].
  eapply evolves_trans; [apply api_cancel_evolves | apply IH].
Qed.

Lemma take_request_evolves (id : Z) (c c' : GroupCall) (r : Request) :
  take_request id c = Some (r, c') ->
  (id, r) ∈ apiPending c /\ evolves c' c.
Proof.
  unfold take_request.
  destruct (List.find _ _) as [p |] eqn:Hf; [| discriminate].
  intros [= <- <-]. apply find_some in Hf as [Hin Hid].
  apply bool_decide_eq_true in Hid. apply list_elem_of_In in Hin.
  split.
  - destruct p as [i r']. simpl in *. by subst.
  - split; [by left |]. simpl. intros q Hq.
    apply list_elem_of_filter in Hq as [_ Hq]. by left.
Qed.

(** Every event takes a sound session to a sound session: whatever
    reaches the session, its state is never [Failed] or
    [FailedHangingUp]. *)
Lemma step_sound (IsFloodError : string -> bool) (e : Event)
  (c : GroupCall) :
  sound c -> sound (step IsFloodError e c).
Proof.
  intros Hc. destruct e; simpl.
  - eapply evolves_sound; [exact Hc | apply rejoin0_evolves].
  - destruct (pendingJoinPayloads c); [exact Hc |].
    eapply evolves_sound; [exact Hc |].
    eapply evolves_trans; [| apply api_send_evolves; exact I].
    apply evolves_same; reflexivity.
  - eapply evolves_sound; [exact Hc | apply hangup_evolves].
  - eapply evolves_sound; [exact Hc | apply handleUpdate_evolves].
  - eapply evolves_sound; [exact Hc | apply setInstanceConnected_evolves].
  - eapply evolves_sound; [exact Hc |].
    unfold broadcastPartStart. destruct (tasks c !! raw) as [t |];
      [| apply evolves_refl].
    destruct (api_send _ c) as [requestId c1] eqn:E.
    assert (Hc1 : evolves c1 c).
    { replace c1 with (api_send (MTPupload_GetFile raw (_time t) (_scale t))
                         c).2 by (by rewrite E).
      apply api_send_evolves. exact I. }
    case_match; [exact Hc1 |].
    eapply evolves_trans; [exact Hc1 | apply evolves_same; reflexivity].
  - eapply evolves_sound; [exact Hc |].
    unfold broadcastPartCancel. case_match; [| apply evolves_refl].
    eapply evolves_trans; [apply api_cancel_evolves |].
    apply evolves_same; reflexivity.
  - destruct (take_request id c) as [[r c'] |] eqn:E; [| exact Hc].
    apply take_request_evolves in E as [Hin Hev].
    pose proof (evolves_sound _ _ Hc Hev) as Hc'.
    destruct r.
    + eapply evolves_sound; [exact Hc' | apply joinDone_evolves].
    + destruct Hc as [_ Hp]. specialize (Hp _ Hin).
      unfold leaveEnds in Hp. simpl in Hp. subst finalState.
      eapply evolves_sound; [exact Hc' |]. unfold leaveDone.
      eapply evolves_trans; [apply applyUpdates_evolves |].
      apply setState_evolves. split; discriminate.
    + eapply evolves_sound; [exact Hc' |]. unfold editSelfDone.
      eapply evolves_trans; [| apply applyUpdates_evolves].
      apply evolves_same; reflexivity.
    + eapply evolves_sound; [exact Hc' |]. unfold getFileDone.
      destruct file; apply broadcastPartFinish_evolves.
  - destruct (take_request id c) as [[r c'] |] eqn:E; [| exact Hc].
    apply take_request_evolves in E as [Hin Hev].
    pose proof (evolves_sound _ _ Hc Hev) as Hc'.
    destruct r.
    + eapply evolves_sound; [exact Hc' | apply joinFail_evolves].
    + destruct Hc as [_ Hp]. specialize (Hp _ Hin).
      unfold leaveEnds in Hp. simpl in Hp. subst finalState.
      eapply evolves_sound; [exact Hc' |]. unfold leaveFail.
      apply setState_evolves. split; discriminate.
    + eapply evolves_sound; [exact Hc' |]. unfold editSelfFail.
      case_decide; [| apply evolves_same; reflexivity].
      eapply evolves_trans; [| apply rejoin0_evolves].
      apply evolves_same; reflexivity.
    + eapply evolves_sound; [exact Hc' |]. unfold getFileFail.
      case_decide; [| apply broadcastPartFinish_evolves].
      eapply evolves_trans; [apply cancelBroadcastParts_evolves |].
      eapply evolves_trans;
        [apply (setState_evolves State.Joining); split; discriminate |].
      apply rejoin0_evolves.
Qed.

Lemma run_sound (IsFloodError : string -> bool) (events : list Event)
  (c : GroupCall) :
  sound c -> sound (run IsFloodError events c).
Proof.
  revert c. induction events as [| e l IH]; intros c Hc; [exact Hc |].
  simpl. apply IH. by apply step_sound.
Qed.

Lemma call_joining_sound : sound call_joining.
Proof.
  split; [split; discriminate |]. intros p Hp. by apply elem_of_nil in Hp.
Qed.

(** From the joining session on, no course of events ends in [Failed] or
    [FailedHangingUp]. *)
Lemma never_failed (IsFloodError : string -> bool) (events : list Event) :
  notFailed (_state (run IsFloodError events call_joining)).
Proof. apply run_sound, call_joining_sound. Qed.

(** ** Scenarios *)

(** The spec's scenario for C4: the join succeeds with source 555 while
    the engine reports disconnected, then the engine reports connected. *)
Example join_then_connected :
  let c1 := run (fun _ => false)
              [EvRejoin; EvJoinPayload 555;
               EvDone 1 [] MTPDupload_fileCdnRedirect 0] call_joining in
  let c2 := step (fun _ => false) (EvInstanceConnected true false) c1 in
  _state c1 = State.Connecting /\ _mySsrc c1 = 555
  /\ _state c2 = State.Joined.
Proof. vm_compute. repeat split. Qed.

(** A course of events behind C2: the session is joined with a self edit
    outstanding; the roster reports it left, so it rejoins; the edit then
    fails with [GROUPCALL_FORBIDDEN], so it rejoins again, in [Joining];
    the engine delivers both payloads. *)
Example rejoin_after_left_and_forbidden :
  let c := run (fun _ => false)
             [EvUpdate (MTPDupdateGroupCallParticipants_
                          {| vcall_id := 77;
                             vparticipants := [self_left_555] |});
              EvFail 1 GROUPCALL_FORBIDDEN 0;
              EvJoinPayload 601; EvJoinPayload 602] call_editing in
  _state c = State.Joining /\ length (outstandingJoins c) = 2%nat.
Proof. vm_compute. repeat split. Qed.

(** The spec's scenario for C3: one failure with the duplicate-source
    type gives one new payload request and no toast; a failure with
    another type ends the call with one toast. *)
Example joinFail_samples :
  let dup := step (fun _ => false)
               (EvFail 1 GROUPCALL_SSRC_DUPLICATE_MUCH 0)
               call_joining_555 in
  let other := step (fun _ => false)
                 (EvFail 1 GROUPCALL_PARTICIPANTS_TOO_MUCH 0)
                 call_joining_555 in
  (_state dup = State.Joining /\ pendingJoinPayloads dup = 1%nat
   /\ toasts dup = [])
  /\ (_state other = State.Ended
      /\ toasts other = [lng_group_call_too_many]
      /\ pendingJoinPayloads other = 0%nat).
Proof. vm_compute. repeat split. Qed.

(** Why C9 asks that 0 is not a streaming source: the loop of
    [chooseLargeVideoSsrc] reads 0 as "not set yet", so a speaking source
    0 is passed over. *)
Example chooseLargeVideoSsrc_source_0 :
  chooseLargeVideoSsrc
    (mkGroupCall 77 5 EmptyString State.Joined 555 {[555]} MuteState.Muted
       true true InstanceMode.Rtc InstanceState.Connected false true [] ∅
       0 false false [0; 20] ∅ false (Some real_with_source_0)
       1 [] ∅ 0%nat []) = 20.
Proof. vm_compute. reflexivity. Qed.

(** ** The loop of [applyQueuedSelfUpdates] runs to its end *)

Lemma applySelfUpdate_queue (data : MTPDgroupCallParticipant)
  (c : GroupCall) :
  _queuedSelfUpdates (applySelfUpdate data c) = _queuedSelfUpdates c.
Proof.
  assert (HJ : _queuedSelfUpdates (rejoin0 (setState State.Joining c))
               = _queuedSelfUpdates c).
  { pose proof (setState_frame State.Joining c) as (_ & _ & _ & Hq & _).
    rewrite <- Hq. unfold rejoin0.
    generalize (setState State.Joining c). intros c1.
    destruct (isLive (_state c1)) eqn:H.
    - pose proof (rejoin_honored (_joinAs c1) c1 H). tauto.
    - by rewrite rejoin_ignored. }
  assert (HH : _queuedSelfUpdates (hangup (set_mySsrc 0 c))
               = _queuedSelfUpdates c).
  { pose proof (hangup_spec (set_mySsrc 0 c)). tauto. }
  pose proof (fun m => setMuted_keeps m c) as HM.
  unfold applySelfUpdate.
  repeat (first [case_decide | case_match]);
    first [ exact HJ | exact HH | apply HM | reflexivity | idtac ].
  all: eapply eq_trans; [apply notifyAboutAllowedToSpeak_keeps | apply HM].
Qed.

(** The number of turns given to the loop is enough: it stops because
    the queue is empty or because the session is no longer joined. *)
Lemma applyQueuedSelfUpdates_exit (c : GroupCall) :
  _queuedSelfUpdates (applyQueuedSelfUpdates c) = []
  \/ isJoined (_state (applyQueuedSelfUpdates c)) = false.
Proof.
  unfold applyQueuedSelfUpdates.
  remember (length (_queuedSelfUpdates c)) as n eqn:Hn.
  revert c Hn. induction n as [| n IH]; intros c Hn; simpl.
  - left. by apply nil_length_inv.
  - destruct (_queuedSelfUpdates c) as [| u rest] eqn:Hq; [by left |].
    destruct (isJoined (_state c)) eqn:HJ; [| by right].
    apply IH. rewrite applySelfUpdate_queue. simpl.
    simpl in Hn. congruence.
Qed.

(** ** The race: no deadlock, and both orders *)

Lemma race_progress (s : Race.Task) :
  Race.invariant s -> ~ Race.finished s ->
  exists who s', Race.step who s = Some s'.
Proof.
  unfold Race.invariant, Race.finished.
  destruct s as [st h alive pd pc n m k]. simpl.
  intros (Hp1 & Hp2 & Hh & Hx & _) Hf.
  destruct pd; simpl in *; try discriminate;
    try (exists Race.InDone; simpl; unfold Race.step_done; simpl;
         eauto; fail);
    destruct pc; simpl in *;
    try (exists Race.InCancel; simpl; unfold Race.step_cancel; simpl;
         subst h; eauto; fail);
    try (exists Race.InDone; simpl; unfold Race.step_done; simpl;
         subst h; eauto; fail);
    try discriminate; try tauto.
Qed.

(** [done] first: the callback is called and the cancellation finds
    nothing to cancel. *)
Example race_done_first :
  let s := Race.run
             (replicate 5 Race.InDone ++ replicate 5 Race.InCancel)
             (Race.initial true) in
  Race.finished s /\ Race.called s = 1%nat /\ Race.posted s = 0%nat.
Proof. vm_compute. repeat split. Qed.

(** [cancel] first: nothing is called and the cancellation is posted. *)
Example race_cancel_first :
  let s := Race.run
             (replicate 5 Race.InCancel ++ replicate 5 Race.InDone)
             (Race.initial true) in
  Race.finished s /\ Race.called s = 0%nat /\ Race.posted s = 1%nat.
Proof. vm_compute. repeat split. Qed.

(** [cancel] takes the mutex while [done] waits at its locker. *)
Example race_interleaved :
  let s := Race.run
             [Race.InCancel; Race.InDone; Race.InCancel; Race.InDone;
              Race.InCancel; Race.InCancel; Race.InDone; Race.InCancel;
              Race.InDone; Race.InDone]
             (Race.initial true) in
  Race.finished s /\ Race.called s = 0%nat /\ Race.posted s = 1%nat.
Proof. vm_compute. repeat split. Qed.

(** * Further properties *)

(** ** The lifecycle as a whole *)

(** X1.  Whatever events reach a session whose state is not a failed one
    and whose outstanding leave requests all end in [Ended], its state is
    never [Failed] or [FailedHangingUp] afterwards, and its outstanding
    leave requests still all end in [Ended]: [finish] is only ever
    reached through [hangup]. *)
Theorem failed_states_unreachable (IsFloodError : string -> bool)
  (events : list Event) (c : GroupCall) :
  sound c ->
  _state (run IsFloodError events c) <> State.Failed
  /\ _state (run IsFloodError events c) <> State.FailedHangingUp
  /\ forall id source finalState,
       (id, MTPphone_LeaveGroupCall source finalState)
         ∈ apiPending (run IsFloodError events c) ->
       finalState = State.Ended.
Proof.
  intros Hc. pose proof (run_sound IsFloodError events c Hc) as [[H1 H2] H3].
  split_and!; [exact H1 | exact H2 |].
  intros id source finalState Hin. exact (H3 _ Hin).
Qed.

Lemma failed_states_unreachable_witness :
  _state (run (fun _ => false) [EvHangup] call_joined) <> State.Failed
  /\ _state (run (fun _ => false) [EvHangup] call_joined)
     <> State.FailedHangingUp
  /\ forall id source finalState,
       (id, MTPphone_LeaveGroupCall source finalState)
         ∈ apiPending (run (fun _ => false) [EvHangup] call_joined) ->
       finalState = State.Ended.
Proof.
  apply (failed_states_unreachable (fun _ => false) [EvHangup] call_joined).
  split; [split; discriminate |].
  intros p Hp. by apply elem_of_nil in Hp.
Defined.

(** ** Queued self updates *)

Lemma applySelfUpdate_joinAs_free_queue (data : MTPDgroupCallParticipant)
  (rest : list MTPDgroupCallParticipant) (c : GroupCall) :
  _queuedSelfUpdates
    (applySelfUpdate data (set_queuedSelfUpdates rest c)) = rest.
Proof. by rewrite applySelfUpdate_queue. Qed.

Lemma applyQueuedSelfUpdates_loop_suffix (n : nat) (c : GroupCall) :
  _queuedSelfUpdates (applyQueuedSelfUpdates_loop n c)
    `suffix_of` _queuedSelfUpdates c.
Proof.
  revert c. induction n as [| n IH]; intros c; simpl; [done |].
  destruct (_queuedSelfUpdates c) as [| u rest] eqn:Hq;
    [by rewrite Hq |].
  destruct (isJoined (_state c)); [| by rewrite Hq].
  etrans; [apply IH |].
  rewrite applySelfUpdate_joinAs_free_queue. by apply suffix_cons_r.
Qed.

(** X2.  [applyQueuedSelfUpdates] takes the queued self entries from the
    front, in the order they arrived, and stops only when the queue is
    empty or the session is no longer [Joined] or [Connecting]; what it
    leaves in the queue is the tail of what was there.  The [done]
    handler of the join request therefore ends with an empty queue
    unless an entry took the session out of the joined states. *)
Theorem queued_self_updates_drained (ssrc : Z)
  (wasMuteState : MuteState.t) (updates : list MTPUpdate)
  (c : GroupCall) :
  (_queuedSelfUpdates (applyQueuedSelfUpdates c)
     `suffix_of` _queuedSelfUpdates c
   /\ (_queuedSelfUpdates (applyQueuedSelfUpdates c) = []
       \/ isJoined (_state (applyQueuedSelfUpdates c)) = false))
  /\ (_queuedSelfUpdates (joinDone ssrc wasMuteState updates c) = []
      \/ isJoined (_state (joinDone ssrc wasMuteState updates c)) = false).
Proof.
  split; [split |].
  - apply applyQueuedSelfUpdates_loop_suffix.
  - apply applyQueuedSelfUpdates_exit.
  - unfold joinDone.
    set (c3 := applyUpdates updates _).
    pose proof (applyQueuedSelfUpdates_exit c3) as He.
    pose proof (checkFirstTimeJoined_keeps (applyQueuedSelfUpdates c3))
      as (Ks & _ & _ & Kq & _).
    pose proof (sendSelfUpdate_keeps SendUpdateType.VideoMuted
                  (checkFirstTimeJoined (applyQueuedSelfUpdates c3)))
      as (Ks' & _ & _ & Kq' & _).
    rewrite Ks', Kq', Ks, Kq. exact He.
Qed.

(** An entry that takes the session out of the joined states stops the
    loop: the entries behind it stay queued. *)
Example queued_self_updates_stop :
  let c := applyQueuedSelfUpdates
             (set_queuedSelfUpdates [self_left_555; self_left_555]
                call_joined) in
  _state c = State.Joining /\ _queuedSelfUpdates c = [self_left_555].
Proof. vm_compute. split; reflexivity. Qed.

Lemma handleUpdateParticipants_fold_queue
  (l : list MTPDgroupCallParticipant) (c : GroupCall) :
  let c' :=
    foldl (fun c participant =>
             let isSelf :=
               is_self participant
               || (is_min participant
                   && bool_decide (vpeer participant = _joinAs c)) in
             if negb isSelf then applyOtherParticipantUpdate participant c
             else if false then applySelfUpdate participant c
             else set_queuedSelfUpdates
                    (_queuedSelfUpdates c ++ [participant]) c)
          c l in
  _queuedSelfUpdates c'
  = _queuedSelfUpdates c ++ filter (fun p => isSelfEntry (_joinAs c) p) l
  /\ _joinAs c' = _joinAs c /\ _state c' = _state c
  /\ _mySsrc c' = _mySsrc c /\ _muted c' = _muted c
  /\ apiPending c' = apiPending c
  /\ pendingJoinPayloads c' = pendingJoinPayloads c.
Proof.
  induction l as [| p l IH] using rev_ind; simpl.
  - rewrite app_nil_r. by repeat split.
  - rewrite foldl_app, filter_app. cbv zeta in IH. cbn [foldl].
    match type of IH with
    | _queuedSelfUpdates ?t = _ /\ _ => set (c1 := t) in *
    end.
    clearbody c1. destruct IH as (Hq & Hj & Hs & Hm & Hu & Ha & Hp).
    rewrite filter_cons, filter_nil, Hj.
    fold (isSelfEntry (_joinAs c) p).
    destruct (isSelfEntry (_joinAs c) p) eqn:E; simpl.
    + rewrite Hq, app_assoc. by repeat split.
    + rewrite app_nil_r.
      unfold applyOtherParticipantUpdate.
      repeat case_match; simpl; by repeat split.
Qed.

(** X3.  While the session is not [Joined] or [Connecting], a
    participants update about its call applies none of the entries about
    the local identity: they are appended to the queue in the order of
    the update, and neither the state, the local source id, the mute
    state nor the outstanding requests change. *)
Theorem handleUpdate_queues_before_joined
  (data : MTPDupdateGroupCallParticipants) (c : GroupCall) :
  _id c = vcall_id data -> isJoined (_state c) = false ->
  let c' := handleUpdateParticipants data c in
  _queuedSelfUpdates c'
  = _queuedSelfUpdates c
      ++ filter (fun p => isSelfEntry (_joinAs c) p) (vparticipants data)
  /\ _state c' = _state c /\ _mySsrc c' = _mySsrc c
  /\ _muted c' = _muted c /\ apiPending c' = apiPending c
  /\ pendingJoinPayloads c' = pendingJoinPayloads c.
Proof.
  intros Hid HJ c'. subst c'. unfold handleUpdateParticipants.
  rewrite decide_False by (intros H; by apply H). rewrite HJ.
  pose proof (handleUpdateParticipants_fold_queue (vparticipants data) c)
    as H.
  simpl in H. tauto.
Qed.

Lemma handleUpdate_queues_before_joined_witness :
  let c' := handleUpdateParticipants update_self_and_other
              call_joining_555 in
  _queuedSelfUpdates c'
  = _queuedSelfUpdates call_joining_555
      ++ filter (fun p => isSelfEntry (_joinAs call_joining_555) p)
           (vparticipants update_self_and_other)
  /\ _state c' = _state call_joining_555
  /\ _mySsrc c' = _mySsrc call_joining_555
  /\ _muted c' = _muted call_joining_555
  /\ apiPending c' = apiPending call_joining_555
  /\ pendingJoinPayloads c' = pendingJoinPayloads call_joining_555.
Proof.
  apply (handleUpdate_queues_before_joined update_self_and_other
           call_joining_555); reflexivity.
Defined.

(** ** Connectivity reports *)

Lemma setState_engine_frame (state : State.t) (c : GroupCall) :
  _instanceState (setState state c) = _instanceState c
  /\ _instanceTransitioning (setState state c) = _instanceTransitioning c
  /\ _hadJoinedState (setState state c) = _hadJoinedState c
  /\ _joinAs (setState state c) = _joinAs c
  /\ _joinHash (setState state c) = _joinHash c
  /\ _updateMuteRequestId (setState state c) = _updateMuteRequestId c.
Proof.
  unfold setState, destroyController, stopConnectingSound, emit.
  repeat case_decide; try tauto;
    destruct state; repeat case_match; simpl; tauto.
Qed.

Lemma setInstanceConnected_report (isConnected inTransit : bool)
  (c : GroupCall) :
  let c' := setInstanceConnected isConnected inTransit c in
  _state c'
  = (if bool_decide (_instanceState c
                     = instanceStateOf isConnected inTransit)
        && eqb (_instanceTransitioning c) inTransit
     then _state c
     else if bool_decide (_state c = State.Connecting) && isConnected
     then State.Joined
     else if bool_decide (_state c = State.Joined) && negb isConnected
     then State.Connecting
     else _state c)
  /\ _instanceState c' = instanceStateOf isConnected inTransit
  /\ _instanceTransitioning c' = inTransit
  /\ apiPending c' = apiPending c
  /\ pendingJoinPayloads c' = pendingJoinPayloads c
  /\ _mySsrc c' = _mySsrc c.
Proof.
  unfold setInstanceConnected. cbv zeta.
  change (if negb isConnected then InstanceState.Disconnected
          else if inTransit then InstanceState.TransitionToRtc
          else InstanceState.Connected)
    with (instanceStateOf isConnected inTransit).
  set (is_ := instanceStateOf isConnected inTransit).
  destruct (bool_decide (_instanceState c = is_)
            && eqb (_instanceTransitioning c) inTransit) eqn:Hsame.
  { apply andb_prop in Hsame as [H1 H2].
    apply bool_decide_eq_true in H1. apply eqb_prop in H2.
    by repeat split. }
  set (c1 := assignInstanceState is_ (set_instanceTransitioning inTransit c)).
  assert (H1 : _state c1 = _state c /\ _instanceState c1 = is_
               /\ _instanceTransitioning c1 = inTransit
               /\ apiPending c1 = apiPending c
               /\ pendingJoinPayloads c1 = pendingJoinPayloads c
               /\ _mySsrc c1 = _mySsrc c).
  { subst c1. unfold assignInstanceState, playConnectingSound,
      stopConnectingSound, emit.
    repeat (first [case_decide | case_match]); simpl; by repeat split. }
  clearbody c1. destruct H1 as (S1 & I1 & T1 & A1 & P1 & M1).
  set (c2 := if bool_decide (_state c1 = State.Connecting) && isConnected
             then setState State.Joined c1
             else if bool_decide (_state c1 = State.Joined)
                     && negb isConnected
             then setState State.Connecting c1 else c1).
  assert (H2 : _state c2
               = (if bool_decide (_state c = State.Connecting) && isConnected
                  then State.Joined
                  else if bool_decide (_state c = State.Joined)
                          && negb isConnected
                  then State.Connecting else _state c)
               /\ _instanceState c2 = is_
               /\ _instanceTransitioning c2 = inTransit
               /\ apiPending c2 = apiPending c
               /\ pendingJoinPayloads c2 = pendingJoinPayloads c
               /\ _mySsrc c2 = _mySsrc c).
  { subst c2. rewrite S1.
    pose proof (setState_frame State.Joined c1)
      as (F1 & _ & _ & _ & F2 & F3 & _).
    pose proof (setState_engine_frame State.Joined c1) as (F4 & F5 & _).
    pose proof (setState_frame State.Connecting c1)
      as (G1 & _ & _ & _ & G2 & G3 & _).
    pose proof (setState_engine_frame State.Connecting c1)
      as (G4 & G5 & _).
    destruct (bool_decide (_state c = State.Connecting) && isConnected)
      eqn:E1.
    - apply andb_prop in E1 as [E1 _]. apply bool_decide_eq_true in E1.
      rewrite setState_state, decide_False
        by (rewrite S1, E1; intros [? | [? _]]; discriminate).
      split_and!; congruence.
    - destruct (bool_decide (_state c = State.Joined) && negb isConnected)
        eqn:E2.
      + apply andb_prop in E2 as [E2 _]. apply bool_decide_eq_true in E2.
        rewrite setState_state, decide_False
          by (rewrite S1, E2; intros [? | [? _]]; discriminate).
        split_and!; congruence.
      + split_and!; congruence. }
  clearbody c2. clear c1 S1 I1 T1 A1 P1 M1.
  destruct H2 as (S2 & I2 & T2 & A2 & P2 & M2).
  assert (K : forall (b : bool) (k : GroupCall),
             keeps_engine (if b then notifyAboutAllowedToSpeak k else k) k).
  { intros b k. unfold notifyAboutAllowedToSpeak.
    destruct b; repeat case_match; by repeat split. }
  assert (K' : forall (b : bool) (k : GroupCall),
             keeps_engine (if b then checkFirstTimeJoined k else k) k).
  { intros b k. unfold checkFirstTimeJoined.
    destruct b; repeat case_match; by repeat split. }
  match goal with
  | |- context [if ?b then notifyAboutAllowedToSpeak c2 else c2] =>
      pose proof (K b c2) as K3;
      set (c3 := if b then notifyAboutAllowedToSpeak c2 else c2) in *
  end.
  clearbody c3.
  match goal with
  | |- context [if ?b then checkFirstTimeJoined c3 else c3] =>
      pose proof (K' b c3) as K4;
      set (c4 := if b then checkFirstTimeJoined c3 else c3) in *
  end.
  clearbody c4.
  destruct K3 as (? & ? & ? & ? & ? & ?).
  destruct K4 as (? & ? & ? & ? & ? & ?).
  split_and!; congruence.
Qed.

(** X4.  A connectivity report of the engine moves the session between
    [Connecting] and [Joined] and nowhere else: a connected report takes
    [Connecting] to [Joined], a disconnected one takes [Joined] to
    [Connecting], and in every other state (and for a report that says
    what the last one said) the state stays.  It sends nothing, asks for
    no join payload, and the same report a second time changes nothing
    at all. *)
Theorem setInstanceConnected_moves (isConnected inTransit : bool)
  (c : GroupCall) :
  let c' := setInstanceConnected isConnected inTransit c in
  (_state c <> State.Connecting -> _state c <> State.Joined ->
   _state c' = _state c)
  /\ (_state c = State.Connecting ->
      _state c' = State.Connecting \/ _state c' = State.Joined)
  /\ (_state c = State.Joined ->
      _state c' = State.Connecting \/ _state c' = State.Joined)
  /\ (_instanceState c <> instanceStateOf isConnected inTransit ->
      (_state c = State.Connecting -> isConnected = true ->
       _state c' = State.Joined)
      /\ (_state c = State.Joined -> isConnected = false ->
          _state c' = State.Connecting))
  /\ apiPending c' = apiPending c
  /\ pendingJoinPayloads c' = pendingJoinPayloads c
  /\ setInstanceConnected isConnected inTransit c' = c'.
Proof.
  intros c'.
  pose proof (setInstanceConnected_report isConnected inTransit c)
    as (HS & HI & HT & HA & HP & _).
  fold c' in HS, HI, HT, HA, HP.
  split_and!.
  - intros H1 H2. rewrite HS.
    rewrite (bool_decide_eq_false_2 (_state c = State.Connecting))
      by assumption.
    rewrite (bool_decide_eq_false_2 (_state c = State.Joined))
      by assumption.
    simpl. by case_match.
  - intros H. rewrite HS, H. simpl.
    repeat case_match; tauto.
  - intros H. rewrite HS, H. simpl.
    repeat case_match; tauto.
  - intros Hne.
    rewrite (bool_decide_eq_false_2
               (_instanceState c = instanceStateOf isConnected inTransit))
      in HS by assumption.
    simpl in HS.
    split.
    + intros H ->. rewrite HS, H. reflexivity.
    + intros H ->. rewrite HS, H. reflexivity.
  - exact HA.
  - exact HP.
  - unfold setInstanceConnected at 1. cbv zeta.
    change (if negb isConnected then InstanceState.Disconnected
            else if inTransit then InstanceState.TransitionToRtc
            else InstanceState.Connected)
      with (instanceStateOf isConnected inTransit).
    rewrite HI, HT.
    rewrite bool_decide_eq_true_2 by reflexivity.
    by rewrite eqb_reflx.
Qed.

(** ** Leaving *)

Lemma setState_Ended_eq (c : GroupCall) :
  _state c <> State.Failed -> _state c <> State.FailedHangingUp ->
  _state c <> State.Ended ->
  setState State.Ended c
  = emit GroupCallFinished (destroyController (set_state State.Ended c)).
Proof.
  intros H1 H2 H3. unfold setState.
  repeat case_decide; try tauto; try discriminate; try reflexivity.
  all: exfalso; intuition discriminate.
Qed.

(** X5.  Entering [Ended] destroys the engine instance before the
    delegate is told that the call finished: the session has no instance
    afterwards, and in the trace the destruction (when there was an
    instance) comes right before [GroupCallFinished].  Nothing is sent
    and no sound is played. *)
Theorem setState_Ended_teardown (c : GroupCall) :
  _state c <> State.Failed -> _state c <> State.FailedHangingUp ->
  _state c <> State.Ended ->
  _state (setState State.Ended c) = State.Ended
  /\ _instance (setState State.Ended c) = false
  /\ trace (setState State.Ended c)
     = GroupCallFinished
         :: (if _instance c then [InstanceDestroyed] else []) ++ trace c
  /\ apiPending (setState State.Ended c) = apiPending c.
Proof.
  intros H1 H2 H3. rewrite setState_Ended_eq by assumption.
  unfold destroyController, emit. simpl.
  destruct (_instance c) eqn:Hi; simpl; rewrite ?Hi; by repeat split.
Qed.

Lemma setState_Ended_teardown_witness :
  _state (setState State.Ended call_joined) = State.Ended
  /\ _instance (setState State.Ended call_joined) = false
  /\ trace (setState State.Ended call_joined)
     = GroupCallFinished
         :: (if _instance call_joined then [InstanceDestroyed] else [])
            ++ trace call_joined
  /\ apiPending (setState State.Ended call_joined)
     = apiPending call_joined.
Proof.
  apply (setState_Ended_teardown call_joined); discriminate.
Defined.

Lemma isHungUp_false (s : State.t) :
  isHungUp s = false ->
  s <> State.HangingUp /\ s <> State.FailedHangingUp
  /\ s <> State.Ended /\ s <> State.Failed.
Proof. intros H%bool_decide_eq_false. tauto. Qed.

Lemma hangup_with_source (c : GroupCall) :
  isHungUp (_state c) = false -> _mySsrc c <> 0 ->
  hangup c
  = (api_send (MTPphone_LeaveGroupCall (_mySsrc c) State.Ended)
       (emit (PlaySound GroupCallSound.Ended)
          (set_state State.HangingUp c))).2.
Proof.
  intros (H1 & H2 & H3 & H4)%isHungUp_false Hm.
  unfold hangup, finish_body.
  rewrite !(decide_True (P := FinishType.Ended = FinishType.Ended))
    by reflexivity.
  rewrite decide_False by tauto. rewrite decide_False by assumption.
  unfold setState.
  repeat case_decide; try tauto; try discriminate; try reflexivity.
  all: exfalso; intuition discriminate.
Qed.

Lemma hangup_without_source (c : GroupCall) :
  isHungUp (_state c) = false ->
  _state (hangup (set_mySsrc 0 c)) = State.Ended
  /\ _mySsrc (hangup (set_mySsrc 0 c)) = 0
  /\ apiPending (hangup (set_mySsrc 0 c)) = apiPending c
  /\ _instance (hangup (set_mySsrc 0 c)) = false.
Proof.
  intros (H1 & H2 & H3 & H4)%isHungUp_false.
  unfold hangup, finish_body.
  rewrite !(decide_True (P := FinishType.Ended = FinishType.Ended))
    by reflexivity.
  rewrite decide_False by (simpl; tauto).
  rewrite decide_True by reflexivity.
  rewrite setState_Ended_eq by assumption.
  unfold destroyController, emit. simpl.
  destruct (_instance c) eqn:Hi; simpl; rewrite ?Hi; by repeat split.
Qed.

(** X6.  [hangup] on a session that is not yet hanging up or ended: with
    a local source id the state becomes [HangingUp] and exactly one
    leave request, carrying that source id, is added to the outstanding
    requests; when that request is answered (or fails) the state becomes
    [Ended] and the instance is gone.  Without a local source id the
    state becomes [Ended] at once and nothing is sent.  A second
    [hangup] changes nothing, in any state. *)
Theorem hangup_leaves_once (updates : list MTPUpdate) (c : GroupCall) :
  hangup (hangup c) = hangup c
  /\ (isHungUp (_state c) = false ->
      (_mySsrc c <> 0 ->
       _state (hangup c) = State.HangingUp
       /\ apiPending (hangup c)
          = (apiNextRequestId c,
             MTPphone_LeaveGroupCall (_mySsrc c) State.Ended)
              :: apiPending c
       /\ _state (leaveFail State.Ended (hangup c)) = State.Ended
       /\ _instance (leaveFail State.Ended (hangup c)) = false
       /\ _state (leaveDone State.Ended updates (hangup c)) = State.Ended)
      /\ (_mySsrc c = 0 ->
          _state (hangup c) = State.Ended
          /\ _instance (hangup c) = false
          /\ apiPending (hangup c) = apiPending c)).
Proof.
  split.
  - pose proof (hangup_spec c) as (Hh & _).
    apply bool_decide_eq_true in Hh.
    unfold hangup at 1. unfold finish_body.
    rewrite !(decide_True (P := FinishType.Ended = FinishType.Ended))
      by reflexivity.
    rewrite decide_True by exact Hh. reflexivity.
  - intros Hn. pose proof (isHungUp_false _ Hn) as (H1 & H2 & H3 & H4).
    split.
    + intros Hm. rewrite hangup_with_source by assumption.
      unfold leaveFail.
      rewrite setState_Ended_eq by (simpl; discriminate).
      split_and!; try reflexivity.
      all: try (unfold destroyController, api_send, emit; simpl;
                destruct (_instance c) eqn:Hi; simpl; rewrite ?Hi;
                reflexivity).
      * unfold leaveDone. rewrite setState_state.
        match goal with
        | |- context [applyUpdates updates ?k] =>
            pose proof (applyUpdates_evolves updates k) as [[He | He] _]
        end.
        -- rewrite decide_False; [reflexivity |].
           rewrite He. simpl. intros [? | [? _]]; discriminate.
        -- rewrite decide_False; [reflexivity |].
           destruct He. tauto.
    + intros Hm. unfold hangup, finish_body.
      rewrite !(decide_True (P := FinishType.Ended = FinishType.Ended))
        by reflexivity.
      rewrite decide_False by tauto. rewrite decide_True by assumption.
      pose proof (setState_Ended_teardown c H4 H2 H3). tauto.
Qed.

(** ** A call that is discarded *)

(** X7.  A [groupCallDiscarded] update for the session's call ends the
    session without a leave request: the local source id is cleared
    first, so a session that is not yet hanging up goes straight to
    [Ended].  For another call id the session is left as it is. *)
Theorem handlePossibleDiscarded_ends (vid : Z) (c : GroupCall) :
  (vid <> _id c -> handlePossibleDiscarded vid c = c)
  /\ (vid = _id c -> isHungUp (_state c) = false ->
      _state (handlePossibleDiscarded vid c) = State.Ended
      /\ _mySsrc (handlePossibleDiscarded vid c) = 0
      /\ apiPending (handlePossibleDiscarded vid c) = apiPending c
      /\ _instance (handlePossibleDiscarded vid c) = false).
Proof.
  unfold handlePossibleDiscarded. split.
  - intros H. by rewrite decide_False.
  - intros H Hn. rewrite decide_True by assumption.
    exact (hangup_without_source c Hn).
Qed.

(** ** Mute changes that reach the server, exactly *)

(** X8.  [maybeSendMutedUpdate] sends one self edit exactly for these
    changes of the mute state: Active to Muted, Muted to Active and
    PushToTalk to Active (an edit of the muted flag), ForceMuted to
    RaisedHand and back (an edit of the raised hand).  The edit carries
    the mute state of the moment: muted unless Active, hand raised only
    for RaisedHand.  For every other change nothing is sent. *)
Theorem maybeSendMutedUpdate_sends (previous : MuteState.t)
  (c : GroupCall) :
  sent (maybeSendMutedUpdate previous c)
  = match reachesServer previous (_muted c) with
    | Some type =>
        MTPphone_EditGroupCallParticipant type
          (bool_decide (_muted c <> MuteState.Active))
          (bool_decide (_muted c = MuteState.RaisedHand))
          (negb (_videoOutgoingActive c)) :: sent c
    | None => sent c
    end.
Proof.
  rewrite maybeSendMutedUpdate_exact.
  destruct (reachesServer previous (_muted c)); reflexivity.
Qed.

(** ** Part requests: start and cancel *)

Lemma filter_other_ids (id : Z) (l : list (Z * Request)) :
  (forall p, p ∈ l -> p.1 <> id) ->
  filter (fun p => negb (bool_decide (p.1 = id))) l = l.
Proof.
  induction l as [| q l IH]; intros H; [reflexivity |].
  rewrite filter_cons.
  rewrite decide_True.
  - f_equal. apply IH. intros p Hp. apply H. by right.
  - rewrite bool_decide_eq_false_2; [exact I |]. apply H. by left.
Qed.

(** X9.  A part request that is started and then cancelled leaves no
    mark: starting records the task in [_broadcastParts] under the id of
    the request it sends, cancelling takes that request off the
    outstanding ones and the task out of [_broadcastParts], and nothing
    is delivered to the task.  Cancelling a task that is not in
    [_broadcastParts] does nothing. *)
Theorem broadcastPart_start_then_cancel (raw : positive)
  (t : LoadPartTask) (c : GroupCall) :
  tasks c !! raw = Some t ->
  _broadcastParts c !! raw = None ->
  (forall p, p ∈ apiPending c -> p.1 <> apiNextRequestId c) ->
  let started := broadcastPartStart raw c in
  broadcastPartCancel raw c = c
  /\ _broadcastParts started !! raw = Some (apiNextRequestId c)
  /\ apiPending started
     = (apiNextRequestId c, MTPupload_GetFile raw (_time t) (_scale t))
         :: apiPending c
  /\ _broadcastParts (broadcastPartCancel raw started) = _broadcastParts c
  /\ apiPending (broadcastPartCancel raw started) = apiPending c
  /\ delivered (broadcastPartCancel raw started) = delivered c
  /\ tasks (broadcastPartCancel raw started) = tasks c.
Proof.
  intros Ht Hb Hfresh started.
  assert (Hs : started
               = set_broadcastParts
                   (<[raw := apiNextRequestId c]> (_broadcastParts c))
                   (api_send (MTPupload_GetFile raw (_time t) (_scale t))
                      c).2).
  { subst started. unfold broadcastPartStart. rewrite Ht.
    unfold api_send, emit. simpl. rewrite Hb. reflexivity. }
  split_and!.
  - unfold broadcastPartCancel. by rewrite Hb.
  - rewrite Hs. simpl. apply lookup_insert_eq.
  - rewrite Hs. reflexivity.
  - unfold broadcastPartCancel. rewrite Hs. simpl.
    rewrite lookup_insert_eq. simpl.
    rewrite delete_insert_eq. by apply delete_id.
  - unfold broadcastPartCancel. rewrite Hs. simpl.
    rewrite lookup_insert_eq. simpl.
    rewrite filter_cons. simpl.
    rewrite bool_decide_eq_true_2 by reflexivity. simpl.
    by apply filter_other_ids.
  - unfold broadcastPartCancel. rewrite Hs. simpl.
    rewrite lookup_insert_eq. reflexivity.
  - unfold broadcastPartCancel. rewrite Hs. simpl.
    rewrite lookup_insert_eq. reflexivity.
Qed.

Lemma broadcastPart_start_then_cancel_witness :
  let c := set_tasks {[ 2%positive := {| _time := 2000; _scale := 1;
                                         _done := true |} ]} call_joined in
  let started := broadcastPartStart 2 c in
  broadcastPartCancel 2 c = c
  /\ _broadcastParts started !! 2%positive = Some (apiNextRequestId c)
  /\ apiPending started
     = (apiNextRequestId c, MTPupload_GetFile 2 2000 1) :: apiPending c
  /\ _broadcastParts (broadcastPartCancel 2 started) = _broadcastParts c
  /\ apiPending (broadcastPartCancel 2 started) = apiPending c
  /\ delivered (broadcastPartCancel 2 started) = delivered c
  /\ tasks (broadcastPartCancel 2 started) = tasks c.
Proof.
  apply (broadcastPart_start_then_cancel 2
           {| _time := 2000; _scale := 1; _done := true |}
           (set_tasks {[ 2%positive := {| _time := 2000; _scale := 1;
                                          _done := true |} ]}
              call_joined)).
  - reflexivity.
  - reflexivity.
  - intros p Hp. by apply elem_of_nil in Hp.
Defined.

(** ** What a self entry does to the mute state *)

Lemma setMuted_sets (mute : MuteState.t) (c : GroupCall) :
  mute <> MuteState.Active -> mute <> MuteState.PushToTalk ->
  _muted (setMuted mute c) = mute.
Proof.
  intros H1 H2. unfold setMuted. rewrite decide_False by tauto.
  unfold setMuted_set.
  assert (Ha : _muted (assignMuted mute c) = mute).
  { unfold assignMuted. case_decide as Hm; [exact Hm |].
    destruct (_instance (set_muted mute c)); case_match;
      rewrite ?maybeSendMutedUpdate_exact; repeat case_match; reflexivity. }
  case_match; [| exact Ha].
  pose proof (adds_frame _ _ (applyMeInCallLocally_adds (assignMuted mute c)))
    as (_ & _ & _ & Hm & _).
  by rewrite Hm.
Qed.

(** X10.  A self entry for the local source id that is not marked left
    and says muted is obeyed: if it takes the right to unmute away, the
    mute state becomes [RaisedHand] when a raise-hand rating comes with
    it and [ForceMuted] otherwise; if it leaves that right and the
    session is not in stream mode, the mute state becomes [Muted].  Either
    way the microphone is not left open ([Active] or [PushToTalk]), and
    the lifecycle state stays.  And a session that was force-muted or had
    its hand raised becomes [Muted], never [Active], when the entry gives
    the right to unmute back outside stream mode. *)
Theorem applySelfUpdate_obeys_server_mute
  (data : MTPDgroupCallParticipant) (c : GroupCall) :
  is_left data = false -> uint32 (vsource data) = _mySsrc c ->
  let c' := applySelfUpdate data c in
  (is_muted data = true -> is_can_self_unmute data = false ->
   _muted c' = (if decide (default 0 (vraise_hand_rating data) <> 0)
                then MuteState.RaisedHand else MuteState.ForceMuted)
   /\ _state c' = _state c)
  /\ (is_muted data = true -> is_can_self_unmute data = true ->
      _instanceMode c <> InstanceMode.Stream ->
      _muted c' = MuteState.Muted /\ _state c' = _state c)
  /\ (is_muted data && negb (is_can_self_unmute data) = false ->
      _instanceMode c <> InstanceMode.Stream ->
      _muted c = MuteState.ForceMuted \/ _muted c = MuteState.RaisedHand ->
      _muted c' = MuteState.Muted /\ _state c' = _state c).
Proof.
  intros Hl Hs c'. subst c'. unfold applySelfUpdate. rewrite Hl.
  rewrite (decide_False (P := uint32 (vsource data) <> _mySsrc c))
    by tauto.
  assert (HM : _muted (setMuted MuteState.Muted c) = MuteState.Muted
               /\ _state (setMuted MuteState.Muted c) = _state c).
  { split; [by apply setMuted_sets | apply setMuted_keeps]. }
  assert (HN : _muted (notifyAboutAllowedToSpeak
                         (setMuted MuteState.Muted c)) = MuteState.Muted
               /\ _state (notifyAboutAllowedToSpeak
                            (setMuted MuteState.Muted c)) = _state c).
  { unfold notifyAboutAllowedToSpeak. case_match; simpl; exact HM. }
  split_and!.
  - intros Hm Hc. rewrite Hm, Hc. simpl. split.
    + apply setMuted_sets; case_decide; discriminate.
    + apply setMuted_keeps.
  - intros Hm Hc Hmode. rewrite Hm, Hc. simpl.
    rewrite decide_False by assumption.
    case_decide as Hf.
    + case_match; [exact HN | exact HM].
    + case_bool_decide as Hmu; [exact HM |].
      split; [| reflexivity].
      destruct (decide (_muted c = MuteState.Muted)); tauto.
  - intros Hb Hmode Hf. rewrite Hb.
    rewrite decide_False by assumption.
    rewrite decide_True by assumption.
    case_match; [exact HN | exact HM].
Qed.

Lemma applySelfUpdate_obeys_server_mute_witness :
  let data := {| is_left := false; is_self := true; is_min := false;
                 is_muted := true; is_can_self_unmute := false;
                 is_muted_by_you := false; vpeer := 5; vsource := 555;
                 vvolume := None; vraise_hand_rating := Some 3 |} in
  _muted (applySelfUpdate data call_joined) = MuteState.RaisedHand
  /\ _state (applySelfUpdate data call_joined) = State.Joined.
Proof.
  intros data.
  refine (proj1 (applySelfUpdate_obeys_server_mute data call_joined
                   eq_refl eq_refl) eq_refl eq_refl).
Defined.

(** ** Rejoining with an invite hash *)

Lemma adds_identity (c' c : GroupCall) :
  adds c' c ->
  _joinAs c' = _joinAs c /\ _joinHash c' = _joinHash c
  /\ _updateMuteRequestId c' = _updateMuteRequestId c.
Proof. intros (es & _ & ->). by repeat split. Qed.

Lemma rejoin_identity (as_ : Z) (c : GroupCall) :
  isLive (_state c) = true ->
  _joinAs (rejoin as_ c) = as_ /\ _joinHash (rejoin as_ c) = _joinHash c
  /\ _updateMuteRequestId (rejoin as_ c) = _updateMuteRequestId c.
Proof.
  intros H. apply isLive_spec in H. unfold rejoin.
  case_decide; [tauto |].
  set (c0 := set_initialMuteStateSent false (set_mySsrc 0 c)).
  pose proof (setState_engine_frame State.Joining c0)
    as (_ & _ & _ & _ & Fh & Fu).
  revert Fh Fu. generalize (setState State.Joining c0). intros c1 Fh Fu.
  pose proof (adds_identity _ _ (ensureControllerCreated_spec c1))
    as (_ & Eh & Eu).
  revert Eh Eu. generalize (ensureControllerCreated c1). intros c2 Eh Eu.
  unfold setInstanceMode.
  pose proof (adds_identity _ _ (applyMeInCallLocally_adds
    (emit (InstanceSetConnectionMode InstanceMode.None)
       (set_instanceMode InstanceMode.None c2)))) as (_ & Ah & Au).
  revert Ah Au. generalize (applyMeInCallLocally
    (emit (InstanceSetConnectionMode InstanceMode.None)
       (set_instanceMode InstanceMode.None c2))). intros c3 Ah Au.
  simpl in *. split_and!; congruence.
Qed.

(** X11.  [rejoinWithHash] acts only for a non-empty hash while the mute
    state is [ForceMuted] or [RaisedHand]; otherwise the session is left
    as it is.  When it acts on a live session the hash is stored, the
    session rejoins, and the join request that goes out with the
    engine's payload carries that hash. *)
Theorem rejoinWithHash_carries_hash (hash : string) (payload_ssrc : Z)
  (c : GroupCall) :
  (hash = EmptyString
   \/ (_muted c <> MuteState.ForceMuted /\ _muted c <> MuteState.RaisedHand)
   -> rejoinWithHash hash c = c)
  /\ (hash <> EmptyString ->
      _muted c = MuteState.ForceMuted \/ _muted c = MuteState.RaisedHand ->
      isLive (_state c) = true ->
      _state (rejoinWithHash hash c) = State.Joining
      /\ _joinHash (rejoinWithHash hash c) = hash
      /\ pendingJoinPayloads (rejoinWithHash hash c)
         = S (pendingJoinPayloads c)
      /\ outstandingJoins
           (joinPayloadReceived payload_ssrc (rejoinWithHash hash c))
         = (apiNextRequestId c,
            MTPphone_JoinGroupCall payload_ssrc (_muted c) true
              (_joinAs c) hash) :: outstandingJoins c).
Proof.
  unfold rejoinWithHash. split.
  - intros [-> | [H1 H2]].
    + by rewrite bool_decide_eq_false_2 by tauto.
    + rewrite (bool_decide_eq_false_2
                 (_muted c = MuteState.ForceMuted
                  \/ _muted c = MuteState.RaisedHand)) by tauto.
      by rewrite andb_false_r.
  - intros Hh Hm Hl.
    rewrite !bool_decide_eq_true_2 by assumption. simpl.
    unfold rejoin0.
    pose proof (rejoin_honored (_joinAs (set_joinHash hash c))
                  (set_joinHash hash c) Hl)
      as (Rs & _ & _ & Rm & _ & Rp & Ra & Rn & _).
    pose proof (rejoin_identity (_joinAs (set_joinHash hash c))
                  (set_joinHash hash c) Hl) as (Ia & Ih & _).
    revert Rs Rm Rp Ra Rn Ia Ih.
    generalize (rejoin (_joinAs (set_joinHash hash c))
                  (set_joinHash hash c)).
    intros c1 Rs Rm Rp Ra Rn Ia Ih. simpl in *.
    split_and!; try assumption.
    unfold outstandingJoins, joinPayloadReceived, api_send, emit. simpl.
    rewrite filter_cons. simpl. rewrite Rn, Rm, Ia, Ih, Ra.
    rewrite bool_decide_eq_true_2; [reflexivity |].
    destruct Hm as [-> | ->]; discriminate.
Qed.

(** ** At most one self edit is outstanding *)

Lemma tracks_refl (c : GroupCall) : tracks c c.
Proof. by intros H. Qed.

Lemma tracks_trans (c1 c2 c3 : GroupCall) :
  tracks c2 c1 -> tracks c3 c2 -> tracks c3 c1.
Proof. unfold tracks. tauto. Qed.

Lemma tracks_same (c' c : GroupCall) :
  apiPending c' = apiPending c ->
  apiNextRequestId c' = apiNextRequestId c ->
  _updateMuteRequestId c' = _updateMuteRequestId c ->
  tracks c' c.
Proof.
  intros Hp Hn Hu (H1 & H2 & H3). unfold editsTracked.
  rewrite Hp, Hn, Hu. tauto.
Qed.

Lemma tracks_if (b : bool) (c1 c2 c : GroupCall) :
  tracks c1 c -> tracks c2 c -> tracks (if b then c1 else c2) c.
Proof. by destruct b. Qed.

Lemma adds_tracks (c' c : GroupCall) : adds c' c -> tracks c' c.
Proof. intros (es & _ & ->). by apply tracks_same. Qed.

Lemma setState_tracks (state : State.t) (c : GroupCall) :
  tracks (setState state c) c.
Proof.
  pose proof (setState_frame state c) as (_ & _ & _ & _ & _ & Hp & Hn & _).
  pose proof (setState_engine_frame state c) as (_ & _ & _ & _ & _ & Hu).
  by apply tracks_same.
Qed.

Lemma NoDup_fst_filter (P : Z * Request -> bool) (l : list (Z * Request)) :
  NoDup l.*1 -> NoDup (filter P l).*1.
Proof.
  induction l as [| q l IH]; intros H; [constructor |].
  rewrite fmap_cons in H. apply NoDup_cons in H as [Hq Hl].
  rewrite filter_cons. case_decide; [| by apply IH].
  rewrite fmap_cons. apply NoDup_cons. split; [| by apply IH].
  intros Hin. apply Hq.
  apply list_elem_of_fmap in Hin as (p & -> & Hp).
  apply list_elem_of_filter in Hp as [_ Hp].
  apply list_elem_of_fmap. by exists p.
Qed.

Lemma api_send_tracks (r : Request) (c : GroupCall) :
  isEditRequest (apiNextRequestId c, r) = false ->
  tracks (api_send r c).2 c.
Proof.
  intros Hr (H1 & H2 & H3). unfold editsTracked. simpl. split_and!.
  - intros p Hp. apply elem_of_cons in Hp as [-> | Hp]; simpl; [lia |].
    specialize (H1 p Hp). lia.
  - apply NoDup_cons. split; [| exact H2].
    intros Hin. apply list_elem_of_fmap in Hin as (p & Hid & Hp).
    specialize (H1 p Hp). lia.
  - intros p Hp He. apply elem_of_cons in Hp as [-> | Hp];
      [congruence | by apply H3].
Qed.

Lemma api_cancel_tracks (id : Z) (c : GroupCall) :
  tracks (api_cancel id c) c.
Proof.
  intros (H1 & H2 & H3). unfold editsTracked. simpl. split_and!.
  - intros p Hp. apply list_elem_of_filter in Hp as [_ Hp]. by apply H1.
  - by apply NoDup_fst_filter.
  - intros p Hp He. apply list_elem_of_filter in Hp as [_ Hp]. by apply H3.
Qed.

(** [sendSelfUpdate] replaces the outstanding self edit by the new one. *)
Lemma sendSelfUpdate_replaces (type : SendUpdateType.t) (c : GroupCall) :
  editsTracked c ->
  editsTracked (sendSelfUpdate type c)
  /\ outstandingEdits (sendSelfUpdate type c)
     = [(apiNextRequestId c,
         MTPphone_EditGroupCallParticipant type
           (bool_decide (_muted c <> MuteState.Active))
           (bool_decide (_muted c = MuteState.RaisedHand))
           (negb (_videoOutgoingActive c)))].
Proof.
  intros (H1 & H2 & H3).
  assert (Hnone : filter isEditRequest
                    (filter (fun p => negb (bool_decide
                                              (p.1 = _updateMuteRequestId c)))
                       (apiPending c)) = []).
  { destruct (filter isEditRequest _) as [| p l] eqn:E; [reflexivity |].
    exfalso.
    assert (Hp : p ∈ p :: l) by (by left). rewrite <- E in Hp.
    apply list_elem_of_filter in Hp as [He Hp].
    apply list_elem_of_filter in Hp as [Hid Hp].
    rewrite (H3 p Hp) in Hid by (by apply Is_true_true).
    by rewrite bool_decide_eq_true_2 in Hid. }
  split.
  - unfold editsTracked. simpl. split_and!.
    + intros p Hp. apply elem_of_cons in Hp as [-> | Hp]; simpl; [lia |].
      apply list_elem_of_filter in Hp as [_ Hp]. specialize (H1 p Hp). lia.
    + apply NoDup_cons. split; [| by apply NoDup_fst_filter].
      intros Hin. apply list_elem_of_fmap in Hin as (p & Hid & Hp).
      apply list_elem_of_filter in Hp as [_ Hp].
      specialize (H1 p Hp). lia.
    + intros p Hp He. apply elem_of_cons in Hp as [-> | Hp];
        [reflexivity |].
      exfalso.
      assert (Hin : p ∈ filter isEditRequest
                (filter (fun p => negb (bool_decide
                                          (p.1 = _updateMuteRequestId c)))
                   (apiPending c))).
      { apply list_elem_of_filter. split; [by apply Is_true_true | exact Hp]. }
      rewrite Hnone in Hin. by apply elem_of_nil in Hin.
  - unfold outstandingEdits. simpl. rewrite filter_cons. simpl.
    by rewrite Hnone.
Qed.

Lemma sendSelfUpdate_tracks (type : SendUpdateType.t) (c : GroupCall) :
  tracks (sendSelfUpdate type c) c.
Proof. intros H. by apply sendSelfUpdate_replaces. Qed.

Lemma maybeSendMutedUpdate_tracks (previous : MuteState.t)
  (c : GroupCall) :
  tracks (maybeSendMutedUpdate previous c) c.
Proof.
  unfold maybeSendMutedUpdate.
  repeat case_decide;
    first [apply sendSelfUpdate_tracks | apply tracks_refl].
Qed.

Lemma assignMuted_tracks (mute : MuteState.t) (c : GroupCall) :
  tracks (assignMuted mute c) c.
Proof.
  unfold assignMuted. case_decide; [apply tracks_refl |].
  assert (H1 : tracks (if _instance (set_muted mute c)
                       then updateInstanceMuteState (set_muted mute c)
                       else set_muted mute c) c).
  { case_match; apply tracks_same; reflexivity. }
  revert H1. generalize (if _instance (set_muted mute c)
                         then updateInstanceMuteState (set_muted mute c)
                         else set_muted mute c).
  intros c1 H1. case_match; [| exact H1].
  eapply tracks_trans; [| apply maybeSendMutedUpdate_tracks].
  eapply tracks_trans; [exact H1 | apply tracks_same; reflexivity].
Qed.

Lemma setMuted_tracks (mute : MuteState.t) (c : GroupCall) :
  tracks (setMuted mute c) c.
Proof.
  unfold setMuted, setMuted_set.
  case_decide; [apply tracks_same; reflexivity |].
  case_match; [| apply assignMuted_tracks].
  eapply tracks_trans; [apply assignMuted_tracks |].
  apply adds_tracks, applyMeInCallLocally_adds.
Qed.

Lemma rejoin_tracks (as_ : Z) (c : GroupCall) : tracks (rejoin as_ c) c.
Proof.
  destruct (isLive (_state c)) eqn:H.
  - pose proof (rejoin_honored as_ c H)
      as (_ & _ & _ & _ & _ & _ & Hp & Hn & _).
    pose proof (rejoin_identity as_ c H) as (_ & _ & Hu).
    by apply tracks_same.
  - rewrite rejoin_ignored by assumption. apply tracks_refl.
Qed.

Lemma rejoin0_tracks (c : GroupCall) : tracks (rejoin0 c) c.
Proof. unfold rejoin0. apply rejoin_tracks. Qed.

Lemma hangup_tracks (c : GroupCall) : tracks (hangup c) c.
Proof.
  unfold hangup, finish_body.
  rewrite !(decide_True (P := FinishType.Ended = FinishType.Ended))
    by reflexivity.
  case_decide; [apply tracks_refl |].
  case_decide; [apply setState_tracks |].
  eapply tracks_trans; [apply (setState_tracks State.HangingUp) |].
  apply api_send_tracks. reflexivity.
Qed.

Lemma notifyAboutAllowedToSpeak_tracks (c : GroupCall) :
  tracks (notifyAboutAllowedToSpeak c) c.
Proof.
  unfold notifyAboutAllowedToSpeak.
  case_match; apply tracks_same; reflexivity.
Qed.

Lemma applySelfUpdate_tracks (data : MTPDgroupCallParticipant)
  (c : GroupCall) :
  tracks (applySelfUpdate data c) c.
Proof.
  assert (HJ : tracks (rejoin0 (setState State.Joining c)) c).
  { eapply tracks_trans; [apply (setState_tracks State.Joining) |].
    apply rejoin0_tracks. }
  assert (HH : tracks (hangup (set_mySsrc 0 c)) c).
  { eapply tracks_trans; [| apply hangup_tracks].
    apply tracks_same; reflexivity. }
  pose proof (fun m => setMuted_tracks m c) as HM.
  unfold applySelfUpdate.
  repeat (first [case_decide | case_match]);
    first [ exact HJ | exact HH | apply HM | apply tracks_refl | idtac ].
  all: eapply tracks_trans; [apply HM |];
    apply notifyAboutAllowedToSpeak_tracks.
Qed.

Lemma applyOtherParticipantUpdate_tracks
  (data : MTPDgroupCallParticipant) (c : GroupCall) :
  tracks (applyOtherParticipantUpdate data c) c.
Proof.
  unfold applyOtherParticipantUpdate.
  repeat case_match; apply tracks_same; reflexivity.
Qed.

Lemma handleUpdate_tracks (update : MTPUpdate) (c : GroupCall) :
  tracks (handleUpdate update c) c.
Proof.
  destruct update as [[vid | vid] | data]; simpl; [apply tracks_refl | |].
  - unfold handlePossibleDiscarded. case_decide; [| apply tracks_refl].
    eapply tracks_trans; [| apply hangup_tracks].
    apply tracks_same; reflexivity.
  - unfold handleUpdateParticipants. case_decide; [apply tracks_refl |].
    generalize (isJoined (_state c)). intros joined.
    generalize (vparticipants data). intros l.
    induction l as [| p l IH] using rev_ind; [apply tracks_refl |].
    rewrite foldl_app. simpl.
    eapply tracks_trans; [exact IH |].
    repeat case_match;
      first [ apply applySelfUpdate_tracks
            | apply applyOtherParticipantUpdate_tracks
            | apply tracks_same; reflexivity ].
Qed.

Lemma applyUpdates_tracks (updates : list MTPUpdate) (c : GroupCall) :
  tracks (applyUpdates updates c) c.
Proof.
  unfold applyUpdates.
  eapply tracks_trans;
    [apply (tracks_same (emit ApplyUpdates c) c); reflexivity |].
  generalize (emit ApplyUpdates c). clear c.
  induction updates as [| u l IH]; intros c; simpl; [apply tracks_refl |].
  eapply tracks_trans; [apply handleUpdate_tracks | apply IH].
Qed.

Lemma applyQueuedSelfUpdates_tracks (c : GroupCall) :
  tracks (applyQueuedSelfUpdates c) c.
Proof.
  unfold applyQueuedSelfUpdates.
  generalize (length (_queuedSelfUpdates c)). intros n. revert c.
  induction n as [| n IH]; intros c; simpl; [apply tracks_refl |].
  repeat case_match; try apply tracks_refl.
  eapply tracks_trans; [| apply IH].
  eapply tracks_trans; [| apply applySelfUpdate_tracks].
  apply tracks_same; reflexivity.
Qed.

Lemma checkFirstTimeJoined_tracks (c : GroupCall) :
  tracks (checkFirstTimeJoined c) c.
Proof.
  unfold checkFirstTimeJoined. case_match; apply tracks_same; reflexivity.
Qed.

Lemma joinDone_tracks (ssrc : Z) (wasMuteState : MuteState.t)
  (updates : list MTPUpdate) (c : GroupCall) :
  tracks (joinDone ssrc wasMuteState updates c) c.
Proof.
  unfold joinDone, joinDone_capture.
  eapply tracks_trans; [| apply sendSelfUpdate_tracks].
  eapply tracks_trans; [| apply checkFirstTimeJoined_tracks].
  eapply tracks_trans; [| apply applyQueuedSelfUpdates_tracks].
  eapply tracks_trans; [| apply applyUpdates_tracks].
  eapply tracks_trans; [| apply maybeSendMutedUpdate_tracks].
  eapply tracks_trans; [| apply adds_tracks, applyMeInCallLocally_adds].
  eapply tracks_trans; [| apply setState_tracks].
  apply tracks_same; reflexivity.
Qed.

Lemma joinFail_tracks (type : string) (c : GroupCall) :
  tracks (joinFail type c) c.
Proof.
  unfold joinFail. case_decide; [apply rejoin0_tracks |].
  eapply tracks_trans; [apply hangup_tracks |].
  apply tracks_same; reflexivity.
Qed.

Lemma assignInstanceState_tracks (instanceState : InstanceState.t)
  (c : GroupCall) :
  tracks (assignInstanceState instanceState c) c.
Proof.
  unfold assignInstanceState, playConnectingSound, stopConnectingSound.
  repeat (first [case_decide | case_match]); apply tracks_same; reflexivity.
Qed.

Lemma setInstanceConnected_tracks (isConnected inTransit : bool)
  (c : GroupCall) :
  tracks (setInstanceConnected isConnected inTransit c) c.
Proof.
  unfold setInstanceConnected. cbv zeta.
  repeat first
    [ apply tracks_refl
    | apply tracks_if
    | eapply tracks_trans; [| apply checkFirstTimeJoined_tracks]
    | eapply tracks_trans; [| apply notifyAboutAllowedToSpeak_tracks]
    | eapply tracks_trans; [| apply (setState_tracks State.Joined)]
    | eapply tracks_trans; [| apply (setState_tracks State.Connecting)]
    | eapply tracks_trans; [| apply assignInstanceState_tracks]
    | apply tracks_same; reflexivity ].
Qed.

Lemma broadcastPartFinish_tracks (raw : positive) (part : BroadcastPart)
  (c : GroupCall) :
  tracks (broadcastPartFinish raw part c) c.
Proof.
  unfold broadcastPartFinish, LoadPartTask_done.
  repeat case_match; apply tracks_same; reflexivity.
Qed.

Lemma cancelBroadcastParts_tracks (c : GroupCall) :
  tracks (cancelBroadcastParts c) c.
Proof.
  unfold cancelBroadcastParts.
  generalize (map_to_list (_broadcastParts c)). intros l. revert c.
  induction l as [| e l IH]; intros c; simpl; [apply tracks_refl |].
  eapply tracks_trans; [apply api_cancel_tracks | apply IH].
Qed.

(** The answered request leaves the outstanding ones; when it is a self
    edit, no self edit stays outstanding. *)
Lemma take_request_tracks (id : Z) (c c' : GroupCall) (r : Request) :
  take_request id c = Some (r, c') ->
  editsTracked c ->
  editsTracked c'
  /\ (isEditRequest (id, r) = true ->
      forall u, editsTracked (set_updateMuteRequestId u c')).
Proof.
  unfold take_request.
  destruct (List.find _ _) as [p |] eqn:Hf; [| discriminate].
  intros [= <- <-] (H1 & H2 & H3).
  apply find_some in Hf as [Hin Hid].
  apply bool_decide_eq_true in Hid. apply list_elem_of_In in Hin.
  assert (Hc' : editsTracked
                  (set_apiPending
                     (filter (fun p => negb (bool_decide (p.1 = id)))
                        (apiPending c)) c)).
  { unfold editsTracked. simpl. split_and!.
    - intros q Hq. apply list_elem_of_filter in Hq as [_ Hq]. by apply H1.
    - by apply NoDup_fst_filter.
    - intros q Hq He. apply list_elem_of_filter in Hq as [_ Hq].
      by apply H3. }
  split; [exact Hc' |].
  intros He u. destruct Hc' as (K1 & K2 & K3).
  unfold editsTracked. simpl in *. split_and!; [exact K1 | exact K2 |].
  intros q Hq Heq. exfalso.
  apply list_elem_of_filter in Hq as [Hne Hq].
  assert (Hp : p.1 = _updateMuteRequestId c).
  { apply H3; [exact Hin |]. destruct p as [i r']. exact He. }
  rewrite (H3 q Hq Heq), <- Hp, Hid in Hne.
  by rewrite bool_decide_eq_true_2 in Hne.
Qed.

Lemma step_tracks (IsFloodError : string -> bool) (e : Event)
  (c : GroupCall) :
  tracks (step IsFloodError e c) c.
Proof.
  destruct e; simpl.
  - apply rejoin0_tracks.
  - destruct (pendingJoinPayloads c); [apply tracks_refl |].
    eapply tracks_trans; [| apply api_send_tracks; reflexivity].
    apply tracks_same; reflexivity.
  - apply hangup_tracks.
  - apply handleUpdate_tracks.
  - apply setInstanceConnected_tracks.
  - unfold broadcastPartStart. destruct (tasks c !! raw) as [t |];
      [| apply tracks_refl].
    destruct (api_send _ c) as [requestId c1] eqn:E.
    assert (Hc1 : tracks c1 c).
    { replace c1 with (api_send (MTPupload_GetFile raw (_time t) (_scale t))
                         c).2 by (by rewrite E).
      apply api_send_tracks. reflexivity. }
    case_match; [exact Hc1 |].
    eapply tracks_trans; [exact Hc1 | apply tracks_same; reflexivity].
  - unfold broadcastPartCancel. case_match; [| apply tracks_refl].
    eapply tracks_trans; [apply api_cancel_tracks |].
    apply tracks_same; reflexivity.
  - intros Hc.
    destruct (take_request id c) as [[r c'] |] eqn:E; [| exact Hc].
    destruct (take_request_tracks _ _ _ _ E Hc) as [Hc' Hedit].
    destruct r.
    + by apply joinDone_tracks.
    + unfold leaveDone. apply (setState_tracks finalState).
      by apply (applyUpdates_tracks updates).
    + unfold editSelfDone. apply (applyUpdates_tracks updates).
      by apply Hedit.
    + unfold getFileDone.
      destruct file; by apply (broadcastPartFinish_tracks _ _ _).
  - intros Hc.
    destruct (take_request id c) as [[r c'] |] eqn:E; [| exact Hc].
    destruct (take_request_tracks _ _ _ _ E Hc) as [Hc' Hedit].
    destruct r.
    + by apply joinFail_tracks.
    + unfold leaveFail. by apply (setState_tracks finalState).
    + unfold editSelfFail. cbv zeta.
      case_decide; [apply (rejoin0_tracks _) |]; by apply Hedit.
    + unfold getFileFail.
      case_decide; [| by apply (broadcastPartFinish_tracks _ _ _)].
      apply (rejoin0_tracks _), (setState_tracks State.Joining).
      by apply (cancelBroadcastParts_tracks c').
Qed.

Lemma editsTracked_at_most_one (c : GroupCall) :
  editsTracked c -> (length (outstandingEdits c) <= 1)%nat.
Proof.
  intros (_ & H2 & H3).
  assert (Hn : NoDup (outstandingEdits c).*1)
    by (by apply NoDup_fst_filter).
  assert (Ha : forall p, p ∈ outstandingEdits c ->
                         p.1 = _updateMuteRequestId c).
  { intros p Hp. apply list_elem_of_filter in Hp as [He Hp].
    apply H3; [exact Hp | by apply Is_true_true]. }
  destruct (outstandingEdits c) as [| a [| b l]]; simpl; [lia | lia |].
  exfalso. rewrite !fmap_cons in Hn.
  apply NoDup_cons in Hn as [Hn _]. apply Hn.
  rewrite (Ha a) by (by left).
  rewrite <- (Ha b) by (right; by left). by left.
Qed.

(** X12.  Self edits are debounced: from a session whose request ids are
    in order (handed out below the next id, distinct, every outstanding
    self edit named by [_updateMuteRequestId]), whatever events follow,
    the ids stay in order and at most one self edit is outstanding.  A
    new self edit cancels the one before it, and the answer to a self
    edit leaves none. *)
Theorem one_self_edit_outstanding (IsFloodError : string -> bool)
  (events : list Event) (c : GroupCall) :
  editsTracked c ->
  editsTracked (run IsFloodError events c)
  /\ (length (outstandingEdits (run IsFloodError events c)) <= 1)%nat.
Proof.
  intros Hc.
  assert (H : editsTracked (run IsFloodError events c)).
  { revert c Hc. induction events as [| e l IH]; intros c Hc; [exact Hc |].
    simpl. apply IH. by apply step_tracks. }
  split; [exact H | by apply editsTracked_at_most_one].
Qed.

Lemma one_self_edit_outstanding_witness :
  editsTracked
    (run (fun _ => false)
       [EvRejoin; EvJoinPayload 555; EvDone 1 [] MTPDupload_fileCdnRedirect 0]
       call_editing)
  /\ (length (outstandingEdits
                (run (fun _ => false)
                   [EvRejoin; EvJoinPayload 555;
                    EvDone 1 [] MTPDupload_fileCdnRedirect 0]
                   call_editing)) <= 1)%nat.
Proof.
  apply (one_self_edit_outstanding (fun _ => false)
           [EvRejoin; EvJoinPayload 555;
            EvDone 1 [] MTPDupload_fileCdnRedirect 0] call_editing).
  unfold editsTracked. vm_compute. split_and!.
  - intros p Hp. apply list_elem_of_singleton in Hp as ->. reflexivity.
  - apply NoDup_singleton.
  - intros p Hp _. apply list_elem_of_singleton in Hp as ->. reflexivity.
Defined.

(** ** An ended session stays ended *)

Lemma idle_refl (c : GroupCall) : idle c c.
Proof. by repeat split. Qed.

Lemma idle_trans (c1 c2 c3 : GroupCall) :
  idle c2 c1 -> idle c3 c2 -> idle c3 c1.
Proof.
  intros (A1 & A2 & A3 & A4) (B1 & B2 & B3 & B4).
  split_and!; [congruence | | congruence | congruence].
  intros p Hp. by apply A2, B2.
Qed.

Lemma idle_same (c' c : GroupCall) :
  _state c' = _state c -> apiPending c' = apiPending c ->
  pendingJoinPayloads c' = pendingJoinPayloads c -> sent c' = sent c ->
  idle c' c.
Proof.
  intros H1 H2 H3 H4. split_and!; try assumption.
  intros p. by rewrite H2.
Qed.

Lemma idle_atRest (c' c : GroupCall) : idle c' c -> atRest c -> atRest c'.
Proof.
  intros (A1 & A2 & A3 & _) (B1 & B2 & B3).
  split_and!; [congruence | congruence |].
  intros p Hp. by apply B3, A2.
Qed.

Lemma hangup_idle (c : GroupCall) :
  isHungUp (_state c) = true -> idle (hangup c) c.
Proof.
  intros H. unfold hangup. rewrite finish_body_hung_up; [apply idle_refl |].
  by apply bool_decide_eq_true in H.
Qed.

Lemma applyOtherParticipantUpdate_idle (data : MTPDgroupCallParticipant)
  (c : GroupCall) :
  idle (applyOtherParticipantUpdate data c) c.
Proof.
  unfold applyOtherParticipantUpdate.
  repeat case_match; by apply idle_same.
Qed.

Lemma handleUpdate_idle (update : MTPUpdate) (c : GroupCall) :
  _state c = State.Ended -> idle (handleUpdate update c) c.
Proof.
  intros HE.
  destruct update as [[vid | vid] | data]; simpl; [apply idle_refl | |].
  - unfold handlePossibleDiscarded. case_decide; [| apply idle_refl].
    eapply idle_trans; [| apply hangup_idle; simpl; by rewrite HE].
    by apply idle_same.
  - unfold handleUpdateParticipants. case_decide; [apply idle_refl |].
    assert (HJ : isJoined (_state c) = false) by (by rewrite HE).
    rewrite HJ.
    generalize (vparticipants data). intros l.
    induction l as [| p l IH] using rev_ind; [apply idle_refl |].
    rewrite foldl_app. simpl.
    eapply idle_trans; [exact IH |].
    case_match; [apply applyOtherParticipantUpdate_idle |].
    by apply idle_same.
Qed.

Lemma applyUpdates_idle (updates : list MTPUpdate) (c : GroupCall) :
  _state c = State.Ended -> idle (applyUpdates updates c) c.
Proof.
  intros HE. unfold applyUpdates.
  eapply idle_trans;
    [apply (idle_same (emit ApplyUpdates c) c); reflexivity |].
  assert (HE' : _state (emit ApplyUpdates c) = State.Ended) by exact HE.
  revert HE'. generalize (emit ApplyUpdates c). clear c HE.
  induction updates as [| u l IH]; intros c HE; simpl; [apply idle_refl |].
  pose proof (handleUpdate_idle u c HE) as Hu.
  eapply idle_trans; [exact Hu |]. apply IH.
  destruct Hu as (Hs & _). congruence.
Qed.

Lemma setState_same (c : GroupCall) : setState (_state c) c = c.
Proof.
  unfold setState. rewrite (decide_True (P := _state c = _state c))
    by reflexivity.
  by repeat case_decide.
Qed.

Lemma setInstanceConnected_sent (isConnected inTransit : bool)
  (c : GroupCall) :
  sent (setInstanceConnected isConnected inTransit c) = sent c.
Proof.
  assert (HS : forall s k, sent (setState s k) = sent k).
  { intros s k. by pose proof (setState_frame s k)
      as (_ & _ & _ & _ & _ & _ & _ & _ & _ & _ & _ & H). }
  assert (HN : forall k, sent (notifyAboutAllowedToSpeak k) = sent k).
  { intros k. unfold notifyAboutAllowedToSpeak. by case_match. }
  assert (HC : forall k, sent (checkFirstTimeJoined k) = sent k).
  { intros k. unfold checkFirstTimeJoined. by case_match. }
  assert (HA : forall i k, sent (assignInstanceState i k) = sent k).
  { intros i k.
    unfold assignInstanceState, playConnectingSound, stopConnectingSound.
    repeat (first [case_decide | case_match]); reflexivity. }
  unfold setInstanceConnected. cbv zeta.
  repeat first
    [ rewrite HC | rewrite HN | rewrite HS | rewrite HA
    | reflexivity | case_match ].
Qed.

Lemma setInstanceConnected_idle (isConnected inTransit : bool)
  (c : GroupCall) :
  _state c = State.Ended ->
  idle (setInstanceConnected isConnected inTransit c) c.
Proof.
  intros HE.
  pose proof (setInstanceConnected_report isConnected inTransit c)
    as (HS & _ & _ & HA & HP & _).
  apply idle_same;
    [| exact HA | exact HP | apply setInstanceConnected_sent].
  rewrite HS, HE. simpl. by case_match.
Qed.

(** The request that is answered was outstanding, and taking it off
    changes nothing else. *)
Lemma take_request_idle (id : Z) (c c' : GroupCall) (r : Request) :
  take_request id c = Some (r, c') ->
  (id, r) ∈ apiPending c /\ idle c' c.
Proof.
  unfold take_request.
  destruct (List.find _ _) as [p |] eqn:Hf; [| discriminate].
  intros [= <- <-]. apply find_some in Hf as [Hin Hid].
  apply bool_decide_eq_true in Hid. apply list_elem_of_In in Hin.
  split.
  - destruct p as [i r']. simpl in *. by subst.
  - split_and!; try reflexivity. simpl. intros q Hq.
    by apply list_elem_of_filter in Hq as [_ Hq].
Qed.

Lemma step_idle (IsFloodError : string -> bool) (e : Event)
  (c : GroupCall) :
  atRest c -> isPartStart e = false -> idle (step IsFloodError e c) c.
Proof.
  intros (HE & HP & HA) He. destruct e; simpl; try discriminate.
  - unfold rejoin0. rewrite rejoin_ignored; [apply idle_refl |].
    by rewrite HE.
  - rewrite HP. apply idle_refl.
  - apply hangup_idle. by rewrite HE.
  - by apply handleUpdate_idle.
  - by apply setInstanceConnected_idle.
  - unfold broadcastPartCancel. case_match; [| apply idle_refl].
    split_and!; try reflexivity. simpl. intros q Hq.
    by apply list_elem_of_filter in Hq as [_ Hq].
  - destruct (take_request id c) as [[r c'] |] eqn:E; [| apply idle_refl].
    apply take_request_idle in E as [Hin Hi].
    pose proof (HA _ Hin) as Hr. unfold settles in Hr. simpl in Hr.
    assert (HE' : _state c' = State.Ended)
      by (destruct Hi as (Hs & _); congruence).
    eapply idle_trans; [exact Hi |].
    destruct r; try contradiction.
    + subst finalState. unfold leaveDone.
      pose proof (applyUpdates_idle updates c' HE') as Hu.
      assert (Hs : _state (applyUpdates updates c') = State.Ended)
        by (destruct Hu as (Hs & _); congruence).
      rewrite <- Hs, setState_same. exact Hu.
    + unfold editSelfDone.
      eapply idle_trans; [| apply applyUpdates_idle; exact HE'].
      by apply idle_same.
  - destruct (take_request id c) as [[r c'] |] eqn:E; [| apply idle_refl].
    apply take_request_idle in E as [Hin Hi].
    pose proof (HA _ Hin) as Hr. unfold settles in Hr. simpl in Hr.
    assert (HE' : _state c' = State.Ended)
      by (destruct Hi as (Hs & _); congruence).
    eapply idle_trans; [exact Hi |].
    destruct r; try contradiction.
    + subst finalState. unfold leaveFail.
      rewrite <- HE', setState_same. apply idle_refl.
    + unfold editSelfFail. cbv zeta.
      case_decide; [| by apply idle_same].
      unfold rejoin0. rewrite rejoin_ignored by (simpl; by rewrite HE').
      by apply idle_same.
Qed.

(** X13.  An ended session that is owed no join payload and has no join
    request and no part request outstanding stays ended under these
    events, in any number and order: calls of [rejoin()] and [hangup()],
    updates from the server, connectivity reports of the engine,
    cancellations of parts, and the answers and failures of the leave
    requests and self edits that are still outstanding.  The state stays
    [Ended], nothing is sent, no request becomes outstanding.  The
    engine's request for a part is left out (it sends its request in
    every state), and so are the answers to join and part requests,
    which can take the session out of [Ended]. *)
Theorem ended_session_stays (IsFloodError : string -> bool)
  (events : list Event) (c : GroupCall) :
  atRest c ->
  forallb (fun e => negb (isPartStart e)) events = true ->
  atRest (run IsFloodError events c)
  /\ sent (run IsFloodError events c) = sent c
  /\ forall p, p ∈ apiPending (run IsFloodError events c) ->
               p ∈ apiPending c.
Proof.
  revert c. induction events as [| e l IH]; intros c Hc Hl; [done |].
  simpl in Hl. apply andb_prop in Hl as [He Hl].
  apply negb_true_iff in He.
  pose proof (step_idle IsFloodError e c Hc He) as Hi.
  destruct (IH (step IsFloodError e c) (idle_atRest _ _ Hi Hc) Hl)
    as (H1 & H2 & H3).
  destruct Hi as (_ & I2 & _ & I4).
  simpl. split_and!; [exact H1 | congruence |].
  intros p Hp. by apply I2, H3.
Qed.

Lemma ended_session_stays_witness :
  atRest (run (fun _ => false)
            [EvRejoin; EvHangup; EvInstanceConnected true false;
             EvUpdate (MTPDupdateGroupCallParticipants_
                         update_self_and_other);
             EvFail 1 GROUPCALL_FORBIDDEN 0]
            call_ended_editing)
  /\ sent (run (fun _ => false)
             [EvRejoin; EvHangup; EvInstanceConnected true false;
              EvUpdate (MTPDupdateGroupCallParticipants_
                          update_self_and_other);
              EvFail 1 GROUPCALL_FORBIDDEN 0]
             call_ended_editing)
     = sent call_ended_editing
  /\ forall p,
       p ∈ apiPending
             (run (fun _ => false)
                [EvRejoin; EvHangup; EvInstanceConnected true false;
                 EvUpdate (MTPDupdateGroupCallParticipants_
                             update_self_and_other);
                 EvFail 1 GROUPCALL_FORBIDDEN 0]
                call_ended_editing) ->
       p ∈ apiPending call_ended_editing.
Proof.
  apply (ended_session_stays (fun _ => false)
           [EvRejoin; EvHangup; EvInstanceConnected true false;
            EvUpdate (MTPDupdateGroupCallParticipants_
                        update_self_and_other);
            EvFail 1 GROUPCALL_FORBIDDEN 0]
           call_ended_editing).
  - split_and!; [reflexivity | reflexivity |].
    intros p Hp. vm_compute in Hp.
    apply list_elem_of_singleton in Hp as ->. exact I.
  - reflexivity.
Defined.

(** What the theorem leaves out does take an ended session out of
    [Ended]: the engine's request for a part is sent from it, and the
    answer to a join request that was still outstanding when the user
    hung up makes it [Connecting]. *)
Example ended_session_left :
  (let c := set_tasks {[ 2%positive := {| _time := 2000; _scale := 1;
                                          _done := true |} ]} call_ended in
   _state c = State.Ended
   /\ sent (broadcastPartStart 2 c) = [MTPupload_GetFile 2 2000 1])
  /\ (let c := run (fun _ => false)
                 [EvRejoin; EvJoinPayload 555; EvHangup] call_joining in
      _state c = State.Ended
      /\ _state (step (fun _ => false)
                   (EvDone 1 [] MTPDupload_fileCdnRedirect 0) c)
         = State.Connecting).
Proof. vm_compute. repeat split. Qed.

(** ** The rating of a hand raised locally *)

Lemma max_rating_spec (l : list GroupCallParticipant) (m : Z) :
  let M := foldl (fun m q => if m <? raisedHandRating q
                             then raisedHandRating q else m) m l in
  m <= M
  /\ (forall q, q ∈ l -> raisedHandRating q <= M)
  /\ (M = m \/ exists q, q ∈ l /\ M = raisedHandRating q).
Proof.
  revert m. induction l as [| p l IH]; intros m; simpl.
  - split_and!; [lia | | by left]. intros q Hq. by apply elem_of_nil in Hq.
  - specialize (IH (if m <? raisedHandRating p
                    then raisedHandRating p else m)).
    simpl in IH. destruct IH as (H1 & H2 & H3).
    destruct (Z.ltb_spec m (raisedHandRating p)) as [Hlt | Hge].
    + split_and!.
      * lia.
      * intros q Hq. apply elem_of_cons in Hq as [-> | Hq];
          [exact H1 | by apply H2].
      * right. destruct H3 as [-> | (q & Hq & ->)].
        -- exists p. split; [by left | reflexivity].
        -- exists q. split; [by right | reflexivity].
    + split_and!.
      * exact H1.
      * intros q Hq. apply elem_of_cons in Hq as [-> | Hq];
          [lia | by apply H2].
      * destruct H3 as [-> | (q & Hq & ->)]; [by left |].
        right. exists q. split; [by right | reflexivity].
Qed.

Lemma FindLocalRaisedHandRating_spec (l : list GroupCallParticipant) :
  (forall p, p ∈ l -> 0 <= raisedHandRating p < 2 ^ 64 - 1) ->
  0 < FindLocalRaisedHandRating l < 2 ^ 64
  /\ forall p, p ∈ l -> raisedHandRating p < FindLocalRaisedHandRating l.
Proof.
  intros Hb. destruct l as [| p l]; simpl.
  - split; [lia |]. intros q Hq. by apply elem_of_nil in Hq.
  - pose proof (max_rating_spec l (raisedHandRating p)) as (H1 & H2 & H3).
    simpl in H1, H2, H3.
    set (M := foldl _ _ l) in *.
    assert (HM : 0 <= M < 2 ^ 64 - 1).
    { destruct H3 as [-> | (q & Hq & ->)]; apply Hb; [by left | by right]. }
    rewrite Z.mod_small by lia.
    split; [lia |].
    intros q Hq. apply elem_of_cons in Hq as [-> | Hq]; [lia |].
    specialize (H2 q Hq). lia.
Qed.

(** X14.  A hand raised locally goes to the top: when the mute state is
    [RaisedHand] and the roster has no entry for the local identity, the
    self entry [applyMeInCallLocally] hands to the roster carries a
    raise-hand rating strictly above the rating of every participant
    (ratings being below the largest 64-bit value, so that adding one
    does not wrap), marks it as present, and says the local user cannot
    unmute. *)
Theorem applyMeInCallLocally_raised_hand_on_top (c : GroupCall)
  (call : DataGroupCall) :
  lookupReal c = Some call ->
  _muted c = MuteState.RaisedHand ->
  (forall p, p ∈ participants call -> peer p <> _joinAs c) ->
  (forall p, p ∈ participants call ->
             0 <= raisedHandRating p < 2 ^ 64 - 1) ->
  exists entry,
    trace (applyMeInCallLocally c) = ApplyLocalUpdate entry :: trace c
    /\ e_raisedHandRating entry
       = FindLocalRaisedHandRating (participants call)
    /\ f_raise_hand_rating entry = true
    /\ f_can_self_unmute entry = false
    /\ f_muted_flag entry = true
    /\ forall p, p ∈ participants call ->
                 raisedHandRating p < e_raisedHandRating entry.
Proof.
  intros Hr Hm Hp Hb.
  pose proof (FindLocalRaisedHandRating_spec _ Hb) as [H1 H2].
  unfold applyMeInCallLocally. rewrite Hr.
  destruct (List.find _ (participants call)) as [p |] eqn:Hf.
  { exfalso. apply find_some in Hf as [Hin Hq].
    apply bool_decide_eq_true in Hq. apply list_elem_of_In in Hin.
    by apply (Hp p). }
  eexists. split; [reflexivity |]. simpl.
  rewrite Hm. rewrite decide_False by tauto.
  split_and!.
  - reflexivity.
  - apply bool_decide_eq_true. lia.
  - apply bool_decide_eq_false. tauto.
  - by apply bool_decide_eq_true.
  - exact H2.
Qed.

Lemma applyMeInCallLocally_raised_hand_on_top_witness :
  exists entry,
    trace (applyMeInCallLocally call_hand_raised)
    = ApplyLocalUpdate entry :: trace call_hand_raised
    /\ e_raisedHandRating entry
       = FindLocalRaisedHandRating (participants real_with_video)
    /\ f_raise_hand_rating entry = true
    /\ f_can_self_unmute entry = false
    /\ f_muted_flag entry = true
    /\ forall p, p ∈ participants real_with_video ->
                 raisedHandRating p < e_raisedHandRating entry.
Proof.
  apply (applyMeInCallLocally_raised_hand_on_top call_hand_raised
           real_with_video).
  - reflexivity.
  - reflexivity.
  - intros p Hp. simpl in Hp.
    repeat (apply elem_of_cons in Hp as [-> | Hp]; [discriminate |]).
    by apply elem_of_nil in Hp.
  - intros p Hp. simpl in Hp.
    repeat (apply elem_of_cons in Hp as [-> | Hp]; [simpl; lia |]).
    by apply elem_of_nil in Hp.
Defined.

(** ** Push to talk stays local *)

Lemma setMuted_set_state (mute : MuteState.t) (c : GroupCall) :
  _state (setMuted_set mute c) = _state c.
Proof.
  unfold setMuted_set.
  pose proof (assignMuted_keeps mute c) as (Hs & _).
  case_match; [| exact Hs].
  pose proof (adds_frame _ _ (applyMeInCallLocally_adds (assignMuted mute c)))
    as (Hs' & _). congruence.
Qed.

(** X15.  Push to talk is local.  It does nothing while the mute state
    is [ForceMuted], [RaisedHand] or [Active].  From [Muted], pressing
    asks for the permissions; once they are granted the mute state is
    [PushToTalk]; releasing takes it back to [Muted], at once or, with a
    delay, when the timer fires, with the same result.  In all of this
    nothing is sent to the server, no request becomes outstanding and
    the lifecycle state stays. *)
Theorem pushToTalk_round_trip (timer : option Z) (delay : Z)
  (c : GroupCall) :
  (_muted c = MuteState.ForceMuted \/ _muted c = MuteState.RaisedHand
   \/ _muted c = MuteState.Active ->
   forall pressed, pushToTalk pressed delay (timer, c) = (timer, c))
  /\ (_muted c = MuteState.Muted ->
      let pressed := pushToTalk true delay (timer, c) in
      let granted := setMuted_set MuteState.PushToTalk pressed.2 in
      let released := pushToTalk false 0 (pressed.1, granted) in
      pressed = (None, emit (GroupCallRequestPermissionsOrFail
                               MuteState.PushToTalk) c)
      /\ _muted granted = MuteState.PushToTalk
      /\ _muted released.2 = MuteState.Muted
      /\ released.1 = None
      /\ sent released.2 = sent c
      /\ apiPending released.2 = apiPending c
      /\ _state released.2 = _state c
      /\ (delay <> 0 ->
          pushToTalk false delay (pressed.1, granted)
          = (Some delay, granted)
          /\ pushToTalkCancel (Some delay, granted) = released)).
Proof.
  split.
  - intros H pressed. unfold pushToTalk. simpl.
    by rewrite decide_True by assumption.
  - intros Hm pressed granted released.
    assert (Hp : pressed = (None, emit (GroupCallRequestPermissionsOrFail
                                          MuteState.PushToTalk) c)).
    { subst pressed. unfold pushToTalk. simpl.
      rewrite decide_False by (rewrite Hm; intros [? | [? | ?]]; discriminate).
      unfold setMuted. by rewrite decide_True by tauto. }
    assert (Hg : _muted granted = MuteState.PushToTalk
                 /\ apiPending granted = apiPending c
                 /\ sent granted = sent c
                 /\ _state granted = _state c).
    { subst granted. rewrite Hp. simpl.
      pose proof (setMuted_set_local MuteState.PushToTalk
                    (emit (GroupCallRequestPermissionsOrFail
                             MuteState.PushToTalk) c)) as H.
      simpl in H. rewrite Hm in H. destruct (H eq_refl) as (H1 & H2 & H3).
      rewrite setMuted_set_state. by repeat split. }
    destruct Hg as (G1 & G2 & G3 & G4).
    assert (Hc : pushToTalkCancel (pressed.1, granted)
                 = (None, setMuted_set MuteState.Muted granted)).
    { unfold pushToTalkCancel. simpl. rewrite decide_True by assumption.
      unfold setMuted.
      by rewrite decide_False by (intros [? | ?]; discriminate). }
    assert (Hr : released = (None, setMuted_set MuteState.Muted granted)).
    { subst released. unfold pushToTalk. simpl.
      rewrite decide_False by (rewrite G1; intros [? | [? | ?]]; discriminate).
      try rewrite decide_False by tauto. exact Hc. }
    pose proof (setMuted_set_local MuteState.Muted granted) as H.
    rewrite G1 in H. destruct (H eq_refl) as (H1 & H2 & H3).
    rewrite Hr. simpl. rewrite setMuted_set_state.
    split_and!; try congruence.
    intros Hd. split.
    + unfold pushToTalk. simpl.
      rewrite decide_False by (rewrite G1; intros [? | [? | ?]]; discriminate).
      by rewrite decide_True by assumption.
    + unfold pushToTalkCancel. simpl. rewrite decide_True by assumption.
      unfold setMuted.
      by rewrite decide_False by (intros [? | ?]; discriminate).
Qed.

(** ** Invitations go out in slices *)

Lemma inviteUsers_turn_invariant (us : list Z) (s : InviteLoop) (u : Z) :
  inviteUsers_invariant us s ->
  inviteUsers_invariant (us ++ [u]) (inviteUsers_turn s u).
Proof.
  unfold inviteUsers_invariant, kMaxInvitePerSlice.
  destruct s as [count slice result requests registered]. simpl.
  intros (H1 & H2 & H3 & H4 & H5 & H6).
  assert (Hres : (if bool_decide (count = 0) && bool_decide (slice = [])
                  then InvitedUser u else result)
                 = match us ++ [u] with
                   | [] => InvitedCount 0
                   | u0 :: _ => InvitedUser u0
                   end).
  { destruct us as [| u0 us']; simpl.
    - destruct requests as [| r requests]; simpl in *.
      + destruct slice; [| discriminate]. subst count. reflexivity.
      + exfalso. apply app_eq_nil in H1 as [H1 _].
        rewrite concat_app in H1. apply app_eq_nil in H1 as [_ H1].
        simpl in H1. rewrite app_nil_r in H1. subst r.
        apply Forall_cons in H3 as [H3 _]. simpl in H3. lia.
    - rewrite H6. case_bool_decide as Hc; simpl; [| reflexivity].
      case_bool_decide as Hs; [| reflexivity].
      subst slice. exfalso.
      destruct requests as [| r requests]; [simpl in H1; discriminate |].
      simpl in H5. lia. }
  unfold inviteUsers_turn, sendSlice, kMaxInvitePerSlice. simpl.
  rewrite length_app. simpl. rewrite Hres.
  destruct (bool_decide ((length slice + 1)%nat = 10%nat)) eqn:Hfull; simpl.
  - apply bool_decide_eq_true in Hfull. split_and!.
    + rewrite concat_app. simpl. rewrite !app_nil_r.
      rewrite <- H1. by rewrite app_assoc.
    + by rewrite H2.
    + constructor; [| exact H3]. rewrite length_app. simpl. lia.
    + lia.
    + rewrite ?length_app; simpl; lia.
    + reflexivity.
  - apply bool_decide_eq_false in Hfull. split_and!.
    + rewrite <- H1. by rewrite app_assoc.
    + by rewrite H2.
    + exact H3.
    + rewrite ?length_app; simpl; lia.
    + exact H5.
    + reflexivity.
Qed.

Lemma inviteUsers_loop_invariant (users us : list Z) (s : InviteLoop) :
  inviteUsers_invariant us s ->
  inviteUsers_invariant (us ++ users) (foldl inviteUsers_turn s users).
Proof.
  revert us s. induction users as [| u users IH]; intros us s H; simpl.
  - by rewrite app_nil_r.
  - replace (us ++ u :: users) with ((us ++ [u]) ++ users)
      by (by rewrite <- app_assoc).
    apply IH. by apply inviteUsers_turn_invariant.
Qed.

(** X16.  [inviteUsers] invites every user it is given: the slices of
    the requests it sends, put end to end, are the users in their order,
    users already invited or already in the call included; every user is
    registered as invited; no slice is empty or longer than
    [kMaxInvitePerSlice], and every slice but the last is full.  The
    result is the user when there is exactly one, and the number of
    users otherwise. *)
Theorem inviteUsers_slices (users : list Z) (c : GroupCall)
  (real : DataGroupCall) :
  lookupReal c = Some real ->
  let '(result, requests, registered) := inviteUsers users c in
  concat requests = users
  /\ registered = users
  /\ Forall (fun slice => (0 < length slice <= kMaxInvitePerSlice)%nat)
       requests
  /\ (forall i slice, requests !! i = Some slice ->
                      (S i < length requests)%nat ->
                      length slice = kMaxInvitePerSlice)
  /\ result = match users with
              | [u] => InvitedUser u
              | _ => InvitedCount (Z.of_nat (length users))
              end.
Proof.
  intros Hr. unfold inviteUsers. rewrite Hr.
  assert (H0 : inviteUsers_invariant []
                 (mkInviteLoop 0 [] (InvitedCount 0) [] [])).
  { unfold inviteUsers_invariant, kMaxInvitePerSlice. simpl.
    split_and!; try done. lia. }
  pose proof (inviteUsers_loop_invariant users [] _ H0) as H.
  simpl in H.
  destruct (foldl inviteUsers_turn _ users)
    as [count slice result requests registered].
  unfold inviteUsers_invariant, kMaxInvitePerSlice in *. simpl in *.
  destruct H as (H1 & H2 & H3 & H4 & H5 & H6).
  assert (Hlen : length users
                 = (10 * length requests + length slice)%nat).
  { rewrite <- H1, length_app. f_equal.
    clear -H3. induction requests as [| r requests IH] using rev_ind.
    - reflexivity.
    - apply Forall_app in H3 as [H3 Hr]. apply Forall_inv in Hr.
      rewrite rev_unit. cbn [concat]. rewrite !length_app. cbn [length].
      rewrite IH by assumption. lia. }
  assert (Hres : (if bool_decide (count <> 0)
                     || bool_decide (length slice <> 1%nat)
                  then InvitedCount (count + Z.of_nat (length slice))
                  else result)
                 = match users with
                   | [u] => InvitedUser u
                   | _ => InvitedCount (Z.of_nat (length users))
                   end).
  { case_bool_decide as Hc; simpl.
    - assert (length users <> 1%nat) by lia.
      replace (count + Z.of_nat (length slice))
        with (Z.of_nat (length users)) by lia.
      destruct users as [| u [| u' users']]; simpl in *; try done.
    - case_bool_decide as Hs; simpl.
      + replace (count + Z.of_nat (length slice))
          with (Z.of_nat (length users)) by lia.
        assert (length users <> 1%nat) by lia.
        destruct users as [| u [| u' users']]; simpl in *; try done.
      + assert (Hone : length users = 1%nat) by lia.
        destruct users as [| u [| u' users']]; simpl in *; try done. }
  rewrite Hres. clear Hres. unfold sendSlice.
  destruct (bool_decide (slice <> [])) eqn:Hne; simpl.
  - apply bool_decide_eq_true in Hne. split_and!.
    + rewrite concat_app. simpl. by rewrite app_nil_r.
    + exact H2.
    + apply Forall_app. split.
      * apply Forall_rev. eapply Forall_impl; [exact H3 |].
        simpl. intros x Hx. lia.
      * apply Forall_singleton. destruct slice; [done | simpl in *; lia].
    + intros i sl Hi Hlt. rewrite length_app in Hlt. simpl in Hlt.
      rewrite lookup_app_l in Hi by lia.
      apply list_elem_of_lookup_2 in Hi.
      apply list_elem_of_In in Hi. apply (proj2 (in_rev _ _)) in Hi.
      apply list_elem_of_In in Hi.
      by apply (proj1 (Forall_forall _ _) H3).
    + reflexivity.
  - apply bool_decide_eq_false in Hne.
    assert (slice = []) as ->
      by (destruct slice; [reflexivity | by exfalso; apply Hne]).
    rewrite app_nil_r in H1.
    split_and!.
    + exact H1.
    + exact H2.
    + apply Forall_rev. eapply Forall_impl; [exact H3 |].
      simpl. intros x Hx. lia.
    + intros i sl Hi _. apply list_elem_of_lookup_2 in Hi.
      apply list_elem_of_In in Hi. apply (proj2 (in_rev _ _)) in Hi.
      apply list_elem_of_In in Hi.
      by apply (proj1 (Forall_forall _ _) H3).
    + reflexivity.
Qed.

Lemma inviteUsers_slices_witness :
  let '(result, requests, registered) :=
    inviteUsers [1; 2; 3; 4; 5; 6; 7; 8; 9; 10; 11; 12] call_with_video in
  concat requests = [1; 2; 3; 4; 5; 6; 7; 8; 9; 10; 11; 12]
  /\ registered = [1; 2; 3; 4; 5; 6; 7; 8; 9; 10; 11; 12]
  /\ Forall (fun slice => (0 < length slice <= kMaxInvitePerSlice)%nat)
       requests
  /\ (forall i slice, requests !! i = Some slice ->
                      (S i < length requests)%nat ->
                      length slice = kMaxInvitePerSlice)
  /\ result = InvitedCount 12.
Proof.
  apply (inviteUsers_slices [1; 2; 3; 4; 5; 6; 7; 8; 9; 10; 11; 12]
           call_with_video real_with_video).
  reflexivity.
Defined.

(** A participant of the call is invited again: the roster is not
    consulted. *)
Example inviteUsers_sample :
  inviteUsers [2] call_with_video = (InvitedUser 2, [[2]], [2])
  /\ inviteUsers [2; 3] call_with_video = (InvitedCount 2, [[2; 3]], [2; 3])
  /\ inviteUsers [] call_with_video = (InvitedCount 0, [], [])
  /\ inviteUsers [2] (set_peerGroupCall None call_with_video)
     = (InvitedCount 0, [], []).
Proof. vm_compute. repeat split. Qed.

(** ** The scale of a part task *)

(** X17.  A part task is made for the periods 1000, 500, 250 and 125
    only, and its scale [s] is the one with [period * 2 ^ s = 1000]; a
    time of zero is replaced by the present second in milliseconds, any
    other time is kept; the task starts with its callback in place. *)
Theorem LoadPartTask_new_scale (now time period : Z) :
  (is_Some (LoadPartTask_new now time period)
   <-> exists s, 0 <= s <= 3 /\ period * 2 ^ s = 1000)
  /\ forall t, LoadPartTask_new now time period = Some t ->
       0 <= _scale t <= 3
       /\ period * 2 ^ _scale t = 1000
       /\ _time t = (if decide (time = 0) then now * 1000 else time)
       /\ _done t = true.
Proof.
  unfold LoadPartTask_new, LoadPartTask_scale.
  destruct (decide (period = 1000)) as [-> | H0];
    [| destruct (decide (period = 500)) as [-> | H1];
       [| destruct (decide (period = 250)) as [-> | H2];
          [| destruct (decide (period = 125)) as [-> | H3]]]].
  1-4: split;
    [ split; [intros _ | intros _; by eexists]
    | intros t [= <-]; simpl; case_decide; case_decide;
      repeat split; lia ].
  - exists 0. split; lia.
  - exists 1. split; lia.
  - exists 2. split; lia.
  - exists 3. split; lia.
  - split; [| intros t [=]].
    split; [intros [t [=]] |].
    intros (s & Hs & Hp).
    assert (s = 0 \/ s = 1 \/ s = 2 \/ s = 3) as [-> | [-> | [-> | ->]]]
      by lia; lia.
Qed.

(** ** The last-spoke times *)

Lemma checkLastSpoke_loop_spec (now : Z) (l : list (Z * LastSpokeTimes)) :
  let recent := fun e : Z * LastSpokeTimes =>
    bool_decide (now <= anything e.2 + kCheckLastSpokeInterval) in
  checkLastSpoke_loop now l
  = (match List.filter recent l with [] => false | _ => true end,
     List.filter recent l,
     (fun e => ApplyLastSpoke e.1 e.2 now) <$> l).
Proof.
  induction l as [| [k w] l IH]; simpl; [reflexivity |].
  simpl in IH. rewrite IH.
  destruct (bool_decide (now <= anything w + kCheckLastSpokeInterval));
    reflexivity.
Qed.

(** X18.  [checkLastSpoke] does nothing when the call is not found.
    Otherwise it reports every entry of [_lastSpoke] to the roster once,
    in the order of the sources, keeps exactly the entries heard within
    the last [kCheckLastSpokeInterval], and leaves the timer running
    exactly when an entry is kept: it is cancelled when none is, started
    at a third of the interval when it was not running, and left alone
    when it was. *)
Theorem checkLastSpoke_prunes (now : Z) (s : Levels) :
  let recent := fun e : Z * LastSpokeTimes =>
    bool_decide (now <= anything e.2 + kCheckLastSpokeInterval) in
  let s' := checkLastSpoke true now s in
  checkLastSpoke false now s = s
  /\ _lastSpoke s' = List.filter recent (_lastSpoke s)
  /\ levelsTrace s'
     = rev ((fun e => ApplyLastSpoke e.1 e.2 now) <$> _lastSpoke s)
         ++ levelsTrace s
  /\ timerMatches s'
  /\ (_lastSpoke s' <> [] ->
      _lastSpokeCheckTimer s'
      = Some (default (kCheckLastSpokeInterval / 3)
                (_lastSpokeCheckTimer s)))
  /\ _lastSendProgressUpdate s' = _lastSendProgressUpdate s.
Proof.
  intros recent s'. subst s'. unfold checkLastSpoke, timerMatches. simpl.
  rewrite checkLastSpoke_loop_spec. fold recent. simpl.
  destruct (List.filter recent (_lastSpoke s)) as [| e kept]; simpl.
  - split_and!; try reflexivity; done.
  - split_and!; try reflexivity.
    + split; [| discriminate].
      case_bool_decide as Ht; [discriminate | done].
    + intros _. case_bool_decide as Ht; [by rewrite Ht |].
      destruct (_lastSpokeCheckTimer s); [reflexivity | done].
Qed.

Example checkLastSpoke_sample :
  checkLastSpoke true 3500 levels_sample
  = mkLevels [(555, mkLastSpokeTimes 3000 0)] (Some 500) 0
      [ApplyLastSpoke 555 (mkLastSpokeTimes 3000 0) 3500;
       ApplyLastSpoke 20 (mkLastSpokeTimes 1000 900) 3500]
  /\ _lastSpokeCheckTimer (checkLastSpoke true 9000 levels_sample) = None.
Proof. vm_compute. split; reflexivity. Qed.

(** ** Audio levels *)

Lemma lastSpoke_touch_nonempty (ssrc_ now : Z) (voiced : bool)
  (l : list (Z * LastSpokeTimes)) :
  (lastSpoke_touch ssrc_ now voiced l).1 <> [].
Proof.
  destruct l as [| [k w] l]; simpl; [discriminate |].
  repeat case_decide; try discriminate.
  destruct (lastSpoke_touch ssrc_ now voiced l). discriminate.
Qed.

Lemma lastSpoke_touch_above (ssrc_ now : Z) (voiced : bool) (k : Z)
  (l : list (Z * LastSpokeTimes)) :
  Forall (fun e => k < e.1) l -> k < ssrc_ ->
  Forall (fun e => k < e.1) (lastSpoke_touch ssrc_ now voiced l).1.
Proof.
  intros Hl Hk. induction l as [| [k0 w] l IH]; simpl.
  - by repeat constructor.
  - apply Forall_cons in Hl as [H0 Hl]. simpl in H0.
    case_decide; [by repeat constructor |].
    case_decide; [constructor; [simpl; lia | exact Hl] |].
    specialize (IH Hl).
    destruct (lastSpoke_touch ssrc_ now voiced l). simpl in *.
    by constructor.
Qed.

Lemma lastSpoke_touch_sorted (ssrc_ now : Z) (voiced : bool)
  (l : list (Z * LastSpokeTimes)) :
  flat_map_sorted l ->
  flat_map_sorted (lastSpoke_touch ssrc_ now voiced l).1.
Proof.
  induction l as [| [k0 w] l IH]; simpl; [by repeat constructor |].
  intros [Ha Hs].
  case_decide as H1.
  - simpl. split_and!; [| exact Ha | exact Hs].
    constructor; [simpl; lia |].
    eapply Forall_impl; [exact Ha |]. simpl. intros e He. lia.
  - case_decide as H2; [by split |].
    specialize (IH Hs).
    pose proof (lastSpoke_touch_above ssrc_ now voiced k0 l Ha) as Hb.
    destruct (lastSpoke_touch ssrc_ now voiced l). simpl in *.
    split; [apply Hb; lia | exact IH].
Qed.

Lemma lastSpoke_touch_stamped (ssrc_ now : Z) (voiced : bool)
  (l : list (Z * LastSpokeTimes)) :
  0 <= now -> stamped now l ->
  stamped now (lastSpoke_touch ssrc_ now voiced l).1.
Proof.
  unfold stamped. intros Hn.
  induction l as [| [k0 w] l IH]; simpl; intros Hl.
  - constructor; [| constructor]. simpl. destruct voiced; lia.
  - apply Forall_cons in Hl as [H0 Hl]. simpl in H0.
    case_decide.
    + constructor; [simpl; destruct voiced; lia |].
      by constructor.
    + case_decide.
      * constructor; [simpl; destruct voiced; lia | exact Hl].
      * specialize (IH Hl).
        destruct (lastSpoke_touch ssrc_ now voiced l). simpl in *.
        by constructor.
Qed.

Lemma stamped_later (now0 now : Z) (l : list (Z * LastSpokeTimes)) :
  now0 <= now -> stamped now0 l -> stamped now l.
Proof.
  intros Hn H. eapply Forall_impl; [exact H |].
  intros e He. simpl in He. lia.
Qed.

Lemma lastSpoke_touch_heard (ssrc_ now : Z) (voiced : bool)
  (l : list (Z * LastSpokeTimes)) :
  heardNow now ssrc_ voiced (lastSpoke_touch ssrc_ now voiced l).1.
Proof.
  unfold heardNow. induction l as [| [k0 w] l IH]; simpl.
  - eexists. split; [by left |]. simpl. split; [reflexivity |].
    by intros ->.
  - case_decide.
    + eexists. split; [by left |]. simpl. split; [reflexivity |].
      by intros ->.
    + case_decide as H2.
      * subst k0. eexists. split; [by left |]. simpl.
        split; [reflexivity |]. by intros ->.
      * destruct (lastSpoke_touch ssrc_ now voiced l). simpl in *.
        destruct IH as (w' & Hin & Hw). exists w'.
        split; [by right | exact Hw].
Qed.

Lemma lastSpoke_touch_keeps_heard (ssrc_ now : Z) (voiced : bool)
  (k : Z) (b : bool) (l : list (Z * LastSpokeTimes)) :
  heardNow now k b l ->
  heardNow now k b (lastSpoke_touch ssrc_ now voiced l).1.
Proof.
  unfold heardNow. induction l as [| [k0 w0] l IH]; simpl.
  - intros (w & Hin & _). by apply elem_of_nil in Hin.
  - intros (w & Hin & Ha & Hv).
    case_decide.
    + exists w. split; [by right | by split].
    + case_decide as H2.
      * apply elem_of_cons in Hin as [[= -> ->] | Hin].
        -- eexists. split; [by left |]. simpl. split; [reflexivity |].
           intros Hb. destruct voiced; [reflexivity | by apply Hv].
        -- exists w. split; [by right | by split].
      * apply elem_of_cons in Hin as [[= -> ->] | Hin].
        -- destruct (lastSpoke_touch ssrc_ now voiced l). simpl.
           exists w0. split; [by left | by split].
        -- destruct IH as (w' & Hin' & Hw'); [by exists w |].
           destruct (lastSpoke_touch ssrc_ now voiced l). simpl in *.
           exists w'. split; [by right | exact Hw'].
Qed.

Lemma filter_above (f : Z * LastSpokeTimes -> bool) (P : Z * LastSpokeTimes -> Prop)
  (l : list (Z * LastSpokeTimes)) :
  Forall P l -> Forall P (List.filter f l).
Proof.
  induction l as [| e l IH]; simpl; intros H; [constructor |].
  apply Forall_cons in H as [He Hl].
  destruct (f e); [constructor; [exact He |] |]; by apply IH.
Qed.

Lemma filter_sorted (f : Z * LastSpokeTimes -> bool)
  (l : list (Z * LastSpokeTimes)) :
  flat_map_sorted l -> flat_map_sorted (List.filter f l).
Proof.
  induction l as [| e l IH]; simpl; [done |].
  intros [Ha Hs]. destruct (f e); simpl; [| by apply IH].
  split; [by apply filter_above | by apply IH].
Qed.

Lemma audioLevelsUpdated_turn_invariant (threshold : Q)
  (mySsrc now : Z) (s0 : Levels) (us : list GroupLevelUpdate)
  (vars : bool * bool * Levels) (u : GroupLevelUpdate) :
  0 <= now ->
  audioLevels_invariant threshold mySsrc now s0 us vars ->
  audioLevels_invariant threshold mySsrc now s0 (us ++ [u])
    (audioLevelsUpdated_turn threshold mySsrc now vars u).
Proof.
  intros Hn. destruct vars as [[check checkNow] s].
  unfold audioLevels_invariant. simpl.
  intros (H1 & H2 & H3 & H4 & H5 & H6 & H7).
  destruct (Qle_bool (value_level u) threshold) eqn:Hq; simpl.
  - split_and!; try assumption.
    + intros Hf. apply H6. by apply Forall_app in Hf as [Hf _].
    + intros u' Hu' Hl. apply elem_of_app in Hu' as [Hu' | Hu'];
        [by apply H7 |].
      apply list_elem_of_singleton in Hu' as ->. congruence.
  - match goal with
    | |- context [lastSpoke_touch ?a ?b ?c ?l] =>
        pose proof (lastSpoke_touch_sorted a b c l) as T1;
        pose proof (lastSpoke_touch_stamped a b c l Hn) as T2;
        pose proof (lastSpoke_touch_nonempty a b c l) as T3;
        pose proof (lastSpoke_touch_heard a b c l) as T4;
        pose proof (fun k v => lastSpoke_touch_keeps_heard a b c k v l)
          as T5;
        destruct (lastSpoke_touch a b c l) as [l' b'] eqn:E
    end.
    assert (El : forall (t : bool) (x y : Levels),
               _lastSpoke x = _lastSpoke s -> _lastSpoke y = _lastSpoke s ->
               _lastSpoke (if t then x else y) = _lastSpoke s)
      by (by intros []).
    assert (Et : forall (t : bool) (x y : Levels),
               _lastSpokeCheckTimer x = _lastSpokeCheckTimer s ->
               _lastSpokeCheckTimer y = _lastSpokeCheckTimer s ->
               _lastSpokeCheckTimer (if t then x else y)
               = _lastSpokeCheckTimer s)
      by (by intros []).
    simpl in *.
    repeat match goal with
           | |- context [if ?t then _ else _] =>
               destruct t eqn:?; simpl in *
           end;
      (split_and!;
       [ by apply T1 | by apply T2 | assumption | discriminate
       | intros _; exact T3
       | intros Hf; apply Forall_app in Hf as [_ Hf];
         apply Forall_inv in Hf; congruence
       | intros u' Hu' Hl; apply elem_of_app in Hu' as [Hu' | Hu'];
         [ apply T5; by apply H7
         | apply list_elem_of_singleton in Hu' as ->; exact T4 ] ]).
Qed.

Lemma audioLevelsUpdated_loop_invariant (threshold : Q)
  (mySsrc now : Z) (s0 : Levels) (updates us : list GroupLevelUpdate)
  (vars : bool * bool * Levels) :
  0 <= now ->
  audioLevels_invariant threshold mySsrc now s0 us vars ->
  audioLevels_invariant threshold mySsrc now s0 (us ++ updates)
    (foldl (audioLevelsUpdated_turn threshold mySsrc now) vars updates).
Proof.
  intros Hn. revert us vars.
  induction updates as [| u updates IH]; intros us vars H; simpl.
  - by rewrite app_nil_r.
  - replace (us ++ u :: updates) with ((us ++ [u]) ++ updates)
      by (by rewrite <- app_assoc).
    apply IH. by apply audioLevelsUpdated_turn_invariant.
Qed.

(** X19.  [audioLevelsUpdated], while the call is found, the clock not
    having gone back: the update must not be empty; every sample above
    the threshold leaves an entry for its source (the local one when the
    sample names source zero) whose time is the present one, and whose
    voice time is too when the sample is voice; samples at or below the
    threshold change neither the entries nor the timer; the keys of
    [_lastSpoke] stay in order, no time recorded is ahead of the clock,
    and a timer that ran exactly while there were entries still does. *)
Theorem audioLevelsUpdated_tracks_speakers (threshold : Q)
  (mySsrc now0 now : Z) (updates : list GroupLevelUpdate) (s : Levels) :
  updates <> [] ->
  flat_map_sorted (_lastSpoke s) ->
  stamped now0 (_lastSpoke s) ->
  now0 <= now -> 0 <= now ->
  exists s',
    audioLevelsUpdated threshold mySsrc true now updates s = Some s'
    /\ flat_map_sorted (_lastSpoke s')
    /\ stamped now (_lastSpoke s')
    /\ (timerMatches s -> timerMatches s')
    /\ (forall u, u ∈ updates ->
          Qle_bool (value_level u) threshold = false ->
          heardNow now (levelSsrc mySsrc u) (value_voice u) (_lastSpoke s'))
    /\ (Forall (fun u => Qle_bool (value_level u) threshold = true)
          updates ->
        _lastSpoke s' = _lastSpoke s
        /\ _lastSpokeCheckTimer s' = _lastSpokeCheckTimer s
        /\ _lastSendProgressUpdate s' = _lastSendProgressUpdate s).
Proof.
  intros Hne Hs Hst Hle Hn.
  assert (H0 : audioLevels_invariant threshold mySsrc now s []
                 (false, false, s)).
  { unfold audioLevels_invariant. simpl.
    split_and!; try done;
      first [ by apply (stamped_later now0)
            | intros u Hu; by apply elem_of_nil in Hu ]. }
  pose proof (audioLevelsUpdated_loop_invariant threshold mySsrc now s
                updates [] _ Hn H0) as H.
  simpl in H. unfold audioLevelsUpdated.
  destruct updates as [| u0 rest]; [done |].
  destruct (foldl _ _ (u0 :: rest)) as [[check checkNow] s1].
  unfold audioLevels_invariant in H. simpl in H.
  destruct H as (H1 & H2 & H3 & H4 & H5 & H6 & H7).
  eexists. split; [reflexivity |].
  destruct checkNow.
  - assert (Hc : check = true).
    { destruct check; [reflexivity |]. by destruct (H4 eq_refl). }
    unfold checkLastSpoke, timerMatches. simpl.
    rewrite checkLastSpoke_loop_spec. simpl.
    set (recent := fun e : Z * LastSpokeTimes =>
           bool_decide (now <= anything e.2 + kCheckLastSpokeInterval)).
    split_and!.
    + by apply filter_sorted.
    + by apply filter_above.
    + intros _. destruct (List.filter recent (_lastSpoke s1)); simpl.
      * done.
      * split; [| discriminate]. by case_bool_decide.
    + intros u Hu Hl. destruct (H7 u Hu Hl) as (w & Hin & Ha & Hv).
      exists w. split; [| by split].
      apply list_elem_of_In, filter_In. split; [by apply list_elem_of_In |].
      subst recent. simpl. apply bool_decide_eq_true.
      unfold kCheckLastSpokeInterval. lia.
    + intros Hf. specialize (H6 Hf). congruence.
  - destruct check; simpl.
    + specialize (H5 eq_refl).
      case_bool_decide as Ht; simpl.
      * split_and!; try assumption.
        -- intros _. unfold timerMatches. simpl. split; [done | tauto].
        -- intros Hf. specialize (H6 Hf). congruence.
      * split_and!; try assumption.
        -- intros _. unfold timerMatches. split; [tauto | tauto].
        -- intros Hf. specialize (H6 Hf). congruence.
    + destruct (H4 eq_refl) as (_ & H41 & H42).
      split_and!; try assumption.
      * unfold timerMatches. by rewrite H3, H41.
      * intros _. by split_and!.
Qed.

Lemma audioLevelsUpdated_tracks_speakers_witness :
  exists s',
    audioLevelsUpdated (1 # 5) 555 true 3400
      [mkGroupLevelUpdate 0 (1 # 2) true;
       mkGroupLevelUpdate 30 (1 # 10) false] levels_sample = Some s'
    /\ flat_map_sorted (_lastSpoke s')
    /\ stamped 3400 (_lastSpoke s')
    /\ (timerMatches levels_sample -> timerMatches s')
    /\ (forall u, u ∈ [mkGroupLevelUpdate 0 (1 # 2) true;
                       mkGroupLevelUpdate 30 (1 # 10) false] ->
          Qle_bool (value_level u) (1 # 5) = false ->
          heardNow 3400 (levelSsrc 555 u) (value_voice u) (_lastSpoke s'))
    /\ (Forall (fun u => Qle_bool (value_level u) (1 # 5) = true)
          [mkGroupLevelUpdate 0 (1 # 2) true;
           mkGroupLevelUpdate 30 (1 # 10) false] ->
        _lastSpoke s' = _lastSpoke levels_sample
        /\ _lastSpokeCheckTimer s' = _lastSpokeCheckTimer levels_sample
        /\ _lastSendProgressUpdate s'
           = _lastSendProgressUpdate levels_sample).
Proof.
  apply (audioLevelsUpdated_tracks_speakers (1 # 5) 555 3000 3400
           [mkGroupLevelUpdate 0 (1 # 2) true;
            mkGroupLevelUpdate 30 (1 # 10) false] levels_sample).
  - discriminate.
  - simpl. repeat constructor.
  - unfold stamped. simpl. repeat constructor; simpl; lia.
  - lia.
  - lia.
Defined.

(** The local user speaks: the sample for source zero is recorded under
    the local source and the progress is sent; the stale entry of source
    20 is reported and dropped by the check that follows. *)
Example audioLevelsUpdated_sample :
  audioLevelsUpdated (1 # 5) 555 true 3400
    [mkGroupLevelUpdate 0 (1 # 2) true;
     mkGroupLevelUpdate 30 (1 # 10) false] levels_sample
  = Some (mkLevels [(555, mkLastSpokeTimes 3400 3400)] (Some 500) 3400
            [ApplyLastSpoke 555 (mkLastSpokeTimes 3400 3400) 3400;
             ApplyLastSpoke 20 (mkLastSpokeTimes 1000 900) 3400;
             LevelUpdateFired 30 (1 # 10) false false;
             SendProgressSpeaking;
             LevelUpdateFired 555 (1 # 2) true true]).
Proof. vm_compute. reflexivity. Qed.

(** ** Video streams *)

Lemma flat_set_emplace_elem (x y : Z) (l : list Z) :
  y ∈ flat_set_emplace x l <-> (y = x \/ y ∈ l).
Proof.
  induction l as [| z l IH]; simpl.
  - rewrite list_elem_of_singleton, elem_of_nil. tauto.
  - case_decide; [by rewrite !elem_of_cons |].
    case_decide as H2.
    + subst z. rewrite !elem_of_cons. tauto.
    + rewrite !elem_of_cons, IH. tauto.
Qed.

Lemma flat_set_emplace_sorted (x : Z) (l : list Z) :
  flat_set_sorted l -> flat_set_sorted (flat_set_emplace x l).
Proof.
  induction l as [| z l IH]; simpl; [by repeat constructor |].
  intros [Ha Hs]. case_decide.
  - simpl. split_and!; [| exact Ha | exact Hs].
    constructor; [lia |].
    eapply Forall_impl; [exact Ha |]. simpl. intros; lia.
  - case_decide; [by split |]. simpl. split; [| by apply IH].
    apply Forall_forall. intros y Hy.
    apply flat_set_emplace_elem in Hy as [-> | Hy]; [lia |].
    by apply (proj1 (Forall_forall _ _) Ha).
Qed.

Lemma setVideoStreams_turn_invariant (videoMuted : gset Z)
  (old us : list Z) (vars : list Z * list Z * list VideoEvent) (u : Z) :
  u ∉ us ->
  setVideoStreams_invariant videoMuted old us vars ->
  setVideoStreams_invariant videoMuted old (us ++ [u])
    (setVideoStreams_turn videoMuted vars u).
Proof.
  intros Hu. destruct vars as [[removed streams] fired].
  unfold setVideoStreams_invariant, setVideoStreams_turn. simpl.
  intros (H1 & H2 & H3 & H4 & H5).
  assert (Hin : forall x, (x ∈ us ++ [u]) <-> (x ∈ us \/ x = u)).
  { intros x. rewrite elem_of_app, list_elem_of_singleton. tauto. }
  case_decide as Hr; simpl.
  - pose proof (proj1 (H1 u) Hr) as [Hold _].
    split_and!.
    + intros x. rewrite list_elem_of_In, filter_In, <- list_elem_of_In.
      rewrite H1, Hin, negb_true_iff, bool_decide_eq_false. tauto.
    + intros x. rewrite H2, Hin.
      split; [tauto |]. intros [? | [? | ->]]; tauto.
    + exact H3.
    + intros e He. destruct (H4 e He) as (x & -> & Hx & Ho & Hm).
      exists x. rewrite Hin. tauto.
    + intros x Hx Ho Hm. apply Hin in Hx as [Hx | ->]; [by apply H5 |].
      contradiction.
  - assert (Hold : u ∉ old) by (intros Ho; apply Hr, H1; tauto).
    split_and!.
    + intros x. rewrite H1, Hin. split; [| tauto].
      intros [Ho Hx]. split; [exact Ho |].
      intros [? | ->]; contradiction.
    + intros x. rewrite flat_set_emplace_elem, H2, Hin. tauto.
    + intros Hs. by apply flat_set_emplace_sorted, H3.
    + intros e He. case_decide as Hm.
      * destruct (H4 e He) as (x & -> & Hx & Ho & Hm').
        exists x. rewrite Hin. tauto.
      * apply elem_of_cons in He as [-> | He].
        -- exists u. rewrite Hin. tauto.
        -- destruct (H4 e He) as (x & -> & Hx & Ho & Hm').
           exists x. rewrite Hin. tauto.
    + intros x Hx Ho Hm. apply Hin in Hx as [Hx | ->].
      * case_decide; [| right]; by apply H5.
      * rewrite decide_False by assumption. by left.
Qed.

Lemma setVideoStreams_loop_invariant (videoMuted : gset Z)
  (old ssrcs us : list Z) (vars : list Z * list Z * list VideoEvent) :
  NoDup (us ++ ssrcs) ->
  setVideoStreams_invariant videoMuted old us vars ->
  setVideoStreams_invariant videoMuted old (us ++ ssrcs)
    (foldl (setVideoStreams_turn videoMuted) vars ssrcs).
Proof.
  revert us vars. induction ssrcs as [| u ssrcs IH]; intros us vars Hn H.
  - simpl. by rewrite app_nil_r.
  - simpl. replace (us ++ u :: ssrcs) with ((us ++ [u]) ++ ssrcs) in *
      by (by rewrite <- app_assoc).
    apply IH; [exact Hn |].
    apply setVideoStreams_turn_invariant; [| exact H].
    apply NoDup_app in Hn as [Hn _]. apply NoDup_app in Hn as (_ & Hn & _).
    intros Hu. apply (Hn u Hu). by left.
Qed.

Lemma setVideoStreams_removed_fired (videoMuted : gset Z)
  (removed : list Z) (fired : list VideoEvent) (e : VideoEvent) :
  (e ∈ foldl (fun fired ssrc_ =>
                if decide (ssrc_ ∈ videoMuted) then fired
                else StreamsVideoUpdated ssrc_ false :: fired)
         fired removed)
  <-> (e ∈ fired
       \/ exists x, e = StreamsVideoUpdated x false
                    /\ x ∈ removed /\ (x ∉ videoMuted)).
Proof.
  revert fired. induction removed as [| r removed IH]; intros fired; simpl.
  - split; [by left |]. intros [? | (x & _ & Hx & _)]; [done |].
    by apply elem_of_nil in Hx.
  - rewrite IH. case_decide as Hm.
    + split.
      * intros [? | (x & -> & Hx & Hn)]; [by left |].
        right. exists x. split_and!; [done | by right | done].
      * intros [? | (x & -> & Hx & Hn)]; [by left |].
        apply elem_of_cons in Hx as [-> | Hx]; [contradiction |].
        right. by exists x.
    + rewrite elem_of_cons. split.
      * intros [[-> | ?] | (x & -> & Hx & Hn)].
        -- right. exists r. split_and!; [done | by left | done].
        -- by left.
        -- right. exists x. split_and!; [done | by right | done].
      * intros [? | (x & -> & Hx & Hn)]; [tauto |].
        apply elem_of_cons in Hx as [-> | Hx]; [tauto |].
        right. by exists x.
Qed.

(** X20.  [setVideoStreams], given distinct sources.  The set
    [_videoStreamSsrcs] only grows: afterwards it holds what it held and
    the sources given, in order; a source that stopped streaming stays
    in it.  What is fired says the difference: streaming for every
    source given that was not in the set, no longer streaming for every
    source of the set that was not given, video-muted sources left out
    both times.  The large stream stays when it is among the sources
    given; otherwise it is chosen anew, and when it was set and is gone
    the pin is dropped.  The rest of the session is untouched. *)
Theorem setVideoStreams_grows (ssrcs : list Z) (v : VideoView)
  (c : GroupCall) :
  NoDup ssrcs ->
  let '(v', c', events) := setVideoStreams ssrcs (v, c) in
  let old := _videoStreamSsrcs c in
  let large := _videoStreamLarge v in
  c' = set_videoStreamSsrcs (_videoStreamSsrcs c') c
  /\ (forall x, (x ∈ _videoStreamSsrcs c') <-> (x ∈ old \/ x ∈ ssrcs))
  /\ (flat_set_sorted old -> flat_set_sorted (_videoStreamSsrcs c'))
  /\ (forall x, (StreamsVideoUpdated x true ∈ events)
                <-> (x ∈ ssrcs /\ (x ∉ old) /\ (x ∉ _videoMuted c)))
  /\ (forall x, (StreamsVideoUpdated x false ∈ events)
                <-> (x ∈ old /\ (x ∉ ssrcs) /\ (x ∉ _videoMuted c)))
  /\ _videoStreamLarge v'
     = (if decide (large <> 0 /\ large ∈ ssrcs) then large
        else chooseLargeVideoSsrc c')
  /\ _videoStreamPinned v'
     = (if decide (large <> 0 /\ large ∉ ssrcs) then 0
        else _videoStreamPinned v)
  /\ ((VideoStreamLargeChanged (_videoStreamLarge v') ∈ events)
      <-> _videoStreamLarge v' <> large).
Proof.
  intros Hn. unfold setVideoStreams.
  assert (H0 : setVideoStreams_invariant (_videoMuted c)
                 (_videoStreamSsrcs c) []
                 (_videoStreamSsrcs c, _videoStreamSsrcs c, [])).
  { unfold setVideoStreams_invariant. simpl. split_and!.
    - intros x. rewrite elem_of_nil. tauto.
    - intros x. rewrite elem_of_nil. tauto.
    - done.
    - intros e He. by apply elem_of_nil in He.
    - intros x Hx. by apply elem_of_nil in Hx. }
  pose proof (setVideoStreams_loop_invariant (_videoMuted c)
                (_videoStreamSsrcs c) ssrcs [] _ Hn H0) as H.
  simpl in H.
  destruct (foldl (setVideoStreams_turn (_videoMuted c)) _ ssrcs)
    as [[removed streams] fired].
  unfold setVideoStreams_invariant in H. simpl in H.
  destruct H as (H1 & H2 & H3 & H4 & H5).
  set (large := _videoStreamLarge v).
  set (c' := set_videoStreamSsrcs streams c).
  set (gone := bool_decide (large <> 0) && bool_decide (large ∉ ssrcs)).
  set (chosen := if bool_decide ((if gone then 0 else large) = 0)
                 then chooseLargeVideoSsrc c' else large).
  assert (Hgone : gone = bool_decide (large <> 0 /\ large ∉ ssrcs)).
  { subst gone. repeat case_bool_decide; simpl; try reflexivity; tauto. }
  clearbody gone. subst gone.
  assert (Hchosen : chosen = if decide (large <> 0 /\ large ∈ ssrcs)
                             then large else chooseLargeVideoSsrc c').
  { subst chosen.
    destruct (decide (large <> 0 /\ large ∉ ssrcs)) as [Hg | Hg];
      [ rewrite (bool_decide_eq_true_2 _ Hg)
      | rewrite (bool_decide_eq_false_2 _ Hg) ].
    - rewrite bool_decide_eq_true_2 by reflexivity.
      rewrite decide_False by tauto. reflexivity.
    - case_bool_decide as Hz.
      + rewrite decide_False by tauto. reflexivity.
      + rewrite decide_True; [reflexivity |].
        split; [exact Hz |].
        destruct (decide (large ∈ ssrcs)); tauto. }
  simpl.
  assert (Hev : forall e,
    (e ∈ rev (foldl (fun fired ssrc_ =>
                       if decide (ssrc_ ∈ _videoMuted c) then fired
                       else StreamsVideoUpdated ssrc_ false :: fired)
                (if bool_decide (chosen <> large)
                 then VideoStreamLargeChanged chosen :: fired else fired)
                removed))
    <-> (e ∈ fired
         \/ (e = VideoStreamLargeChanged chosen /\ chosen <> large))
        \/ exists x, e = StreamsVideoUpdated x false
                     /\ x ∈ removed /\ (x ∉ _videoMuted c)).
  { intros e. rewrite list_elem_of_In, <- in_rev, <- list_elem_of_In.
    rewrite setVideoStreams_removed_fired.
    case_bool_decide as Hc.
    - rewrite elem_of_cons. tauto.
    - tauto. }
  split_and!.
  - reflexivity.
  - exact H2.
  - exact H3.
  - intros x. rewrite Hev. split.
    + intros [[He | [[=] _]] | (y & [=] & _)].
      destruct (H4 _ He) as (y & [= ->] & Hy). tauto.
    + intros (Hx & Ho & Hm). left. left. by apply H5.
  - intros x. rewrite Hev. split.
    + intros [[He | [[=] _]] | (y & [= ->] & Hy & Hm)].
      * destruct (H4 _ He) as (y & [=] & _).
      * apply H1 in Hy. tauto.
    + intros (Ho & Hx & Hm). right. exists x.
      split_and!; [done | by apply H1 | done].
  - exact Hchosen.
  - destruct (decide (large <> 0 /\ large ∉ ssrcs)) as [Hg | Hg];
      [ by rewrite (bool_decide_eq_true_2 _ Hg)
      | by rewrite (bool_decide_eq_false_2 _ Hg) ].
  - rewrite Hev. split.
    + intros [[He | [_ ?]] | (y & [=] & _)]; [| done].
      destruct (H4 _ He) as (y & [=] & _).
    + intros Hc. left. right. by split.
Qed.

Lemma setVideoStreams_grows_witness :
  let '(v', c', events) :=
    setVideoStreams [20; 40] (mkVideoView 30 30, call_with_video) in
  let old := _videoStreamSsrcs call_with_video in
  c' = set_videoStreamSsrcs (_videoStreamSsrcs c') call_with_video
  /\ (forall x, (x ∈ _videoStreamSsrcs c') <-> (x ∈ old \/ x ∈ [20; 40]))
  /\ (flat_set_sorted old -> flat_set_sorted (_videoStreamSsrcs c'))
  /\ (forall x, (StreamsVideoUpdated x true ∈ events)
                <-> (x ∈ [20; 40] /\ (x ∉ old)
                     /\ (x ∉ _videoMuted call_with_video)))
  /\ (forall x, (StreamsVideoUpdated x false ∈ events)
                <-> (x ∈ old /\ (x ∉ [20; 40])
                     /\ (x ∉ _videoMuted call_with_video)))
  /\ _videoStreamLarge v'
     = (if decide (30 <> 0 /\ 30 ∈ [20; 40]) then 30
        else chooseLargeVideoSsrc c')
  /\ _videoStreamPinned v'
     = (if decide (30 <> 0 /\ 30 ∉ [20; 40]) then 0 else 30)
  /\ ((VideoStreamLargeChanged (_videoStreamLarge v') ∈ events)
      <-> _videoStreamLarge v' <> 30).
Proof.
  apply (setVideoStreams_grows [20; 40] (mkVideoView 30 30)
           call_with_video).
  apply NoDup_cons. split.
  - intros H. apply list_elem_of_singleton in H. discriminate.
  - apply NoDup_singleton.
Defined.

(** Source 30 is large and pinned and stops streaming: the pin goes, the
    large stream is chosen anew among the sources of the set, in which 30
    stays; source 10 stopped too but is video-muted, so nothing is fired
    for it. *)
Example setVideoStreams_sample :
  setVideoStreams [20; 40] (mkVideoView 30 30, call_with_video)
  = (mkVideoView 30 0,
     set_videoStreamSsrcs [10; 20; 30; 40] call_with_video,
     [StreamsVideoUpdated 40 true; StreamsVideoUpdated 30 false]).
Proof. vm_compute. reflexivity. Qed.

(** ** The race comes to an end *)

Lemma race_step_weight (who : Race.Thread) (s s' : Race.Task) :
  Race.step who s = Some s' -> (race_weight s' < race_weight s)%nat.
Proof.
  unfold race_weight. destruct s as [st h alive pd pc n m k].
  destruct who; simpl; unfold Race.step_done, Race.step_cancel; simpl;
    intros Hs.
  - destruct pd; try discriminate; destruct h; try discriminate;
      destruct st; simplify_eq; simpl; lia.
  - destruct pc; try discriminate; destruct h; try discriminate;
      destruct st; destruct alive; simplify_eq; simpl; lia.
Qed.

Lemma race_moves_weight (schedule : list Race.Thread) (s : Race.Task) :
  (race_moves schedule s + race_weight (Race.run schedule s)
   <= race_weight s)%nat.
Proof.
  revert s. induction schedule as [| who l IH]; intros s; simpl; [lia |].
  destruct (Race.step who s) as [s' |] eqn:E; simpl.
  - specialize (IH s'). apply race_step_weight in E. lia.
  - apply IH.
Qed.

(** X21.  The two methods cannot block each other and come to an end.
    After any schedule from a fresh task: unless both methods have
    returned, a thread can run its next statement; every statement run
    brings the end nearer; so no schedule holds more than twelve turns in
    which a thread moved, and the methods have both returned exactly when
    nothing is left to run. *)
Theorem race_no_deadlock (alive : bool) (schedule : list Race.Thread) :
  let s := Race.run schedule (Race.initial alive) in
  (Race.finished s <-> race_weight s = 0%nat)
  /\ (~ Race.finished s ->
      exists who s', Race.step who s = Some s'
                     /\ (race_weight s' < race_weight s)%nat)
  /\ (race_moves schedule (Race.initial alive) + race_weight s <= 12)%nat.
Proof.
  intros s. split_and!.
  - unfold Race.finished, race_weight.
    destruct (Race.pcDone s), (Race.pcCancel s); simpl;
      split; intros H; try lia; try (destruct H; discriminate);
      by split.
  - intros Hf.
    destruct (race_progress s (race_run schedule _ (race_initial alive)) Hf)
      as (who & s' & Hs).
    exists who, s'. split; [exact Hs | by apply (race_step_weight who)].
  - apply (race_moves_weight schedule (Race.initial alive)).
Qed.

(** ** The source ids of the session *)

Lemma remembers_refl (c : GroupCall) : remembers c c.
Proof. split; [done | tauto]. Qed.

Lemma remembers_trans (c1 c2 c3 : GroupCall) :
  remembers c2 c1 -> remembers c3 c2 -> remembers c3 c1.
Proof.
  intros [A1 A2] [B1 B2]. split; [set_solver | tauto].
Qed.

Lemma remembers_same (c' c : GroupCall) :
  _mySsrc c' = _mySsrc c -> _mySsrcs c' = _mySsrcs c -> remembers c' c.
Proof.
  intros H1 H2. unfold remembers, sourceKnown. rewrite H1, H2.
  split; [done | tauto].
Qed.

Lemma remembers_zero (c' c : GroupCall) :
  _mySsrc c' = 0 -> _mySsrcs c' = _mySsrcs c -> remembers c' c.
Proof.
  intros H1 H2. unfold remembers, sourceKnown. rewrite H1, H2.
  split; [done | by left].
Qed.

Lemma remembers_if (b : bool) (c1 c2 c : GroupCall) :
  remembers c1 c -> remembers c2 c -> remembers (if b then c1 else c2) c.
Proof. by destruct b. Qed.

Lemma keeps_remembers (c' c : GroupCall) : keeps c' c -> remembers c' c.
Proof. intros (_ & H1 & H2 & _). by apply remembers_same. Qed.

Lemma adds_remembers (c' c : GroupCall) : adds c' c -> remembers c' c.
Proof. intros (es & _ & ->). by apply remembers_same. Qed.

Lemma setState_remembers (state : State.t) (c : GroupCall) :
  remembers (setState state c) c.
Proof.
  pose proof (setState_frame state c) as (H1 & H2 & _).
  by apply remembers_same.
Qed.

Lemma rejoin_remembers (as_ : Z) (c : GroupCall) :
  remembers (rejoin as_ c) c.
Proof.
  destruct (isLive (_state c)) eqn:H.
  - pose proof (rejoin_honored as_ c H) as (_ & H1 & H2 & _).
    by apply remembers_zero.
  - rewrite rejoin_ignored by assumption. apply remembers_refl.
Qed.

Lemma rejoin0_remembers (c : GroupCall) : remembers (rejoin0 c) c.
Proof. unfold rejoin0. apply rejoin_remembers. Qed.

Lemma hangup_remembers (c : GroupCall) : remembers (hangup c) c.
Proof.
  unfold hangup, finish_body.
  rewrite !(decide_True (P := FinishType.Ended = FinishType.Ended))
    by reflexivity.
  case_decide; [apply remembers_refl |].
  case_decide; [apply setState_remembers |].
  eapply remembers_trans; [apply (setState_remembers State.HangingUp) |].
  apply remembers_same; reflexivity.
Qed.

Lemma applySelfUpdate_remembers (data : MTPDgroupCallParticipant)
  (c : GroupCall) :
  remembers (applySelfUpdate data c) c.
Proof.
  assert (HJ : remembers (rejoin0 (setState State.Joining c)) c).
  { eapply remembers_trans; [apply (setState_remembers State.Joining) |].
    apply rejoin0_remembers. }
  assert (HH : remembers (hangup (set_mySsrc 0 c)) c).
  { eapply remembers_trans; [| apply hangup_remembers].
    apply remembers_zero; reflexivity. }
  pose proof (fun m => keeps_remembers _ _ (setMuted_keeps m c)) as HM.
  unfold applySelfUpdate.
  repeat (first [case_decide | case_match]);
    first [ exact HJ | exact HH | apply HM | apply remembers_refl | idtac ].
  all: eapply remembers_trans; [apply HM |];
    apply keeps_remembers, notifyAboutAllowedToSpeak_keeps.
Qed.

Lemma handleUpdate_remembers (update : MTPUpdate) (c : GroupCall) :
  remembers (handleUpdate update c) c.
Proof.
  destruct update as [[vid | vid] | data]; simpl; [apply remembers_refl | |].
  - unfold handlePossibleDiscarded. case_decide; [| apply remembers_refl].
    eapply remembers_trans; [| apply hangup_remembers].
    apply remembers_zero; reflexivity.
  - unfold handleUpdateParticipants. case_decide; [apply remembers_refl |].
    generalize (isJoined (_state c)). intros joined.
    generalize (vparticipants data). intros l.
    induction l as [| p l IH] using rev_ind; [apply remembers_refl |].
    rewrite foldl_app. simpl.
    eapply remembers_trans; [exact IH |].
    repeat case_match;
      first [ apply applySelfUpdate_remembers
            | apply keeps_remembers, applyOtherParticipantUpdate_keeps
            | apply remembers_same; reflexivity ].
Qed.

Lemma applyUpdates_remembers (updates : list MTPUpdate) (c : GroupCall) :
  remembers (applyUpdates updates c) c.
Proof.
  unfold applyUpdates.
  eapply remembers_trans;
    [apply (remembers_same (emit ApplyUpdates c) c); reflexivity |].
  generalize (emit ApplyUpdates c). clear c.
  induction updates as [| u l IH]; intros c; simpl;
    [apply remembers_refl |].
  eapply remembers_trans; [apply handleUpdate_remembers | apply IH].
Qed.

Lemma applyQueuedSelfUpdates_remembers (c : GroupCall) :
  remembers (applyQueuedSelfUpdates c) c.
Proof.
  unfold applyQueuedSelfUpdates.
  generalize (length (_queuedSelfUpdates c)). intros n. revert c.
  induction n as [| n IH]; intros c; simpl; [apply remembers_refl |].
  repeat case_match; try apply remembers_refl.
  eapply remembers_trans; [| apply IH].
  eapply remembers_trans; [| apply applySelfUpdate_remembers].
  apply remembers_same; reflexivity.
Qed.

(** The answer to the join request records the source id it was sent
    with and makes it the one in use. *)
Lemma joinDone_remembers (ssrc_ : Z) (wasMuteState : MuteState.t)
  (updates : list MTPUpdate) (c : GroupCall) :
  _mySsrcs c ⊆ _mySsrcs (joinDone ssrc_ wasMuteState updates c)
  /\ sourceKnown (joinDone ssrc_ wasMuteState updates c)
  /\ ssrc_ ∈ _mySsrcs (joinDone ssrc_ wasMuteState updates c).
Proof.
  assert (H0 : _mySsrcs c ⊆ _mySsrcs (joinDone_capture ssrc_ c)
               /\ sourceKnown (joinDone_capture ssrc_ c)
               /\ ssrc_ ∈ _mySsrcs (joinDone_capture ssrc_ c)).
  { unfold joinDone_capture, sourceKnown.
    match goal with
    | |- context [setState ?s ?k] =>
        pose proof (setState_frame s k) as (H1 & H2 & _)
    end.
    simpl in *. rewrite H1, H2. simpl.
    split_and!.
    - apply union_subseteq_r.
    - right. apply elem_of_union_l. by apply elem_of_singleton.
    - apply elem_of_union_l. by apply elem_of_singleton. }
  assert (HR : remembers (joinDone ssrc_ wasMuteState updates c)
                 (joinDone_capture ssrc_ c)).
  { unfold joinDone.
    eapply remembers_trans;
      [| apply keeps_remembers, sendSelfUpdate_keeps].
    eapply remembers_trans;
      [| apply keeps_remembers, checkFirstTimeJoined_keeps].
    eapply remembers_trans; [| apply applyQueuedSelfUpdates_remembers].
    eapply remembers_trans; [| apply applyUpdates_remembers].
    eapply remembers_trans;
      [| apply keeps_remembers, maybeSendMutedUpdate_keeps].
    apply adds_remembers, applyMeInCallLocally_adds. }
  destruct H0 as (A1 & A2 & A3). destruct HR as [B1 B2].
  split_and!; [set_solver | tauto | set_solver].
Qed.

Lemma setInstanceConnected_remembers (isConnected inTransit : bool)
  (c : GroupCall) :
  remembers (setInstanceConnected isConnected inTransit c) c.
Proof.
  assert (HA : forall i k, remembers (assignInstanceState i k) k).
  { intros i k.
    unfold assignInstanceState, playConnectingSound, stopConnectingSound.
    repeat (first [case_decide | case_match]);
      apply remembers_same; reflexivity. }
  unfold setInstanceConnected. cbv zeta.
  repeat first
    [ apply remembers_refl
    | apply remembers_if
    | eapply remembers_trans;
        [| apply keeps_remembers, checkFirstTimeJoined_keeps]
    | eapply remembers_trans;
        [| apply keeps_remembers, notifyAboutAllowedToSpeak_keeps]
    | eapply remembers_trans; [| apply (setState_remembers State.Joined)]
    | eapply remembers_trans;
        [| apply (setState_remembers State.Connecting)]
    | eapply remembers_trans; [| apply HA]
    | apply remembers_same; reflexivity ].
Qed.

Lemma broadcastPartFinish_remembers (raw : positive) (part : BroadcastPart)
  (c : GroupCall) :
  remembers (broadcastPartFinish raw part c) c.
Proof.
  unfold broadcastPartFinish, LoadPartTask_done.
  repeat case_match; apply remembers_same; reflexivity.
Qed.

Lemma cancelBroadcastParts_remembers (c : GroupCall) :
  remembers (cancelBroadcastParts c) c.
Proof.
  unfold cancelBroadcastParts.
  generalize (map_to_list (_broadcastParts c)). intros l. revert c.
  induction l as [| e l IH]; intros c; simpl; [apply remembers_refl |].
  eapply remembers_trans; [| apply IH].
  apply remembers_same; reflexivity.
Qed.

Lemma take_request_remembers (id : Z) (c c' : GroupCall) (r : Request) :
  take_request id c = Some (r, c') -> remembers c' c.
Proof.
  unfold take_request. destruct (List.find _ _); [| discriminate].
  intros [= _ <-]. apply remembers_same; reflexivity.
Qed.

Lemma step_remembers (IsFloodError : string -> bool) (e : Event)
  (c : GroupCall) :
  remembers (step IsFloodError e c) c.
Proof.
  destruct e; simpl.
  - apply rejoin0_remembers.
  - destruct (pendingJoinPayloads c); [apply remembers_refl |].
    apply remembers_same; reflexivity.
  - apply hangup_remembers.
  - apply handleUpdate_remembers.
  - apply setInstanceConnected_remembers.
  - unfold broadcastPartStart. destruct (tasks c !! raw) as [t |];
      [| apply remembers_refl].
    destruct (api_send _ c) as [requestId c1] eqn:E.
    assert (Hc1 : remembers c1 c).
    { replace c1 with (api_send (MTPupload_GetFile raw (_time t) (_scale t))
                         c).2 by (by rewrite E).
      apply remembers_same; reflexivity. }
    case_match; [exact Hc1 |].
    eapply remembers_trans; [exact Hc1 | apply remembers_same; reflexivity].
  - unfold broadcastPartCancel. case_match; [| apply remembers_refl].
    apply remembers_same; reflexivity.
  - destruct (take_request id c) as [[r c'] |] eqn:E;
      [| apply remembers_refl].
    apply take_request_remembers in E.
    eapply remembers_trans; [exact E |].
    destruct r.
    + match goal with
      | |- remembers (joinDone ?a ?b ?u ?k) _ =>
          pose proof (joinDone_remembers a b u k) as (H1 & H2 & _)
      end.
      by split.
    + unfold leaveDone.
      eapply remembers_trans; [apply applyUpdates_remembers |].
      apply setState_remembers.
    + unfold editSelfDone.
      eapply remembers_trans; [| apply applyUpdates_remembers].
      apply remembers_same; reflexivity.
    + unfold getFileDone. destruct file; apply broadcastPartFinish_remembers.
  - destruct (take_request id c) as [[r c'] |] eqn:E;
      [| apply remembers_refl].
    apply take_request_remembers in E.
    eapply remembers_trans; [exact E |].
    destruct r.
    + unfold joinFail. case_decide; [apply rejoin0_remembers |].
      eapply remembers_trans; [apply hangup_remembers |].
      apply remembers_same; reflexivity.
    + unfold leaveFail. apply setState_remembers.
    + unfold editSelfFail. cbv zeta.
      case_decide; [| apply remembers_same; reflexivity].
      eapply remembers_trans; [| apply rejoin0_remembers].
      apply remembers_same; reflexivity.
    + unfold getFileFail.
      case_decide; [| apply broadcastPartFinish_remembers].
      eapply remembers_trans; [apply cancelBroadcastParts_remembers |].
      eapply remembers_trans; [apply (setState_remembers State.Joining) |].
      apply rejoin0_remembers.
Qed.

(** X22.  The session remembers its source ids: whatever events reach
    it, no source id leaves [_mySsrcs], and the source id in use, when
    there is one, stays among them; the answer to a join request adds the
    source id of its payload to them. *)
Theorem source_ids_remembered (IsFloodError : string -> bool)
  (events : list Event) (c : GroupCall) :
  sourceKnown c ->
  _mySsrcs c ⊆ _mySsrcs (run IsFloodError events c)
  /\ sourceKnown (run IsFloodError events c)
  /\ forall ssrc_ wasMuteState updates,
       ssrc_ ∈ _mySsrcs (joinDone ssrc_ wasMuteState updates
                           (run IsFloodError events c))
       /\ sourceKnown (joinDone ssrc_ wasMuteState updates
                         (run IsFloodError events c)).
Proof.
  intros Hc.
  assert (H : remembers (run IsFloodError events c) c).
  { revert c Hc. induction events as [| e l IH]; intros c Hc;
      [apply remembers_refl |].
    simpl. pose proof (step_remembers IsFloodError e c) as Hs.
    eapply remembers_trans; [exact Hs |]. apply IH. by apply Hs. }
  destruct H as [H1 H2]. split_and!; [exact H1 | by apply H2 |].
  intros ssrc_ wasMuteState updates.
  pose proof (joinDone_remembers ssrc_ wasMuteState updates
                (run IsFloodError events c)) as (_ & A2 & A3).
  by split.
Qed.

Lemma source_ids_remembered_witness :
  _mySsrcs call_joined
    ⊆ _mySsrcs (run (fun _ => false)
                  [EvRejoin; EvJoinPayload 777; EvDone 1 [] 
                     MTPDupload_fileCdnRedirect 0] call_joined)
  /\ sourceKnown (run (fun _ => false)
                    [EvRejoin; EvJoinPayload 777; EvDone 1 []
                       MTPDupload_fileCdnRedirect 0] call_joined)
  /\ forall ssrc_ wasMuteState updates,
       ssrc_ ∈ _mySsrcs (joinDone ssrc_ wasMuteState updates
                           (run (fun _ => false)
                              [EvRejoin; EvJoinPayload 777; EvDone 1 []
                                 MTPDupload_fileCdnRedirect 0] call_joined))
       /\ sourceKnown (joinDone ssrc_ wasMuteState updates
                         (run (fun _ => false)
                            [EvRejoin; EvJoinPayload 777; EvDone 1 []
                               MTPDupload_fileCdnRedirect 0] call_joined)).
Proof.
  apply (source_ids_remembered (fun _ => false)
           [EvRejoin; EvJoinPayload 777; EvDone 1 []
              MTPDupload_fileCdnRedirect 0] call_joined).
  right. vm_compute. set_solver.
Defined.

(** After a rejoin answered for source 777 both source ids are
    recorded. *)
Example source_ids_sample :
  let c := run (fun _ => false)
             [EvRejoin; EvJoinPayload 777;
              EvDone 1 [] MTPDupload_fileCdnRedirect 0] call_joined in
  _mySsrc c = 777 /\ 555 ∈ _mySsrcs c /\ 777 ∈ _mySsrcs c.
Proof. vm_compute. split_and!; [reflexivity | set_solver | set_solver]. Qed.

(** ** The check of the join *)

Lemma rejoin0_rejoined (c : GroupCall) :
  isLive (_state c) = true -> rejoined (rejoin0 c) c.
Proof.
  intros H. unfold rejoin0, rejoined.
  pose proof (rejoin_honored (_joinAs c) c H)
    as (H1 & H2 & _ & _ & _ & H3 & H4 & _ & _ & _ & _ & _ & H5).
  by split_and!.
Qed.

(** X23.  The check of the join is asked for only in [Connecting], with
    a call id and a source id, and names the local source.  When the
    answer lists the local source and the state is still [Connecting],
    the timer of the check is armed again and nothing else changes; when
    it does not list it, or when the request fails, a live session joins
    again: state [Joining], source id reset, one payload asked from the
    engine, nothing sent yet.  An answer that finds the session no longer
    live changes nothing. *)
Theorem checkJoined_watchdog (screencastSsrc : Z) (result : list Z)
  (c : GroupCall) :
  (is_Some (checkJoined screencastSsrc c)
   <-> _state c = State.Connecting /\ _id c <> 0 /\ _mySsrc c <> 0)
  /\ (forall sources, checkJoined screencastSsrc c = Some sources ->
        head sources = Some (_mySsrc c)
        /\ forall x, x ∈ sources ->
             x <> 0 /\ (x = _mySsrc c \/ x = screencastSsrc))
  /\ (isLive (_state c) = true ->
      (_mySsrc c ∉ result -> rejoined (checkJoinedDone result c) c)
      /\ rejoined (checkJoinedFail c) c)
  /\ (_mySsrc c ∈ result ->
      checkJoinedDone result c
      = (if decide (_state c = State.Connecting)
         then set_checkJoinedTimer true c else c))
  /\ (isLive (_state c) = false ->
      checkJoinedDone result c = c /\ checkJoinedFail c = c).
Proof.
  split_and!.
  - unfold checkJoined. case_decide as H.
    + split; [intros [x Hx]; discriminate |]. tauto.
    + split; [| by eexists].
      intros _. destruct (decide (_state c = State.Connecting));
        destruct (decide (_id c = 0)); destruct (decide (_mySsrc c = 0));
        tauto.
  - unfold checkJoined. intros sources. case_decide as H; [discriminate |].
    intros [= <-]. split; [reflexivity |].
    intros x Hx. apply elem_of_cons in Hx as [-> | Hx].
    + split; [tauto | by left].
    + case_decide as Hs; [| by apply elem_of_nil in Hx].
      apply list_elem_of_singleton in Hx as ->. split; [exact Hs | by right].
  - intros Hl. split.
    + intros Hn. unfold checkJoinedDone. rewrite decide_True by assumption.
      by apply rejoin0_rejoined.
    + by apply rejoin0_rejoined.
  - intros Hin. unfold checkJoinedDone.
    by rewrite decide_False by (intros Hn; by apply Hn).
  - intros Hl. unfold checkJoinedDone, checkJoinedFail, rejoin0.
    rewrite rejoin_ignored by assumption.
    split; [| reflexivity].
    case_decide; [reflexivity |].
    case_decide as Hs; [| reflexivity].
    rewrite Hs in Hl. discriminate.
Qed.

(** The source 555 in the answer keeps the check going; an answer
    without it sends the session back to [Joining]. *)
Example checkJoined_sample :
  checkJoined 0 call_connecting = Some [555]
  /\ checkJoined 9 call_connecting = Some [555; 9]
  /\ checkJoined 0 call_joined = None
  /\ _checkJoinedTimer (checkJoinedDone [555] call_connecting) = true
  /\ _state (checkJoinedDone [556] call_connecting) = State.Joining.
Proof. vm_compute. repeat split. Qed.

